(** * Multi-master synchronisation engine: a shallow embedding

    The development follows the Python sources of the campus trading
    platform:

    - [apps/core/snowflake.py]               (module [Snowflake])
    - [apps/core/transaction.py]             (module [Transaction])
    - [apps/services/sync_core_worker.py]    (modules [VClock], [Worker])
    - [apps/api_gateway/routers/sync_api.py] (module [SyncApi])

    Python integers are unbounded, so they are modelled by [Z]; dicts are
    finite maps ([gmap]); functions that touch a database thread the
    database contents explicitly.  The definitions come first, the facts
    about them ([SnowflakeFacts], [TransactionFacts], [VClockFacts],
    [WorkerFacts], [SyncApiFacts]) follow. *)

From Stdlib Require Import ZArith Lia List String Ascii Sorting.Sorted.
From Stdlib Require Import DecimalString DecimalPos DecimalZ.
From stdpp Require Import base gmap strings list fin_maps sorting.

(** ** Identifier generator ([apps/core/snowflake.py]) *)

Module Snowflake.
Local Open Scope Z_scope.

(** The mutable fields of a [Snowflake] instance.  The lock only
    serialises callers and is not part of the state. *)
Record t := Mk {
  worker_id : Z;
  epoch_ms : Z;
  last_ms : Z;
  seq : Z
}.

(** [Snowflake.__init__]: [None] stands for the [ValueError]. *)
Definition init (worker : Z) (epoch : Z) : option t :=
  if (worker <? 0) || (worker >? 1023) then None
  else Some (Mk worker epoch (-1) 0).

(** The wall clock is the list of the successive values of
    [int(time.time() * 1000)]; every evaluation consumes one reading. *)
Definition clock := list Z.

(** The [while True] loop of [next_id]: read the clock until it shows a
    millisecond after [last].  [None]: the readings ran out first. *)
Fixpoint spin_wait (last : Z) (c : clock) : option (Z * clock) :=
  match c with
  | [] => None
  | now :: c' => if now >? last then Some (now, c') else spin_wait last c'
  end.

(** The value [next_id] returns: the 41-bit timestamp, the writer id and
    the sequence number packed into one integer. *)
Definition pack (g : t) (now_ms : Z) (s : Z) : Z :=
  let ts_part := Z.land (now_ms - epoch_ms g) 0x1FFFFFFFFFF in
  Z.lor (Z.lor (Z.shiftl ts_part 22) (Z.shiftl (worker_id g) 12)) s.

(** The last three statements of [next_id], with the value of [self._seq]
    chosen by the branch taken. *)
Definition emit (g : t) (now_ms : Z) (s : Z) : Z * t :=
  (pack g now_ms s, Mk (worker_id g) (epoch_ms g) now_ms s).

(** [Snowflake.next_id]: the identifier, the new state and the readings
    that are left. *)
Definition next_id (g : t) (c : clock) : option (Z * t * clock) :=
  match c with
  | [] => None
  | now :: c' =>
      let now_ms := if now <? last_ms g then last_ms g else now in
      if now_ms =? last_ms g then
        let s := Z.land (seq g + 1) 0xFFF in
        if s =? 0 then
          match spin_wait (last_ms g) c' with
          | Some (now_ms', c'') => Some (emit g now_ms' s, c'')
          | None => None
          end
        else Some (emit g now_ms s, c')
      else Some (emit g now_ms 0, c')
  end.

(** Successive calls on one instance for as long as the clock has
    readings; [fuel] bounds the number of calls. *)
Fixpoint run_fuel (fuel : nat) (g : t) (c : clock) : list Z :=
  match fuel with
  | O => []
  | S fuel' =>
      match next_id g c with
      | Some (id, g', c') => id :: run_fuel fuel' g' c'
      | None => []
      end
  end.

(** Every call consumes a reading, so [length c] calls exhaust [c]. *)
Definition run (g : t) (c : clock) : list Z := run_fuel (length c) g c.

(** The identifier a state has just emitted. *)
Definition id_of (g : t) : Z := pack g (last_ms g) (seq g).

(** The readings a 41-bit timestamp can represent. *)
Definition in_window (epoch : Z) (now : Z) : Prop :=
  epoch <= now < epoch + 2 ^ 41.

(** A non-negative value of a signed 64-bit integer (bit 63 unused). *)
Definition fits_int64 (id : Z) : Prop := 0 <= id < 2 ^ 63.

(** A well-formed instance: the constructor's range check on the writer
    id, and a sequence number that fits its 12 bits. *)
Definition wf (g : t) : Prop :=
  0 <= worker_id g <= 1023 /\ 0 <= seq g <= 4095.

End Snowflake.

(** ** Transaction policy ([apps/core/transaction.py]) *)

Module Transaction.

(** [IsolationLevel]: the string-valued enum. *)
Inductive IsolationLevel :=
  | READ_UNCOMMITTED
  | READ_COMMITTED
  | REPEATABLE_READ
  | SERIALIZABLE.

(** [IsolationLevel.value] *)
Definition value (l : IsolationLevel) : string :=
  match l with
  | READ_UNCOMMITTED => "READ UNCOMMITTED"
  | READ_COMMITTED => "READ COMMITTED"
  | REPEATABLE_READ => "REPEATABLE READ"
  | SERIALIZABLE => "SERIALIZABLE"
  end.

(** [TransactionConfig]: the class constants the retry wrapper reads.  The
    two floats ([RETRY_DELAY = 0.1], [RETRY_BACKOFF = 2.0]) are kept
    abstract below. *)
Definition MYSQL_ISOLATION := REPEATABLE_READ.
Definition MARIADB_ISOLATION := REPEATABLE_READ.
Definition POSTGRES_ISOLATION := READ_COMMITTED.
Definition MAX_RETRIES : Z := 3.

(** [TransactionConfig.get_isolation_level]: a dict lookup with a
    default. *)
Definition get_isolation_level (db_name : string) : IsolationLevel :=
  let mapping : gmap string IsolationLevel :=
    <["mysql" := MYSQL_ISOLATION]>
      (<["mariadb" := MARIADB_ISOLATION]>
         (<["postgres" := POSTGRES_ISOLATION]> ∅)) in
  default READ_COMMITTED (mapping !! db_name).

(** An exception as the wrapper sees it: whether it is an instance of
    [DBAPIError] or [OperationalError], and [str(error)]. *)
Record error := MkError {
  is_dbapi_error : bool;
  message : string
}.

(** [str.lower] on the ASCII letters; other bytes are left alone. *)
Definition lower_ascii (c : ascii) : ascii :=
  let n := nat_of_ascii c in
  if (65 <=? n)%nat && (n <=? 90)%nat then ascii_of_nat (n + 32) else c.

Fixpoint lower (s : string) : string :=
  match s with
  | EmptyString => EmptyString
  | String c s' => String (lower_ascii c) (lower s')
  end.

(** [pattern in error_msg]: substring test. *)
Fixpoint contains (pattern : string) (s : string) : bool :=
  String.prefix pattern s
  || match s with
     | EmptyString => false
     | String _ s' => contains pattern s'
     end.

Definition retryable_patterns : list string :=
  ["deadlock"; "lock wait timeout"; "could not serialize";
   "database is locked"; "serialization failure"].

(** [is_retryable_error] *)
Definition is_retryable_error (e : error) : bool :=
  if negb (is_dbapi_error e) then false
  else
    let error_msg := lower (message e) in
    existsb (fun pattern => contains pattern error_msg) retryable_patterns.

Section Wrapper.
  (** The type of [delay] with its multiplication (Python floats in the
      source), and the two float constants of [TransactionConfig]. *)
Context {D : Type} (mul : D -> D -> D).
Context (RETRY_DELAY RETRY_BACKOFF : D).
  (** The result type of the wrapped function. *)
Context {R : Type}.

  (** What one pass through the [try] block does: [func] returns and
      [session.commit()] succeeds, [func] raises, or [func] returns and
      the commit raises. *)
Inductive outcome :=
    | Committed (r : R)
    | FuncRaised (e : error)
    | CommitRaised (e : error).

  (** What the wrapper does to the session and the clock, in order. *)
Inductive event :=
    | SetIsolation (l : IsolationLevel)
    | Call (attempt : nat)
    | Commit
    | Rollback
    | Sleep (delay : D).

  (** How a call of the wrapper ends. *)
Inductive result :=
    | Returned (r : R)
    | Raised (e : error)
    | RaisedValueError
    | RaisedRuntimeError.

  (** The events of the [try] block itself for one outcome. *)
Definition try_events (attempt : nat) (o : outcome) : list event :=
    match o with
    | Committed _ => [Call attempt; Commit]
    | FuncRaised _ => [Call attempt]
    | CommitRaised _ => [Call attempt; Commit]
    end.

  (** The [while attempt < max_retries] loop.  [remaining] counts the
      iterations the loop condition still allows, [max_retries - attempt];
      [func n] is what the [n]-th call of the wrapped function does. *)
Fixpoint retry_loop (func : nat -> outcome) (max_retries : Z)
      (remaining : nat) (attempt : nat) (delay : D) : result * list event :=
    match remaining with
    | O => (RaisedRuntimeError, [])
    | S remaining' =>
        match func attempt with
        | Committed r => (Returned r, try_events attempt (func attempt))
        | FuncRaised e | CommitRaised e =>
            if is_retryable_error e && (Z.of_nat attempt <? max_retries - 1)%Z
            then
              let '(res, evs) :=
                retry_loop func max_retries remaining' (S attempt)
                  (mul delay RETRY_BACKOFF) in
              (res, try_events attempt (func attempt)
                      ++ [Rollback; Sleep delay] ++ evs)
            else (Raised e, try_events attempt (func attempt) ++ [Rollback])
        end
    end.

  (** [with_transaction(db_name, max_retries, isolation_level)(func)]
      called with or without a [session] keyword argument.  [max_retries]
      is the decorator's argument, [None] standing for the default. *)
Definition with_transaction (max_retries : option Z)
      (isolation_level : option IsolationLevel)
      (session : bool) (func : nat -> outcome) : result * list event :=
    let max_retries := default MAX_RETRIES max_retries in
    if negb session then (RaisedValueError, [])
    else
      let pre := match isolation_level with
                 | Some l => [SetIsolation l]
                 | None => []
                 end in
      let '(res, evs) :=
        retry_loop func max_retries (Z.to_nat max_retries) 0 RETRY_DELAY in
      (res, pre ++ evs).

  (** The delay slept after the [k]-th failed attempt. *)
Fixpoint delay_after (k : nat) : D :=
    match k with
    | O => RETRY_DELAY
    | S k' => mul (delay_after k') RETRY_BACKOFF
    end.

  (** The error an outcome raises, if any. *)
Definition raised (o : outcome) : option error :=
    match o with
    | Committed _ => None
    | FuncRaised e | CommitRaised e => Some e
    end.

  (** The events of attempts [from], ..., [from + n - 1] when each of them
      fails and is retried. *)
Fixpoint retried_events (func : nat -> outcome) (from n : nat) : list event :=
    match n with
    | O => []
    | S n' =>
        try_events from (func from) ++ [Rollback; Sleep (delay_after from)]
          ++ retried_events func (S from) n'
    end.

  (** The delays slept, in order. *)
Definition sleeps (evs : list event) : list D :=
    omap (fun ev => match ev with Sleep d => Some d | _ => None end) evs.

Definition calls (evs : list event) : list nat :=
    omap (fun ev => match ev with Call n => Some n | _ => None end) evs.

Definition rollbacks (evs : list event) : nat :=
    length (omap (fun ev => match ev with Rollback => Some tt | _ => None end) evs).
(** An attempt that fails with an error the wrapper retries. *)
Definition fails_retryably (o : outcome) : Prop :=
  exists e, raised o = Some e /\ is_retryable_error e = true.

(** The attempt that ends the loop: it commits, or fails with an error
    that is not retried, or is the last one allowed. *)
Definition final_result (o : outcome) : result :=
  match o with
  | Committed r => Returned r
  | FuncRaised e | CommitRaised e => Raised e
  end.

Definition final_events (attempt : nat) (o : outcome) : list event :=
  match o with
  | Committed _ => try_events attempt o
  | _ => try_events attempt o ++ [Rollback]
  end.
End Wrapper.

(** A script for the wrapped function: a deadlock, a lock-wait timeout,
    then an error that is not a database error. *)
Definition script_deadlock_then_fatal (attempt : nat) : outcome (R := Z) :=
  match attempt with
  | 0 => FuncRaised (MkError true "(1213, 'Deadlock found when trying to get lock')")
  | 1 => CommitRaised (MkError true "(1205, 'Lock wait timeout exceeded')")
  | _ => FuncRaised (MkError false "deadlock in the caller's own code")
  end.

(** *** [TransactionMetrics] *)

Section Metrics.
(** The type of [duration] and [total_duration] (Python floats in the
    source) with its zero and its addition. *)
Context {D : Type} (zero : D) (add : D -> D -> D).

(** The four counters of an instance. *)
Record TransactionMetrics := MkMetrics {
  total_transactions : Z;
  total_retries : Z;
  total_deadlocks : Z;
  total_duration : D
}.

(** [TransactionMetrics.__init__] *)
Definition metrics_init : TransactionMetrics := MkMetrics 0 0 0 zero.

(** [TransactionMetrics.record_transaction] *)
Definition record_transaction (self : TransactionMetrics) (duration : D)
    (retries : Z) (deadlocked : bool) : TransactionMetrics :=
  MkMetrics (total_transactions self + 1) (total_retries self + retries)
    (if deadlocked then total_deadlocks self + 1 else total_deadlocks self)
    (add (total_duration self) duration).

(** A sequence of [record_transaction] calls on one instance. *)
Definition record_all (self : TransactionMetrics) (calls : list (D * Z * bool))
    : TransactionMetrics :=
  fold_left (fun m c => record_transaction m c.1.1 c.1.2 c.2) calls self.
End Metrics.

End Transaction.

(** ** Python values

    The values that flow through the synchronisation code: what
    [json.loads] returns and what a database driver returns for a row.
    Floats, [Decimal], [datetime] and [bytes] values are left out; a dict is
    a finite map, so [==] on dicts is equality of maps.  [==] between a
    [bool] and an [int] is not modelled: values compare structurally. *)

Module Py.

#[local] Set Warnings "-register-all".
Inductive value :=
  | VNone
  | VBool (b : bool)
  | VInt (z : Z)
  | VStr (s : string)
  | VList (l : list value)
  | VDict (d : gmap string value).

Fixpoint value_eq_dec (v w : value) {struct v} : Decision (v = w).
Proof.
  refine (
    match v, w with
    | VNone, VNone => left _
    | VBool a, VBool b => cast_if (decide (a = b))
    | VInt a, VInt b => cast_if (decide (a = b))
    | VStr a, VStr b => cast_if (decide (a = b))
    | VList a, VList b => cast_if (@list_eq_dec _ value_eq_dec a b)
    | VDict a, VDict b => cast_if (@gmap_eq_dec _ _ _ _ value_eq_dec a b)
    | _, _ => right _
    end); congruence.
Defined.
#[global] Instance value_eqdec : EqDecision value := value_eq_dec.

(** A Python [dict] with string keys. *)
Abbreviation pydict := (gmap string value).

(** Truth value of an object, as [if x:] and [x or y] use it. *)
Definition truthy (v : value) : bool :=
  match v with
  | VNone => false
  | VBool b => b
  | VInt z => negb (z =? 0)%Z
  | VStr s => negb (String.eqb s EmptyString)
  | VList l => match l with [] => false | _ => true end
  | VDict d => negb (bool_decide (d = ∅))
  end.

(** [x or y] *)
Definition py_or (x y : value) : value := if truthy x then x else y.

(** [d.get(k)] and [d.get(k, dflt)] *)
Definition get (d : pydict) (k : string) : value := default VNone (d !! k).
Definition get_default (d : pydict) (k : string) (dflt : value) : value :=
  default dflt (d !! k).

(** [str.isspace] on one ASCII character. *)
Definition is_space (c : ascii) : bool :=
  let n := nat_of_ascii c in
  ((9 <=? n) && (n <=? 13)) || ((28 <=? n) && (n <=? 32)).

Fixpoint lstrip (s : string) : string :=
  match s with
  | String c s' => if is_space c then lstrip s' else s
  | EmptyString => EmptyString
  end.

Fixpoint rstrip (s : string) : string :=
  match s with
  | String c s' =>
      let r := rstrip s' in
      if is_space c && String.eqb r EmptyString then EmptyString else String c r
  | EmptyString => EmptyString
  end.

(** [str.strip()] *)
Definition strip (s : string) : string := rstrip (lstrip s).

(** [str.upper()] on the ASCII letters. *)
Definition upper_ascii (c : ascii) : ascii :=
  let n := nat_of_ascii c in
  if (97 <=? n) && (n <=? 122) then ascii_of_nat (n - 32) else c.

Fixpoint upper (s : string) : string :=
  match s with
  | EmptyString => EmptyString
  | String c s' => String (upper_ascii c) (upper s')
  end.

(** A JSON string literal of plain characters: the text between double
    quotes. *)
Definition quoted (s : string) : string :=
  String (ascii_of_nat 34) (s ++ String (ascii_of_nat 34) EmptyString).

(** [str(n)] of an [int], also what [json.dumps] and an f-string print. *)
Definition dec (z : Z) : string := NilZero.string_of_int (Z.to_int z).

(** [int(x)] on the values above; [None] stands for the [TypeError] or
    [ValueError].  [int_of_str] is [int] on a [str]. *)
Definition py_int (int_of_str : string -> option Z) (v : value) : option Z :=
  match v with
  | VInt z => Some z
  | VBool b => Some (if b then 1 else 0)%Z
  | VStr s => int_of_str s
  | VNone | VList _ | VDict _ => None
  end.

End Py.

(** ** Vector clocks ([apps/services/sync_core_worker.py]) *)

Module VClock.
Local Open Scope Z_scope.

(** The normalised clock [{"N": n, "S": s}] that [_parse_vclock] builds. *)
Record t := Mk { N : Z; S : Z }.

#[global] Instance t_eq_dec : EqDecision t.
Proof. solve_decision. Defined.

(** [_vclock_dominates] *)
Definition _vclock_dominates (a b : t) : bool :=
  ((N a >=? N b) && (S a >=? S b)) && ((N a >? N b) || (S a >? S b)).

(** [_vclock_concurrent] *)
Definition _vclock_concurrent (a b : t) : bool :=
  if bool_decide (a = b) then false
  else negb (_vclock_dominates a b) && negb (_vclock_dominates b a).

(** The key of an edge database in a clock: the values of
    [EDGE_ORIGINS]. *)
Inductive key := KN | KS.

Definition key_name (k : key) : string :=
  match k with KN => "N" | KS => "S" end.

(** [v_clock.get(k, 0)] and [fixed[k] = x] on a normalised clock. *)
Definition component (k : key) (v : t) : Z :=
  match k with KN => N v | KS => S v end.

Definition set_component (k : key) (x : Z) (v : t) : t :=
  match k with KN => Mk x (S v) | KS => Mk (N v) x end.

End VClock.

(** ** The synchronisation worker ([apps/services/sync_core_worker.py]) *)

Module Worker.
Import Py.
Local Open Scope Z_scope.

(** [EDGE_ORIGINS], in the order [dict.items()] yields it. *)
Definition EDGE_ORIGINS : list (string * VClock.key) :=
  [("mariadb", VClock.KN); ("postgres", VClock.KS)].

(** [TRACKED_TABLES] *)
Definition TRACKED_TABLES : gset string :=
  list_to_set ["users"; "user_profiles"; "items"; "item_images";
               "transactions"; "messages"; "favorites"].

(** [EdgeLogRow]; [occurred_at] is carried along and never read. *)
Record EdgeLogRow := MkEdgeLogRow {
  log_id : Z;
  table_name : string;
  data_id : Z;
  operation : string;
  old_data : value;
  new_data : value;
  occurred_at : option Z
}.

(** *** Exceptions *)

(** The exceptions the worker tells apart: an [IntegrityError] with
    [orig.args[0]] (MySQL/MariaDB) and [orig.sqlstate] (Postgres), another
    [SQLAlchemyError], or any other [Exception]. *)
Inductive exc :=
  | IntegrityError (errno : option Z) (sqlstate : option string)
  | OtherSQLAlchemyError
  | OtherException.

Definition is_SQLAlchemyError (e : exc) : bool :=
  match e with
  | IntegrityError _ _ | OtherSQLAlchemyError => true
  | OtherException => false
  end.

(** [_is_mysql_fk_missing] *)
Definition _is_mysql_fk_missing (e : exc) : bool :=
  match e with
  | IntegrityError (Some n) _ => n =? 1452
  | _ => false
  end.

(** [_is_mysql_duplicate_key] *)
Definition _is_mysql_duplicate_key (e : exc) : bool :=
  match e with
  | IntegrityError (Some n) _ => n =? 1062
  | _ => false
  end.

(** [_is_postgres_unique_violation] *)
Definition _is_postgres_unique_violation (e : exc) : bool :=
  match e with
  | IntegrityError _ (Some s) => String.eqb s "23505"
  | _ => false
  end.

(** [_is_postgres_fk_missing] *)
Definition _is_postgres_fk_missing (e : exc) : bool :=
  match e with
  | IntegrityError _ (Some s) => String.eqb s "23503"
  | _ => false
  end.

(** *** Database contents *)

(** A business table: rows (column name to value) by primary key [id]. *)
Abbreviation table := (gmap Z pydict).
(** A database: its business tables by name.  A table that is missing is
    read as empty. *)
Abbreviation database := (gmap string table).

(** A row of an edge database's [sync_log] table (the key is [log_id]). *)
Record sync_log_row := MkSyncLogRow {
  sl_table_name : string;
  sl_data_id : Z;
  sl_operation : string;
  sl_old_data : value;
  sl_new_data : value;
  sl_occurred_at : option Z;
  sl_status : Z
}.

(** A row of the hub's [sync_configs] table (the key is [id]); times are
    UTC microseconds. *)
Record SyncConfig := MkSyncConfig {
  source : string;
  target : string;
  mode : string;
  interval_seconds : Z;
  enabled : bool;
  last_run_at : option Z
}.

(** A row of the hub's [conflict_records] table (the key is [id]). *)
Record ConflictRecord := MkConflictRecord {
  cr_table_name : string;
  cr_record_id : Z;
  cr_source : string;
  cr_target : string;
  cr_payload : value;
  cr_resolved : bool;
  cr_status : string;
  cr_resolution_note : option string;
  cr_resolved_by : option Z
}.

(** Everything the worker reads and writes: the business tables of the
    three databases, the [sync_log] of each edge database, and the hub's
    [conflict_records], [sync_worker_state] ([worker_name] to
    [last_event_id]), [sync_configs] and today's [daily_stats] row. *)
Record world := MkWorld {
  dbs : gmap string database;
  sync_log : gmap string (gmap Z sync_log_row);
  conflict_records : gmap Z ConflictRecord;
  sync_worker_state : gmap string Z;
  sync_configs : gmap Z SyncConfig;
  daily_stats : gmap string Z
}.

Definition set_dbs (f : gmap string database -> gmap string database) (w : world) : world :=
  MkWorld (f (dbs w)) (sync_log w) (conflict_records w) (sync_worker_state w)
    (sync_configs w) (daily_stats w).
Definition set_sync_log (f : gmap string (gmap Z sync_log_row) -> gmap string (gmap Z sync_log_row))
    (w : world) : world :=
  MkWorld (dbs w) (f (sync_log w)) (conflict_records w) (sync_worker_state w)
    (sync_configs w) (daily_stats w).
Definition set_conflict_records
    (f : gmap Z ConflictRecord -> gmap Z ConflictRecord) (w : world) : world :=
  MkWorld (dbs w) (sync_log w) (f (conflict_records w)) (sync_worker_state w)
    (sync_configs w) (daily_stats w).
Definition set_sync_worker_state (f : gmap string Z -> gmap string Z) (w : world) : world :=
  MkWorld (dbs w) (sync_log w) (conflict_records w) (f (sync_worker_state w))
    (sync_configs w) (daily_stats w).
Definition set_sync_configs (f : gmap Z SyncConfig -> gmap Z SyncConfig) (w : world) : world :=
  MkWorld (dbs w) (sync_log w) (conflict_records w) (sync_worker_state w)
    (f (sync_configs w)) (daily_stats w).
Definition set_daily_stats (f : gmap string Z -> gmap string Z) (w : world) : world :=
  MkWorld (dbs w) (sync_log w) (conflict_records w) (sync_worker_state w)
    (sync_configs w) (f (daily_stats w)).

(** The business tables of one database and one table of them. *)
Definition db_of (w : world) (db_name : string) : database :=
  default ∅ (dbs w !! db_name).
Definition table_of (w : world) (db_name tbl : string) : table :=
  default ∅ (db_of w db_name !! tbl).
Definition put_table (db_name tbl : string) (t : table) (w : world) : world :=
  set_dbs (fun d => <[db_name := <[tbl := t]> (default ∅ (d !! db_name))]> d) w.

(** *** Code that may raise *)

Inductive res (A : Type) :=
  | Ok (a : A)
  | Raise (e : exc).
Arguments Ok {A} a.
Arguments Raise {A} e.

(** A computation on the databases.  Every [session_scope] commits on its
    own, so the effects made before an exception stay. *)
Definition M (A : Type) : Type := world -> res A * world.

Definition ret {A} (a : A) : M A := fun w => (Ok a, w).
Definition raise {A} (e : exc) : M A := fun w => (Raise e, w).
Definition bind {A B} (m : M A) (k : A -> M B) : M B :=
  fun w => match m w with
           | (Ok a, w') => k a w'
           | (Raise e, w') => (Raise e, w')
           end.
(** [try: m except Exception as e: h e] *)
Definition try_except {A} (m : M A) (h : exc -> M A) : M A :=
  fun w => match m w with
           | (Ok a, w') => (Ok a, w')
           | (Raise e, w') => h e w'
           end.
Definition read {A} (f : world -> A) : M A := fun w => (Ok (f w), w).
Definition write (f : world -> world) : M unit := fun w => (Ok tt, f w).
(** A Python expression that raises when its value is [None] here. *)
Definition lift {A} (o : option A) : M A :=
  match o with Some a => ret a | None => raise OtherException end.

Notation "x <- m ;; k" := (bind m (fun x => k))
  (at level 100, m at next level, right associativity).
Notation "m ;;; k" := (bind m (fun _ => k))
  (at level 100, right associativity).

(** A statement the worker sends to a business table. *)
Inductive stmt :=
  | Upsert (tbl : string) (payload : pydict)
  | Delete (tbl : string) (record_id : Z)
  | UpdateVClock (tbl : string) (record_id : Z) (v : string).

Section Env.
  (** [json.loads] on a [str] ([None]: it raises) and [int] on a [str]
      ([None]: [ValueError]). *)
Context (json_loads : string -> option value).
Context (int_of_str : string -> option Z).
  (** The constraints of the databases (foreign keys, unique keys, ...):
      whether database [db_name], holding the given business tables,
      rejects a statement, and with which exception. *)
Context (fault : string -> database -> stmt -> option exc).

  (** [_parse_json_maybe] *)
Definition _parse_json_maybe (v : value) : value :=
    match v with
    | VNone => VNone
    | VDict _ | VList _ => v
    | VStr s =>
        let s := strip s in
        if String.eqb s EmptyString then VNone
        else match json_loads s with
             | Some parsed => parsed
             | None => VStr s
             end
    | _ => v
    end.

  (** [int(d.get(k, 0) or 0)] *)
Definition int_or_0 (d : pydict) (k : string) : option Z :=
    py_int int_of_str (py_or (get_default d k (VInt 0)) (VInt 0)).

  (** [_parse_vclock]; [None] when one of the [int(...)] raises. *)
Definition _parse_vclock (v : value) : option VClock.t :=
    match _parse_json_maybe v with
    | VDict parsed =>
        match int_or_0 parsed "N", int_or_0 parsed "S" with
        | Some n, Some s => Some (VClock.Mk n s)
        | _, _ => None
        end
    | _ => Some (VClock.Mk 0 0)
    end.

  (** The dict [{"N": n, "S": s}] of a normalised clock. *)
Definition vclock_dict (v : VClock.t) : pydict :=
    <["N" := VInt (VClock.N v)]> (<["S" := VInt (VClock.S v)]> ∅).

  (** [json.dumps(fixed, ensure_ascii=False, separators=(",", ":"))] on a
      normalised clock. *)
Definition dumps_vclock (v : VClock.t) : string :=
    "{" ++ quoted "N" ++ ":" ++ dec (VClock.N v)
    ++ "," ++ quoted "S" ++ ":" ++ dec (VClock.S v) ++ "}".

  (** [_strip_non_semantic_fields] *)
Definition non_semantic : gset string :=
    list_to_set ["updated_at"; "created_at"; "sync_version"].

Definition _strip_non_semantic_fields (payload : value) : value :=
    match payload with
    | VDict d => VDict (filter (fun kv => kv.1 ∉ non_semantic) d)
    | _ => payload
    end.

  (** [_load_cursor]: creates the row with 0 when it is missing. *)
Definition _load_cursor (worker_name : string) : M Z :=
    fun w =>
      match sync_worker_state w !! worker_name with
      | None => (Ok 0, set_sync_worker_state (insert worker_name 0) w)
      | Some last_event_id => (Ok last_event_id, w)
      end.

  (** [_store_cursor] *)
Definition _store_cursor (worker_name : string) (last_log_id : Z) : M unit :=
    write (set_sync_worker_state (insert worker_name last_log_id)).

  (** [ORDER BY log_id ASC] *)
Definition by_log_id (a b : Z * sync_log_row) : Prop := a.1 <= b.1.
#[global] Instance by_log_id_dec (a b : Z * sync_log_row) : Decision (by_log_id a b).
  Proof. unfold by_log_id. apply _. Defined.

  (** [_fetch_edge_logs]: the pending rows after the cursor, in ascending
      [log_id] order, at most [limit] of them.  A negative [LIMIT] is an
      SQL error. *)
Definition _fetch_edge_logs (origin_db : string) (after_log_id : Z) (limit : Z)
      : M (list EdgeLogRow) :=
    fun w =>
      if limit <? 0 then (Raise OtherSQLAlchemyError, w)
      else
        let log := default ∅ (sync_log w !! origin_db) in
        let pending :=
          filter (fun kv => sl_status kv.2 = 0 /\ after_log_id < kv.1) (map_to_list log) in
        let rows := take (Z.to_nat limit) (merge_sort by_log_id pending) in
        (Ok (map (fun kv =>
                    MkEdgeLogRow kv.1 (sl_table_name kv.2) (sl_data_id kv.2)
                      (upper (sl_operation kv.2))
                      (_parse_json_maybe (sl_old_data kv.2))
                      (_parse_json_maybe (sl_new_data kv.2))
                      (sl_occurred_at kv.2)) rows), w).

  (** [_mark_edge_log_processed]: [UPDATE sync_log SET status = 1 WHERE
      log_id = :id]. *)
Definition mark_processed (r : sync_log_row) : sync_log_row :=
    MkSyncLogRow (sl_table_name r) (sl_data_id r) (sl_operation r)
      (sl_old_data r) (sl_new_data r) (sl_occurred_at r) 1.

Definition mark_log (origin_db : string) (id : Z)
      (logs : gmap string (gmap Z sync_log_row)) : gmap string (gmap Z sync_log_row) :=
    match logs !! origin_db with
    | Some log => <[origin_db := alter mark_processed id log]> logs
    | None => logs
    end.

Definition _mark_edge_log_processed (origin_db : string) (id : Z) : M unit :=
    write (set_sync_log (mark_log origin_db id)).

  (** [_select_current_row] and [_select_edge_row]: [SELECT * FROM table
      WHERE id = :id], the row as a dict or [None]. *)
Definition _select_current_row (target_db tbl : string) (record_id : Z)
      : M (option pydict) :=
    read (fun w => table_of w target_db tbl !! record_id).

Definition _select_edge_row (origin_db tbl : string) (record_id : Z)
      : M (option pydict) :=
    read (fun w => table_of w origin_db tbl !! record_id).

  (** [SELECT id FROM tbl WHERE col = :v LIMIT 1]: the least [id] among
      the rows that match. *)
Definition select_id_where (t : table) (col : string) (v : value) : option Z :=
    head (merge_sort Z.le
            (map fst (filter (fun kv => kv.2 !! col = Some v) (map_to_list t)))).

  (** [_map_user_id_by_unique] *)
Definition _map_user_id_by_unique (origin_db target_db : string) (origin_user_id : Z)
      : M (option Z) :=
    origin_user <- _select_edge_row origin_db "users" origin_user_id ;;
    match origin_user with
    | None => ret None
    | Some origin_user =>
        let email := get origin_user "email" in
        let student_id := get origin_user "student_id" in
        let username := get origin_user "username" in
        let candidates :=
          (if truthy email then [("email", email)] else [])
          ++ (if truthy student_id then [("student_id", student_id)] else [])
          ++ (if truthy username then [("username", username)] else []) in
        read (fun w =>
          let users := table_of w target_db "users" in
          head (omap (fun cv => select_id_where users cv.1 cv.2) candidates))
    end.

  (** [_select_profile_id_by_user_id] *)
Definition _select_profile_id_by_user_id (target_db : string) (user_id : Z)
      : M (option Z) :=
    read (fun w =>
      select_id_where (table_of w target_db "user_profiles") "user_id" (VInt user_id)).

  (** [_normalize_payload_for_target] *)
Definition _normalize_payload_for_target (target_db : string) (payload : pydict)
      : pydict :=
    if negb (String.eqb target_db "postgres") then payload
    else
      map_imap (fun key v =>
        Some (match v with
              | VInt z =>
                  if String.prefix "is_" key && ((z =? 0) || (z =? 1))
                  then VBool (negb (z =? 0)) else v
              | _ => v
              end)) payload.

  (** [_json_safe] on the values modelled here. *)
Fixpoint _json_safe (v : value) : value :=
    match v with
    | VDict d => VDict (_json_safe <$> d)
    | VList l => VList (_json_safe <$> l)
    | _ => v
    end.

  (** The effect of [INSERT ... ON CONFLICT (id) DO UPDATE] / [ON DUPLICATE
      KEY UPDATE] on a table: the columns of [payload] overwrite those of
      the row with the same [id], or make a new row.  The statement needs an
      integer [id] and at least one other column (an empty [SET] list is a
      syntax error). *)
Definition apply_upsert (payload : pydict) (t : table) : res table :=
    match payload !! "id" with
    | Some (VInt i) =>
        if bool_decide (dom payload = {["id"]}) then Raise OtherSQLAlchemyError
        else Ok (<[i := payload ∪ default ∅ (t !! i)]> t)
    | _ => Raise OtherSQLAlchemyError
    end.

  (** [_upsert_row] *)
Definition _upsert_row (target_db tbl : string) (payload : pydict) : M unit :=
    let payload := _normalize_payload_for_target target_db payload in
    match payload !! "id" with
    | None => raise OtherException
    | Some _ =>
        fun w =>
          match fault target_db (db_of w target_db) (Upsert tbl payload) with
          | Some e => (Raise e, w)
          | None =>
              match apply_upsert payload (table_of w target_db tbl) with
              | Ok t' => (Ok tt, put_table target_db tbl t' w)
              | Raise e => (Raise e, w)
              end
          end
    end.

  (** [_delete_row] *)
Definition _delete_row (target_db tbl : string) (record_id : Z) : M unit :=
    fun w =>
      match fault target_db (db_of w target_db) (Delete tbl record_id) with
      | Some e => (Raise e, w)
      | None =>
          (Ok tt, put_table target_db tbl (delete record_id (table_of w target_db tbl)) w)
      end.

  (** The [UPDATE tbl SET v_clock = :v WHERE id = :id] of the smart fix. *)
Definition update_v_clock (db_name tbl : string) (record_id : Z) (v : string) : M unit :=
    fun w =>
      match fault db_name (db_of w db_name) (UpdateVClock tbl record_id v) with
      | Some e => (Raise e, w)
      | None =>
          (Ok tt, put_table db_name tbl
                    (alter (insert "v_clock" (VStr v)) record_id (table_of w db_name tbl)) w)
      end.

  (** [_ensure_parent_present] *)
Definition _ensure_parent_present (origin_db target_db parent_table : string)
      (parent_id : Z) : M bool :=
    existing <- _select_current_row target_db parent_table parent_id ;;
    match existing with
    | Some _ => ret true
    | None =>
        parent_payload <- _select_edge_row origin_db parent_table parent_id ;;
        match parent_payload with
        | None => ret false
        | Some parent_payload =>
            try_except
              (_upsert_row target_db parent_table parent_payload ;;; ret true)
              (fun _ => ret false)
        end
    end.

  (** The id an auto-increment key gives the next row. *)
Definition next_id {A} (m : gmap Z A) : Z :=
    1 + map_fold (fun k _ acc => Z.max k acc) 0 m.

  (** [_record_conflict]: the new row of [conflict_records] and its id.
      The e-mail notification is best effort and changes nothing here. *)
Definition _record_conflict (tbl : string) (record_id : Z) (src tgt : string)
      (payload : pydict) : M Z :=
    fun w =>
      let conflict_id := next_id (conflict_records w) in
      let row := MkConflictRecord tbl record_id src tgt
                   (_json_safe (VDict payload)) false "pending" None None in
      (Ok conflict_id, set_conflict_records (insert conflict_id row) w).

  (** [_bump_daily_stat] on today's row. *)
Definition _bump_daily_stat (field : string) : M unit :=
    write (set_daily_stats (fun s => <[field := default 0 (s !! field) + 1]> s)).

  (** *** [_process_edge_row] *)

  (** [row.operation in {"INSERT", "UPDATE"}] *)
Definition is_insert_or_update (op : string) : bool :=
    String.eqb op "INSERT" || String.eqb op "UPDATE".

  (** [x] as a Python object: a dict or [None]. *)
Definition opt_dict (x : option pydict) : value :=
    match x with Some d => VDict d | None => VNone end.

  (** The [payload=] arguments of the two [_record_conflict] calls. *)
Definition delete_conflict_payload (origin_db target_db : string) (row : EdgeLogRow)
      (v_clock current_v : VClock.t) (current : option pydict) : pydict :=
    list_to_map
      [("reason", VStr "vector_clock_conflict_delete");
       ("origin", VStr origin_db);
       ("target", VStr target_db);
       ("table", VStr (table_name row));
       ("record_id", VInt (data_id row));
       ("edge_log_id", VInt (log_id row));
       ("source_v_clock", VDict (vclock_dict v_clock));
       ("target_v_clock", VDict (vclock_dict current_v));
       ("source_old", old_data row);
       ("target_current", opt_dict current)].

Definition update_conflict_payload (origin_db target_db : string) (row : EdgeLogRow)
      (v_clock current_v : VClock.t) (current : option pydict) : pydict :=
    list_to_map
      [("reason", VStr "vector_clock_conflict");
       ("origin", VStr origin_db);
       ("target", VStr target_db);
       ("table", VStr (table_name row));
       ("record_id", VInt (data_id row));
       ("edge_log_id", VInt (log_id row));
       ("operation", VStr (operation row));
       ("source_v_clock", VDict (vclock_dict v_clock));
       ("target_v_clock", VDict (vclock_dict current_v));
       ("source_old", old_data row);
       ("source_new", new_data row);
       ("target_current", opt_dict current)].

  (** Whether the smart fix is needed; [None] when a [_parse_vclock]
      raises. *)
Definition needs_fix (origin_key : VClock.key) (row : EdgeLogRow)
      (v_clock : VClock.t) : option bool :=
    let old_payload := match old_data row with VDict d => Some d | _ => None end in
    let new_payload := match new_data row with VDict d => Some d | _ => None end in
    match old_payload, new_payload with
    | Some old_payload, Some new_payload =>
        match _parse_vclock (get old_payload "v_clock") with
        | None => None
        | Some old_v =>
            match _parse_vclock (get new_payload "v_clock") with
            | None => None
            | Some new_v =>
                Some (bool_decide (old_v = new_v)
                      && negb (bool_decide
                                 (_strip_non_semantic_fields (VDict old_payload)
                                  = _strip_non_semantic_fields (VDict new_payload))))
            end
        end
    | _, _ =>
        if String.eqb (operation row) "INSERT"
        then Some (VClock.component origin_key v_clock <=? 0)
        else Some false
    end.

  (** The smart fix (the [if row.operation in {"INSERT", "UPDATE"}] block):
      the event, [source_payload] and [v_clock] afterwards.  For these
      operations [source_payload] is the dict [row.new_data], so the
      assignment [source_payload["v_clock"] = fixed_text] shows in the
      event as well. *)
Definition smart_fix (origin_db : string) (origin_key : VClock.key)
      (row : EdgeLogRow) (source_payload : pydict) (v_clock : VClock.t)
      : M (EdgeLogRow * pydict * VClock.t) :=
    if is_insert_or_update (operation row) then
      fix_it <- lift (needs_fix origin_key row v_clock) ;;
      if fix_it : bool then
        let fixed :=
          VClock.set_component origin_key
            (VClock.component origin_key v_clock + 1) v_clock in
        let fixed_text := dumps_vclock fixed in
        try_except
          (update_v_clock origin_db (table_name row) (data_id row) fixed_text ;;;
           let source_payload' := <["v_clock" := VStr fixed_text]> source_payload in
           ret (MkEdgeLogRow (log_id row) (table_name row) (data_id row)
                  (operation row) (old_data row) (VDict source_payload')
                  (occurred_at row),
                source_payload', fixed))
          (fun e =>
             if is_SQLAlchemyError e then ret (row, source_payload, v_clock)
             else raise e)
      else ret (row, source_payload, v_clock)
    else ret (row, source_payload, v_clock).

  (** The body of the [try] for one target. *)
Definition replicate_to (origin_db : string) (row : EdgeLogRow)
      (source_payload : pydict) (v_clock : VClock.t) (target_db : string) : M unit :=
    current <- _select_current_row target_db (table_name row) (data_id row) ;;
    current_v <- lift (_parse_vclock (get (default ∅ current) "v_clock")) ;;
    let overwrite :=
      bool_decide (current = None)
      || VClock._vclock_dominates v_clock current_v
      || bool_decide (v_clock = current_v) in
    if String.eqb (operation row) "DELETE" then
      if overwrite then
        _delete_row target_db (table_name row) (data_id row) ;;;
        _bump_daily_stat "sync_success_count"
      else if VClock._vclock_concurrent v_clock current_v then
        _record_conflict (table_name row) (data_id row) origin_db target_db
          (delete_conflict_payload origin_db target_db row v_clock current_v current) ;;;
        _bump_daily_stat "sync_conflict_count"
      else ret tt
    else
      if overwrite then
        _upsert_row target_db (table_name row) source_payload ;;;
        _bump_daily_stat "sync_success_count"
      else if VClock._vclock_dominates current_v v_clock then ret tt
      else
        _record_conflict (table_name row) (data_id row) origin_db target_db
          (update_conflict_payload origin_db target_db row v_clock current_v current) ;;;
        _bump_daily_stat "sync_conflict_count".

  (** How the handling of one target ends: [continue], or [return
      False]. *)
Inductive flow := Continue | ReturnFalse.

  (** [try: _upsert_row(...); _bump_daily_stat("sync_success_count")]
      with the exception it raised, if any. *)
Definition retry_upsert (target_db tbl : string) (patched : pydict) : M (option exc) :=
    try_except
      (_upsert_row target_db tbl patched ;;;
       _bump_daily_stat "sync_success_count" ;;; ret None)
      (fun e => ret (Some e)).

  (** The repair branches of the [except Exception as exc] block.  Each
      one ends the handling of the target ([inl]) or falls through to the
      next with the exception now bound to [exc] ([inr]). *)

  (** Postgres target, [user_profiles], foreign key missing. *)
Definition repair_pg_profile_fk (origin_db target_db : string) (row : EdgeLogRow)
      (source_payload : pydict) (e : exc) : M (flow + exc) :=
    if String.eqb target_db "postgres" && String.eqb (table_name row) "user_profiles"
       && is_insert_or_update (operation row) && _is_postgres_fk_missing e
    then
      match get source_payload "user_id" with
      | VNone => ret (inr e)
      | parent_id =>
          parent_id <- lift (py_int int_of_str parent_id) ;;
          mapped <- _map_user_id_by_unique origin_db target_db parent_id ;;
          match mapped with
          | None => ret (inr e)
          | Some mapped =>
              let patched_profile := <["user_id" := VInt mapped]> source_payload in
              r <- retry_upsert target_db (table_name row) patched_profile ;;
              match r with
              | None => ret (inl Continue)
              | Some exc2 => ret (inr exc2)
              end
          end
      end
    else ret (inr e).

  (** Postgres target, [user_profiles], unique violation. *)
Definition repair_pg_profile_unique (origin_db target_db : string) (row : EdgeLogRow)
      (source_payload : pydict) (e : exc) : M (flow + exc) :=
    if String.eqb target_db "postgres" && String.eqb (table_name row) "user_profiles"
       && is_insert_or_update (operation row) && _is_postgres_unique_violation e
    then
      match get source_payload "user_id" with
      | VNone => ret (inr e)
      | raw_uid =>
          uid <- lift (py_int int_of_str raw_uid) ;;
          user <- _select_current_row target_db "users" uid ;;
          uid <- match user with
                 | Some _ => ret uid
                 | None =>
                     mapped_uid <- _map_user_id_by_unique origin_db target_db uid ;;
                     ret (default uid mapped_uid)
                 end ;;
          existing_profile_id <- _select_profile_id_by_user_id target_db uid ;;
          match existing_profile_id with
          | None => ret (inr e)
          | Some existing_profile_id =>
              let patched_profile :=
                <["id" := VInt existing_profile_id]>
                  (<["user_id" := VInt uid]> source_payload) in
              r <- retry_upsert target_db (table_name row) patched_profile ;;
              match r with
              | None => ret (inl Continue)
              | Some _ => ret (inl ReturnFalse)
              end
          end
      end
    else ret (inr e).

  (** Postgres target, [users], unique violation. *)
Definition repair_pg_user_unique (origin_db target_db : string) (row : EdgeLogRow)
      (source_payload : pydict) (e : exc) : M (flow + exc) :=
    if String.eqb target_db "postgres" && String.eqb (table_name row) "users"
       && is_insert_or_update (operation row) && _is_postgres_unique_violation e
    then
      mapped <- _map_user_id_by_unique origin_db target_db (data_id row) ;;
      match mapped with
      | None => ret (inr e)
      | Some mapped =>
          let patched_user := <["id" := VInt mapped]> source_payload in
          r <- retry_upsert target_db (table_name row) patched_user ;;
          match r with
          | None => ret (inl Continue)
          | Some _ => ret (inl ReturnFalse)
          end
      end
    else ret (inr e).

  (** MySQL/MariaDB target, foreign key missing, table [items]. *)
Definition repair_my_item_fk (origin_db target_db : string) (row : EdgeLogRow)
      (source_payload : pydict) (e : exc) : M (flow + exc) :=
    if String.eqb (table_name row) "items" then
      match get source_payload "seller_id" with
      | VNone => ret (inr e)
      | seller_id =>
          seller_id <- lift (py_int int_of_str seller_id) ;;
          mapped <- _map_user_id_by_unique origin_db target_db seller_id ;;
          match mapped with
          | None => ret (inr e)
          | Some mapped =>
              let patched_item := <["seller_id" := VInt mapped]> source_payload in
              r <- retry_upsert target_db (table_name row) patched_item ;;
              match r with
              | None => ret (inl Continue)
              | Some _ => ret (inl ReturnFalse)
              end
          end
      end
    else ret (inr e).

  (** MySQL/MariaDB target, foreign key missing, table [user_profiles]. *)
Definition repair_my_profile_fk (origin_db target_db : string) (row : EdgeLogRow)
      (source_payload : pydict) (e : exc) : M (flow + exc) :=
    if String.eqb (table_name row) "user_profiles" then
      match get source_payload "user_id" with
      | VNone => ret (inr e)
      | parent_id =>
          parent_id <- lift (py_int int_of_str parent_id) ;;
          present <- _ensure_parent_present origin_db target_db "users" parent_id ;;
          r <- (if present : bool
                then retry_upsert target_db (table_name row) source_payload
                else ret (Some e)) ;;
          match r with
          | None => ret (inl Continue)
          | Some exc2 =>
              mapped <- _map_user_id_by_unique origin_db target_db parent_id ;;
              match mapped with
              | None => ret (inr exc2)
              | Some mapped =>
                  let patched := <["user_id" := VInt mapped]> source_payload in
                  r <- retry_upsert target_db (table_name row) patched ;;
                  match r with
                  | None => ret (inl Continue)
                  | Some _ => ret (inl ReturnFalse)
                  end
              end
          end
      end
    else ret (inr e).

  (** Run a repair branch unless an earlier one has ended the handling. *)
Definition then_repair (m : M (flow + exc)) (next : exc -> M (flow + exc))
      : M (flow + exc) :=
    r <- m ;;
    match r with
    | inl f => ret (inl f)
    | inr e => next e
    end.

  (** The [except Exception as exc] block for one target. *)
Definition handle_replication_error (origin_db target_db : string) (row : EdgeLogRow)
      (source_payload : pydict) (e : exc) : M flow :=
    r <- then_repair
           (then_repair
              (then_repair
                 (repair_pg_profile_fk origin_db target_db row source_payload e)
                 (repair_pg_profile_unique origin_db target_db row source_payload))
              (repair_pg_user_unique origin_db target_db row source_payload))
           (fun e =>
              if _is_mysql_fk_missing e && is_insert_or_update (operation row) then
                then_repair
                  (repair_my_item_fk origin_db target_db row source_payload e)
                  (repair_my_profile_fk origin_db target_db row source_payload)
              else ret (inr e)) ;;
    match r with
    | inl f => ret f
    | inr _ => ret ReturnFalse
    end.

  (** The [for target_db in targets] loop: [true] when it ran to its end,
      [false] on [return False]. *)
Fixpoint replicate_all (origin_db : string) (row : EdgeLogRow)
      (source_payload : pydict) (v_clock : VClock.t) (targets : list string) : M bool :=
    match targets with
    | [] => ret true
    | target_db :: targets' =>
        if String.eqb target_db origin_db
        then replicate_all origin_db row source_payload v_clock targets'
        else
          f <- try_except
                 (replicate_to origin_db row source_payload v_clock target_db ;;;
                  ret Continue)
                 (handle_replication_error origin_db target_db row source_payload) ;;
          match f with
          | Continue => replicate_all origin_db row source_payload v_clock targets'
          | ReturnFalse => ret false
          end
    end.

  (** [isinstance(x, dict)] *)
Definition is_dict (v : value) : bool :=
    match v with VDict _ => true | _ => false end.

  (** The snapshot an event replicates: [row.new_data if row.operation in
      {"INSERT", "UPDATE"} else row.old_data]. *)
Definition source_snapshot (row : EdgeLogRow) : value :=
    if is_insert_or_update (operation row) then new_data row else old_data row.

  (** [_process_edge_row] *)
Definition _process_edge_row (origin_db : string) (origin_key : VClock.key)
      (row : EdgeLogRow) (targets : list string) : M bool :=
    if negb (bool_decide (table_name row ∈ TRACKED_TABLES)) then
      _mark_edge_log_processed origin_db (log_id row) ;;; ret true
    else
      match source_snapshot row with
      | VDict source_payload =>
          v_clock <- lift (_parse_vclock (get source_payload "v_clock")) ;;
          fixed <- smart_fix origin_db origin_key row source_payload v_clock ;;
          let '(row, source_payload, v_clock) := fixed in
          ok <- replicate_all origin_db row source_payload v_clock targets ;;
          if ok : bool then
            _mark_edge_log_processed origin_db (log_id row) ;;; ret true
          else ret false
      | _ =>
          _mark_edge_log_processed origin_db (log_id row) ;;; ret true
      end.

  (** *** The main loop *)

  (** [_resolve_targets] *)
Definition _resolve_targets (origin mode_ : string) : M (list string) :=
    read (fun w =>
      map (fun kv => target kv.2)
        (filter (fun kv => enabled kv.2 = true /\ source kv.2 = origin
                           /\ mode kv.2 = mode_ /\ target kv.2 <> origin)
           (map_to_list (sync_configs w)))).

  (** [_load_manual_trigger_counter] *)
Definition _load_manual_trigger_counter : M Z :=
    read (fun w => default 0 (sync_worker_state w !! "manual_trigger")).

  (** The order of [sorted] on strings and on config ids. *)
Definition str_le (a b : string) : Prop := String.leb a b = true.
#[global] Instance str_le_dec (a b : string) : Decision (str_le a b).
  Proof. unfold str_le. apply _. Defined.

Definition by_config_id (a b : Z * SyncConfig) : Prop := a.1 <= b.1.
#[global] Instance by_config_id_dec (a b : Z * SyncConfig) : Decision (by_config_id a b).
  Proof. unfold by_config_id. apply _. Defined.

  (** [str(cfg.mode or "realtime")] and [int(cfg.interval_seconds or
      300)] *)
Definition mode_of (cfg : SyncConfig) : string :=
    if String.eqb (mode cfg) EmptyString then "realtime" else mode cfg.
Definition interval_of (cfg : SyncConfig) : Z :=
    if interval_seconds cfg =? 0 then 300 else interval_seconds cfg.

  (** [due = last is None or (now - last).total_seconds() >=
      float(interval)], with times in microseconds. *)
Definition is_due (now : Z) (cfg : SyncConfig) : bool :=
    match last_run_at cfg with
    | None => true
    | Some last => now - last >=? interval_of cfg * 1000000
    end.

  (** The rows the query of [_resolve_targets_and_due_scheduled] selects,
      by ascending id. *)
Definition enabled_links (origin : string) (w : world) : list (Z * SyncConfig) :=
    merge_sort by_config_id
      (filter (fun kv => enabled kv.2 = true /\ source kv.2 = origin
                         /\ target kv.2 <> origin)
         (map_to_list (sync_configs w))).

  (** The [for cfg in configs] loop: the set [targets] and the list
      [scheduled_ids]. *)
Fixpoint resolve_loop (force_scheduled : bool) (now : Z)
      (configs : list (Z * SyncConfig)) (targets : gset string) (scheduled_ids : list Z)
      : gset string * list Z :=
    match configs with
    | [] => (targets, scheduled_ids)
    | (id, cfg) :: configs' =>
        if String.eqb (mode_of cfg) "realtime" then
          resolve_loop force_scheduled now configs' ({[target cfg]} ∪ targets) scheduled_ids
        else if negb (String.eqb (mode_of cfg) "scheduled") then
          resolve_loop force_scheduled now configs' targets scheduled_ids
        else if force_scheduled || is_due now cfg then
          resolve_loop force_scheduled now configs' ({[target cfg]} ∪ targets)
            (scheduled_ids ++ [id])
        else resolve_loop force_scheduled now configs' targets scheduled_ids
    end.

  (** [_resolve_targets_and_due_scheduled]; [now] is the value of
      [_utc_now()]. *)
Definition _resolve_targets_and_due_scheduled (origin : string)
      (force_scheduled : bool) (now : Z) : M (list string * list Z) :=
    read (fun w =>
      let '(targets, scheduled_ids) :=
        resolve_loop force_scheduled now (enabled_links origin w) ∅ [] in
      (merge_sort str_le (elements targets), scheduled_ids)).

  (** [_touch_scheduled_last_run]; [now] is the value of [_utc_now()]. *)
Definition touch (now : Z) (cfg : SyncConfig) : SyncConfig :=
    MkSyncConfig (source cfg) (target cfg) (mode cfg) (interval_seconds cfg)
      (enabled cfg) (Some now).

Definition _touch_scheduled_last_run (config_ids : list Z) (now : Z) : M unit :=
    match config_ids with
    | [] => ret tt
    | _ =>
        write (set_sync_configs (fun cfgs =>
          map_imap (fun id cfg =>
            Some (if bool_decide (id ∈ config_ids) then touch now cfg else cfg)) cfgs))
    end.

  (** The [for row in rows] loop of [run_forever]: the final
      [max_committed]. *)
Fixpoint process_rows (origin_db : string) (origin_key : VClock.key)
      (targets : list string) (rows : list EdgeLogRow) (max_committed : Z) : M Z :=
    match rows with
    | [] => ret max_committed
    | row :: rows' =>
        ok <- _process_edge_row origin_db origin_key row targets ;;
        if ok : bool then
          process_rows origin_db origin_key targets rows'
            (Z.max max_committed (log_id row))
        else ret max_committed
    end.

  (** The name of an origin's cursor: [f"edge_sync_log:{origin_db}"]. *)
Definition cursor_name (origin_db : string) : string :=
    "edge_sync_log:" ++ origin_db.

  (** The body of [for origin_db, origin_key in EDGE_ORIGINS.items()]:
      whether it set [progressed].  [now_resolve] and [now_touch] are the
      two readings of [_utc_now()]. *)
Definition origin_round (batch_size : Z) (force_scheduled : bool)
      (now_resolve now_touch : Z) (origin_db : string) (origin_key : VClock.key)
      : M bool :=
    last <- _load_cursor (cursor_name origin_db) ;;
    resolved <- _resolve_targets_and_due_scheduled origin_db force_scheduled now_resolve ;;
    let '(targets, scheduled_ids) := resolved in
    match targets with
    | [] => ret false
    | _ =>
        rows <- _fetch_edge_logs origin_db last batch_size ;;
        match rows with
        | [] => _touch_scheduled_last_run scheduled_ids now_touch ;;; ret false
        | _ =>
            max_committed <- process_rows origin_db origin_key targets rows last ;;
            _store_cursor (cursor_name origin_db) max_committed ;;;
            _touch_scheduled_last_run scheduled_ids now_touch ;;;
            ret true
        end
    end.

  (** The readings of [_utc_now()] in one pass of the [while] loop, for
      each origin. *)
Record round_clock := MkRoundClock {
    resolve_at : string -> Z;
    touch_at : string -> Z
  }.

Fixpoint origins_loop (batch_size : Z) (force_scheduled : bool) (clk : round_clock)
      (origins : list (string * VClock.key)) (progressed : bool) : M bool :=
    match origins with
    | [] => ret progressed
    | (origin_db, origin_key) :: origins' =>
        p <- origin_round batch_size force_scheduled (resolve_at clk origin_db)
               (touch_at clk origin_db) origin_db origin_key ;;
        origins_loop batch_size force_scheduled clk origins' (p || progressed)
    end.

  (** One pass of the [while not STOP_EVENT.is_set()] loop of
      [run_forever]: the new [last_manual_counter] and [progressed]. *)
Definition round (batch_size : Z) (clk : round_clock) (last_manual_counter : Z)
      : M (Z * bool) :=
    manual_counter <- _load_manual_trigger_counter ;;
    let force_scheduled := manual_counter >? last_manual_counter in
    let last_manual_counter :=
      if force_scheduled then manual_counter else last_manual_counter in
    progressed <- origins_loop batch_size force_scheduled clk EDGE_ORIGINS false ;;
    ret (last_manual_counter, progressed).

  (** [_ensure_sync_configs]: the baseline topology, keyed by (source,
      target, mode). *)
Definition desired : list (string * string * string * Z * bool) :=
    [("mariadb", "mysql", "realtime", 30, true);
     ("postgres", "mysql", "realtime", 30, true);
     ("mariadb", "postgres", "realtime", 30, true);
     ("postgres", "mariadb", "realtime", 30, true)].

  (** The id of a row with the given key, as [by_key] finds it: when
      several rows share a key the dict comprehension keeps the last one. *)
Definition find_config (cfgs : gmap Z SyncConfig) (src tgt md : string) : option Z :=
    last (map fst
            (filter (fun kv => source kv.2 = src /\ target kv.2 = tgt
                               /\ mode_of kv.2 = md)
               (merge_sort by_config_id (map_to_list cfgs)))).

Definition ensure_one (rows : gmap Z SyncConfig)
      (d : string * string * string * Z * bool) (cfgs : gmap Z SyncConfig)
      : gmap Z SyncConfig :=
    let '(src, tgt, md, interval, en) := d in
    match find_config rows src tgt md with
    | None =>
        <[next_id cfgs := MkSyncConfig src tgt md interval en None]> cfgs
    | Some id =>
        alter (fun existing =>
                 MkSyncConfig (source existing) (target existing) (mode existing)
                   interval en (last_run_at existing)) id cfgs
    end.

Definition _ensure_sync_configs : M unit :=
    write (fun w =>
      set_sync_configs (fun cfgs =>
        foldl (fun acc d => ensure_one (sync_configs w) d acc) cfgs desired) w).
End Env.

(** *** Notions the statements about the worker use *)

(** [keeps R m]: every run of [m] takes a world to an [R]-related one,
    whether it returns or raises. *)
Definition keeps {A} (R : world -> world -> Prop) (m : M A) : Prop :=
  forall w, R w (snd (m w)).

(** The hub tables and the change logs are as before. *)
Definition same_hub (w w' : world) : Prop :=
  sync_worker_state w' = sync_worker_state w
  /\ sync_configs w' = sync_configs w
  /\ sync_log w' = sync_log w.

(** The business tables and the conflicts are as before. *)
Definition same_data (w w' : world) : Prop :=
  dbs w' = dbs w /\ conflict_records w' = conflict_records w
  /\ daily_stats w' = daily_stats w.

(** [current is None or _vclock_dominates(v_clock, current_v) or v_clock
    == current_v] *)
Definition may_overwrite (current : option pydict) (v_clock current_v : VClock.t)
    : bool :=
  bool_decide (current = None)
  || VClock._vclock_dominates v_clock current_v
  || bool_decide (v_clock = current_v).

(** The world after [_record_conflict] and the bump of
    [sync_conflict_count]. *)
Definition with_conflict (tbl : string) (record_id : Z) (src tgt : string)
    (payload : pydict) (w : world) : world :=
  set_daily_stats
    (fun s => <["sync_conflict_count" := default 0 (s !! "sync_conflict_count") + 1]> s)
    (set_conflict_records
       (insert (next_id (conflict_records w))
          (MkConflictRecord tbl record_id src tgt (_json_safe (VDict payload))
             false "pending" None None)) w).

(** The world after the bump of [sync_success_count]. *)
Definition with_success (w : world) : world :=
  set_daily_stats
    (fun s => <["sync_success_count" := default 0 (s !! "sync_success_count") + 1]> s) w.

(** The clock after the smart fix: the origin's component plus one. *)
Definition bumped (k : VClock.key) (v : VClock.t) : VClock.t :=
  VClock.set_component k (VClock.component k v + 1) v.

Definition other_key (k : VClock.key) : VClock.key :=
  match k with VClock.KN => VClock.KS | VClock.KS => VClock.KN end.

(** The event after the smart fix: [new_data] is the patched dict. *)
Definition fixed_row (row : EdgeLogRow) (p' : pydict) : EdgeLogRow :=
  MkEdgeLogRow (log_id row) (table_name row) (data_id row) (operation row)
    (old_data row) (VDict p') (occurred_at row).

(** The persisted cursor of an origin, as [_load_cursor] reads it. *)
Definition cursor_value (origin_db : string) (w : world) : Z :=
  default 0 (sync_worker_state w !! cursor_name origin_db).

(** A log entry of an origin that is still to be processed. *)
Definition pending (origin_db : string) (w : world) (id : Z) : Prop :=
  exists log entry,
    sync_log w !! origin_db = Some log /\ log !! id = Some entry
    /\ sl_status entry = 0.

(** Events by strictly ascending [log_id]. *)
Definition ascending (rows : list EdgeLogRow) : Prop :=
  StronglySorted (fun a b => log_id a < log_id b) rows.

(** The change logs after the entries of [done] have been marked. *)
Definition mark_all (origin_db : string) (done : list EdgeLogRow)
    (logs : gmap string (gmap Z sync_log_row)) : gmap string (gmap Z sync_log_row) :=
  foldl (fun logs row => mark_log origin_db (log_id row) logs) logs done.

(** [max_committed] after the rows of [done]: the id of the last one, or
    the cursor the batch started from. *)
Definition last_committed (cursor : Z) (done : list EdgeLogRow) : Z :=
  default cursor (last (map log_id done)).

(** A link the worker considers for an origin. *)
Definition link_of (origin : string) (w : world) (id : Z) (cfg : SyncConfig) : Prop :=
  sync_configs w !! id = Some cfg /\ enabled cfg = true /\ source cfg = origin
  /\ target cfg <> origin.

(** A scheduled link that runs in this round. *)
Definition runs_scheduled (force_scheduled : bool) (now : Z) (cfg : SyncConfig) : Prop :=
  mode_of cfg = "scheduled" /\ (force_scheduled = true \/ is_due now cfg = true).

(** What [_ensure_sync_configs] keeps of a row: its key, its last run, and
    either all of it or the baseline values of the two other columns. *)
Definition kept_config (cfg cfg' : SyncConfig) : Prop :=
  source cfg' = source cfg /\ target cfg' = target cfg /\ mode cfg' = mode cfg
  /\ last_run_at cfg' = last_run_at cfg
  /\ (cfg' = cfg \/ (interval_seconds cfg' = 30 /\ enabled cfg' = true)).

(** A row that provides a link of the baseline. *)
Definition provides (cfgs : gmap Z SyncConfig)
    (d : string * string * string * Z * bool) : Prop :=
  exists id cfg, cfgs !! id = Some cfg /\ source cfg = d.1.1.1.1
                 /\ target cfg = d.1.1.1.2 /\ mode_of cfg = d.1.1.2
                 /\ interval_seconds cfg = 30 /\ enabled cfg = true.

(** Only the business tables of the databases in [touched] may differ. *)
Definition only_dbs (touched : string -> Prop) (w w' : world) : Prop :=
  forall db, ~ touched db -> dbs w' !! db = dbs w !! db.

Section Steps.
Context (json_loads : string -> option value).
Context (int_of_str : string -> option Z).
Context (fault : string -> database -> stmt -> option exc).

Local Abbreviation round := (round json_loads int_of_str fault).

(** What happens between the rounds of a worker: a pass of its main loop
    (normal or cut short by an exception, after any restart), or a step of
    another component, which may change anything but the cursors. *)
Inductive worker_steps : world -> world -> Prop :=
  | steps_done (w : world) : worker_steps w w
  | steps_round (w w' : world) (batch_size : Z) (clk : round_clock) (lmc : Z) :
      worker_steps (snd (round batch_size clk lmc w)) w' -> worker_steps w w'
  | steps_other (w w1 w' : world) :
      (forall o, sync_worker_state w1 !! cursor_name o
                 = sync_worker_state w !! cursor_name o) ->
      worker_steps w1 w' -> worker_steps w w'.
End Steps.

End Worker.

(** ** Conflict resolution ([apps/api_gateway/routers/sync_api.py]) *)

Module SyncApi.
Import Py.
Local Open Scope Z_scope.

(** [_SUPPORTED_DBS], as [sorted(_SUPPORTED_DBS)] lists it. *)
Definition _SUPPORTED_DBS : list string := ["mariadb"; "mysql"; "postgres"].

(** [_SAFE_TABLE_RE.match]: [^[A-Za-z0-9_]+(\.[A-Za-z0-9_]+)?$]; the [$]
    also matches before a final newline. *)
Definition is_word_char (c : ascii) : bool :=
  let n := nat_of_ascii c in
  (((48 <=? n) && (n <=? 57)) || ((65 <=? n) && (n <=? 90))
   || ((97 <=? n) && (n <=? 122)) || (n =? 95))%nat.

Fixpoint skip_word (s : string) : string :=
  match s with
  | String c s' => if is_word_char c then skip_word s' else s
  | EmptyString => EmptyString
  end.

Definition starts_with_word (s : string) : bool :=
  match s with
  | String c _ => is_word_char c
  | EmptyString => false
  end.

Definition at_end (s : string) : bool :=
  String.eqb s EmptyString || String.eqb s (String (ascii_of_nat 10) EmptyString).

Definition safe_table_re_match (s : string) : bool :=
  starts_with_word s
  && (let rest := skip_word s in
      at_end rest
      || match rest with
         | String c rest' =>
             (nat_of_ascii c =? 46)%nat && starts_with_word rest'
             && at_end (skip_word rest')
         | EmptyString => false
         end).

(** A string without the separator of the signature. *)
Fixpoint bar_free (s : string) : bool :=
  match s with
  | EmptyString => true
  | String c s' => negb (nat_of_ascii c =? 124)%nat && bar_free s'
  end.

(** An [HTTPException], by its status code. *)
Inductive http_error := HTTPException (status_code : Z).

(** [_validate_table_name] *)
Definition _validate_table_name (tbl : string) : http_error + string :=
  if String.eqb tbl EmptyString || negb (safe_table_re_match tbl)
  then inl (HTTPException 400) else inr tbl.

(** The operator's choice. *)
Inductive strategy := Source | Target | Manual.

Definition strategy_name (s : strategy) : string :=
  match s with Source => "source" | Target => "target" | Manual => "manual" end.

Section Env.
  (** [json.loads] and [int] on a [str], and [str] on a list or a dict. *)
Context (json_loads : string -> option value).
Context (int_of_str : string -> option Z).
Context (repr_container : value -> string).

  (** [str(x)] *)
Definition py_str (v : value) : string :=
    match v with
    | VStr s => s
    | VInt z => dec z
    | VBool true => "True"
    | VBool false => "False"
    | VNone => "None"
    | _ => repr_container v
    end.

  (** [_parse_json_field] *)
Definition _parse_json_field (v : value) : value :=
    if negb (truthy v) then VDict ∅
    else match v with
         | VDict _ => v
         | VStr s => default (VDict ∅) (json_loads s)
         | _ => VDict ∅
         end.

  (** [_parse_vclock_maybe] *)
Definition _parse_vclock_maybe (v : value) : option VClock.t :=
    let parsed :=
      match v with
      | VStr s =>
          let s := strip s in
          if String.eqb s EmptyString then None else json_loads s
      | _ => Some v
      end in
    match parsed with
    | Some (VDict d) =>
        match Worker.int_or_0 int_of_str d "N", Worker.int_or_0 int_of_str d "S" with
        | Some n, Some s => Some (VClock.Mk n s)
        | _, _ => None
        end
    | _ => None
    end.

  (** [_vc_key]: [json.dumps({"N": n, "S": s}, sort_keys=True)], or the
      empty string. *)
Definition _vc_key (vc : option VClock.t) : string :=
    match vc with
    | None => EmptyString
    | Some vc =>
        "{" ++ quoted "N" ++ ": " ++ dec (VClock.N vc)
        ++ ", " ++ quoted "S" ++ ": " ++ dec (VClock.S vc) ++ "}"
    end.

  (** [sorted([a, b])] *)
Definition sorted2 (a b : string) : string * string :=
    if String.ltb b a then (b, a) else (a, b).

  (** The clock of one side: [_parse_vclock_maybe(state.get("v_clock"))]
      when the state is a dict. *)
Definition state_vc (state : value) : option VClock.t :=
    match state with
    | VDict d => _parse_vclock_maybe (get d "v_clock")
    | _ => None
    end.

  (** The two sides of a conflict payload: [raw_payload.get("source_new")
      or raw_payload.get("source_old") or {}] and
      [raw_payload.get("target_current") or {}]. *)
Definition source_state (raw_payload : pydict) : value :=
    py_or (get raw_payload "source_new")
      (py_or (get raw_payload "source_old") (VDict ∅)).
Definition target_state (raw_payload : pydict) : value :=
    py_or (get raw_payload "target_current") (VDict ∅).

  (** [_conflict_signature] *)
Definition _conflict_signature (tbl : string) (record_id : Z) (raw_payload : value)
      : string :=
    let raw_payload := match raw_payload with VDict d => d | _ => ∅ end in
    let reason := py_str (py_or (get raw_payload "reason") (VStr "unknown")) in
    let a := _vc_key (state_vc (source_state raw_payload)) in
    let b := _vc_key (state_vc (target_state raw_payload)) in
    let '(lo, hi) := sorted2 a b in
    tbl ++ "|" ++ dec record_id ++ "|" ++ reason ++ "|" ++ lo ++ "|" ++ hi.

  (** The signature of a stored record. *)
Definition signature_of (r : Worker.ConflictRecord) : string :=
    _conflict_signature (Worker.cr_table_name r) (Worker.cr_record_id r)
      (_parse_json_field (Worker.cr_payload r)).

  (** [_ensure_fk_dependencies] followed by [_upsert_row_by_id] for one
      target of the winning row: the business tables afterwards, or the
      [IntegrityError]. *)
Context (sync_winner_to :
             string -> string -> string -> pydict ->
             gmap string Worker.database -> option (gmap string Worker.database)).

  (** The [for db_name in sorted(_SUPPORTED_DBS)] loop; an
      [IntegrityError] becomes a 400. *)
Fixpoint sync_winner (winner_db : string) (tbl : string) (winner_record : pydict)
      (targets : list string) (d : gmap string Worker.database) (synced_to : list string)
      : (http_error + list string) * gmap string Worker.database :=
    match targets with
    | [] => (inr synced_to, d)
    | db_name :: targets' =>
        if String.eqb db_name winner_db
        then sync_winner winner_db tbl winner_record targets' d synced_to
        else match sync_winner_to winner_db db_name tbl winner_record d with
             | Some d' =>
                 sync_winner winner_db tbl winner_record targets' d'
                   (synced_to ++ [db_name])
             | None => (inl (HTTPException 400), d)
             end
    end.

  (** What the [UPDATE conflict_records SET resolved = 1, status =
      'resolved', ...] statements set. *)
Definition mark_resolved (resolved_by : option Z) (note : strategy)
      (r : Worker.ConflictRecord) : Worker.ConflictRecord :=
    Worker.MkConflictRecord (Worker.cr_table_name r) (Worker.cr_record_id r)
      (Worker.cr_source r) (Worker.cr_target r) (Worker.cr_payload r)
      true "resolved" (Some (strategy_name note)) resolved_by.

  (** The rows of the [SELECT ... WHERE table_name = :table_name AND
      record_id = :record_id FOR UPDATE]. *)
Definition group_rows (tbl : string) (record_id : Z)
      (records : gmap Z Worker.ConflictRecord) : list (Z * Worker.ConflictRecord) :=
    filter (fun kv => Worker.cr_table_name kv.2 = tbl
                      /\ Worker.cr_record_id kv.2 = record_id)
      (map_to_list records).

  (** The result dict of a resolution. *)
Record resolution := MkResolution {
    winner_db : option string;
    synced_to : list string;
    record_missing : bool;
    fallback_used : bool
  }.

  (** [_resolve_conflict_and_replicate].  The updates of
      [conflict_records] are committed at the end, so an error leaves that
      table as it was. *)
Definition _resolve_conflict_and_replicate (conflict_id : Z) (strat : strategy)
      (resolved_by : option Z) (w : Worker.world)
      : (http_error + resolution) * Worker.world :=
    match Worker.conflict_records w !! conflict_id with
    | None => (inl (HTTPException 404), w)
    | Some conflict_row =>
        if Worker.cr_resolved conflict_row then (inl (HTTPException 400), w)
        else
          match _validate_table_name (Worker.cr_table_name conflict_row) with
          | inl e => (inl e, w)
          | inr tbl =>
              let record_id := Worker.cr_record_id conflict_row in
              let source_db := Worker.cr_source conflict_row in
              let target_db := Worker.cr_target conflict_row in
              let raw_payload := _parse_json_field (Worker.cr_payload conflict_row) in
              let signature := _conflict_signature tbl record_id raw_payload in
              let group := group_rows tbl record_id (Worker.conflict_records w) in
              let same_sig (kv : Z * Worker.ConflictRecord) : bool :=
                String.eqb
                  (_conflict_signature tbl record_id
                     (_parse_json_field (Worker.cr_payload kv.2)))
                  signature in
              if existsb (fun kv => negb (kv.1 =? conflict_id)
                                    && Worker.cr_resolved kv.2 && same_sig kv) group
              then (inl (HTTPException 409), w)
              else if negb (bool_decide (source_db ∈ _SUPPORTED_DBS))
                      || negb (bool_decide (target_db ∈ _SUPPORTED_DBS))
              then (inl (HTTPException 400), w)
              else
                let winner :=
                  match strat with
                  | Source => Some source_db
                  | Target => Some target_db
                  | Manual => None
                  end in
                (* the winning row, with the fall-back to the other side *)
                let found :=
                  match winner with
                  | None => (None, false, false)
                  | Some winner_db =>
                      match Worker.table_of w winner_db tbl !! record_id with
                      | Some winner_record =>
                          (Some (winner_db, winner_record), false, false)
                      | None =>
                          let other_db :=
                            if String.eqb winner_db source_db
                            then target_db else source_db in
                          match Worker.table_of w other_db tbl !! record_id with
                          | Some winner_record =>
                              (Some (other_db, winner_record), true, false)
                          | None => (None, false, true)
                          end
                      end
                  end in
                let '(win, fallback, missing) := found in
                let '(synced, d') :=
                  match win with
                  | Some (winner_db, winner_record) =>
                      sync_winner winner_db tbl winner_record _SUPPORTED_DBS
                        (Worker.dbs w) []
                  | None => (inr [], Worker.dbs w)
                  end in
                let w1 := Worker.set_dbs (fun _ => d') w in
                match synced with
                | inl e => (inl e, w1)
                | inr synced =>
                    let duplicate_ids :=
                      map fst
                        (filter (fun kv => negb (kv.1 =? conflict_id)
                                           && negb (Worker.cr_resolved kv.2)
                                           && same_sig kv = true) group) in
                    let w2 :=
                      Worker.set_conflict_records (fun records =>
                        let records :=
                          alter (mark_resolved resolved_by strat) conflict_id records in
                        map_imap (fun id r =>
                          Some (if bool_decide (id ∈ duplicate_ids)
                                   && negb (Worker.cr_resolved r)
                                then mark_resolved resolved_by strat r else r))
                          records) w1 in
                    (inr (MkResolution (fst <$> win) synced missing fallback), w2)
                end
          end
    end.
End Env.

(** The dict a payload is read as. *)
Definition payload_dict (raw_payload : value) : pydict :=
  match raw_payload with VDict d => d | _ => ∅ end.

(** *** The endpoints that write what the worker reads *)

(** [trigger_manual_sync] ([POST /sync/run]): the row [manual_trigger] of
    [sync_worker_state] is created with 1 or incremented. *)
Definition trigger_manual_sync (w : Worker.world) : Worker.world :=
  Worker.set_sync_worker_state (fun st =>
    match st !! "manual_trigger" with
    | None => <["manual_trigger" := 1]> st
    | Some last_event_id => <["manual_trigger" := last_event_id + 1]> st
    end) w.

(** [_EDGE_SOURCES] and [_SYNC_CONFIG_MODES] *)
Definition _EDGE_SOURCES : list string := ["mariadb"; "postgres"].
Definition _SYNC_CONFIG_MODES : list string := ["realtime"; "scheduled"].

(** [Result.scalar_one_or_none()] on the rows a query selects; the outer
    [None] stands for [MultipleResultsFound]. *)
Definition scalar_one_or_none {A} (rows : list A) : option (option A) :=
  match rows with
  | [] => Some None
  | [r] => Some (Some r)
  | _ => None
  end.

(** The fields of [SyncConfigCreateRequest], as the endpoint receives
    them. *)
Record SyncConfigCreateRequest := MkCreateRequest {
  rq_source : string;
  rq_target : string;
  rq_mode : string;
  rq_interval_seconds : Z;
  rq_enabled : bool
}.

(** [create_sync_config] ([POST /sync/configs]): the id of the new row.
    An exception that is not an [HTTPException] is answered with 500. *)
Definition create_sync_config (request : SyncConfigCreateRequest) (w : Worker.world)
    : (http_error + Z) * Worker.world :=
  if negb (bool_decide (rq_source request ∈ _SUPPORTED_DBS))
     || negb (bool_decide (rq_target request ∈ _SUPPORTED_DBS))
  then (inl (HTTPException 400), w)
  else if String.eqb (rq_source request) (rq_target request)
  then (inl (HTTPException 400), w)
  else if negb (bool_decide (rq_source request ∈ _EDGE_SOURCES))
  then (inl (HTTPException 400), w)
  else if negb (bool_decide (rq_mode request ∈ _SYNC_CONFIG_MODES))
  then (inl (HTTPException 400), w)
  else
    match scalar_one_or_none
            (filter (fun kv => Worker.source kv.2 = rq_source request
                               /\ Worker.target kv.2 = rq_target request
                               /\ Worker.mode kv.2 = rq_mode request)
               (map_to_list (Worker.sync_configs w))) with
    | None => (inl (HTTPException 500), w)
    | Some (Some _) => (inl (HTTPException 400), w)
    | Some None =>
        let id := Worker.next_id (Worker.sync_configs w) in
        (inr id,
         Worker.set_sync_configs
           (insert id (Worker.MkSyncConfig (rq_source request) (rq_target request)
                         (rq_mode request) (rq_interval_seconds request)
                         (rq_enabled request) None)) w)
    end.

(** [update_sync_config] ([PUT /sync/configs/{config_id}]); [config_id]
    is [None] when [int(config_id)] raises. *)
Definition update_sync_config (config_id : option Z) (new_mode : option string)
    (new_interval_seconds : option Z) (new_enabled : option bool) (w : Worker.world)
    : (http_error + Worker.SyncConfig) * Worker.world :=
  match config_id with
  | None => (inl (HTTPException 400), w)
  | Some config_id =>
      match Worker.sync_configs w !! config_id with
      | None => (inl (HTTPException 404), w)
      | Some config =>
          if match new_mode with
             | Some m => negb (bool_decide (m ∈ _SYNC_CONFIG_MODES))
             | None => false
             end
          then (inl (HTTPException 400), w)
          else if String.eqb (Worker.source config) (Worker.target config)
          then (inl (HTTPException 400), w)
          else
            let duplicate :=
              match new_mode with
              | Some m =>
                  if negb (String.eqb m (Worker.mode config)) then
                    scalar_one_or_none
                      (filter (fun kv => kv.1 <> config_id
                                         /\ Worker.source kv.2 = Worker.source config
                                         /\ Worker.target kv.2 = Worker.target config
                                         /\ Worker.mode kv.2 = m)
                         (map_to_list (Worker.sync_configs w)))
                  else Some None
              | None => Some None
              end in
            match duplicate with
            | None => (inl (HTTPException 500), w)
            | Some (Some _) => (inl (HTTPException 400), w)
            | Some None =>
                let config' :=
                  Worker.MkSyncConfig (Worker.source config) (Worker.target config)
                    (default (Worker.mode config) new_mode)
                    (default (Worker.interval_seconds config) new_interval_seconds)
                    (default (Worker.enabled config) new_enabled)
                    (Worker.last_run_at config) in
                (inr config',
                 Worker.set_sync_configs (insert config_id config') w)
            end
      end
  end.

(** [delete_sync_config] ([DELETE /sync/configs/{config_id}]) *)
Definition delete_sync_config (config_id : option Z) (w : Worker.world)
    : (http_error + unit) * Worker.world :=
  match config_id with
  | None => (inl (HTTPException 400), w)
  | Some config_id =>
      match Worker.sync_configs w !! config_id with
      | None => (inl (HTTPException 404), w)
      | Some _ => (inr tt, Worker.set_sync_configs (delete config_id) w)
      end
  end.

(** No two rows of [sync_configs] have the same source, target and
    mode. *)
Definition unique_keys (cfgs : gmap Z Worker.SyncConfig) : Prop :=
  forall i j ci cj,
    cfgs !! i = Some ci -> cfgs !! j = Some cj ->
    Worker.source ci = Worker.source cj -> Worker.target ci = Worker.target cj ->
    Worker.mode ci = Worker.mode cj -> i = j.

(** The characters of a table name [_validate_table_name] accepts: a word
    character, the dot, or the final newline [$] lets through. *)
Definition safe_char (c : ascii) : bool :=
  is_word_char c || (nat_of_ascii c =? 46)%nat || (nat_of_ascii c =? 10)%nat.

Fixpoint all_chars (P : ascii -> bool) (s : string) : bool :=
  match s with
  | EmptyString => true
  | String c s' => P c && all_chars P s'
  end.

End SyncApi.

(** ** Concrete scenarios *)

Module Scenario.
Import Py Worker.
Local Open Scope Z_scope.

(** *** One item at the hub and one change event *)

(** No statement is rejected; the clocks below are stored as dicts, so the
    two parsers are never needed. *)
Definition no_json (s : string) : option value := None.
Definition no_int (s : string) : option Z := None.
Definition no_fault (db : string) (d : database) (s : stmt) : option exc := None.

Definition clock_value (n s : Z) : value :=
  VDict (<["N" := VInt n]> (<["S" := VInt s]> ∅)).

Definition item (title : string) (n s : Z) : pydict :=
  <["id" := VInt 7]> (<["title" := VStr title]> (<["v_clock" := clock_value n s]> ∅)).

(** The hub holds item 7 with clock N=1, S=1. *)
Definition hub_with_item : world :=
  MkWorld (<["mysql" := <["items" := <[7 := item "at the hub" 1 1]> ∅]> ∅]> ∅)
    ∅ ∅ ∅ ∅ ∅.

(** An update of item 7 at MariaDB with clock N=2, S=0: concurrent with the
    hub's. *)
Definition concurrent_update : EdgeLogRow :=
  MkEdgeLogRow 3 "items" 7 "UPDATE"
    (VDict (item "before" 1 0)) (VDict (item "at the edge" 2 0)) None.

(** The same as a DELETE. *)
Definition concurrent_delete : EdgeLogRow :=
  MkEdgeLogRow 4 "items" 7 "DELETE" (VDict (item "at the edge" 2 0)) VNone None.

(** An update with clock N=2, S=1, which dominates the hub's. *)
Definition newer_update : EdgeLogRow :=
  MkEdgeLogRow 5 "items" 7 "UPDATE"
    (VDict (item "before" 1 1)) (VDict (item "newer" 2 1)) None.

(** The reason tag of a conflict record. *)
Definition reason_of (r : ConflictRecord) : option value :=
  match cr_payload r with
  | VDict d => d !! "reason"
  | _ => None
  end.

(** MariaDB holds item 7 with clock N=1, S=0; nothing at the hub yet. *)
Definition edge_with_item : world :=
  MkWorld (<["mariadb" := <["items" := <[7 := item "edited by hand" 1 0]> ∅]> ∅]> ∅)
    ∅ ∅ ∅ ∅ ∅.

(** An UPDATE whose title changed while the clock stayed at N=1, S=0. *)
Definition unstamped_update : EdgeLogRow :=
  MkEdgeLogRow 8 "items" 7 "UPDATE"
    (VDict (item "before" 1 0)) (VDict (item "edited by hand" 1 0)) None.

(** An INSERT event that carries an old snapshot equal to the new one, with
    the origin's component at zero. *)
Definition insert_with_old_snapshot : EdgeLogRow :=
  MkEdgeLogRow 9 "items" 7 "INSERT"
    (VDict (item "imported" 0 0)) (VDict (item "imported" 0 0)) None.

(** An event on a table the worker does not track, and an UPDATE whose new
    snapshot is missing. *)
Definition untracked_event : EdgeLogRow :=
  MkEdgeLogRow 11 "audit_log" 1 "INSERT" VNone (VDict (item "ignored" 1 0)) None.
Definition malformed_event : EdgeLogRow :=
  MkEdgeLogRow 12 "items" 7 "UPDATE" (VDict (item "before" 1 0)) VNone None.

(** The hub of [hub_with_item] beside a MariaDB change log that holds the
    two events, both unprocessed. *)
Definition hub_with_log : world :=
  set_sync_log
    (fun _ => <["mariadb" :=
                  <[11 := MkSyncLogRow "audit_log" 1 "INSERT" VNone
                            (VDict (item "ignored" 1 0)) None 0]>
                    (<[12 := MkSyncLogRow "items" 7 "UPDATE"
                               (VDict (item "before" 1 0)) VNone None 0]> ∅)]> ∅)
    hub_with_item.

(** *** Three pending conflicts on item 7 *)

Definition no_repr (v : value) : string := EmptyString.
Definition sync_ok (winner_db target_db tbl : string) (record : pydict)
    (d : gmap string database) : option (gmap string database) := Some d.

(** A conflict payload as the worker stores it. *)
Definition conflict_payload (reason : string) (source_clock target_clock : value) : value :=
  VDict (<["reason" := VStr reason]>
           (<["source_new" := VDict (<["v_clock" := source_clock]> ∅)]>
              (<["target_current" := VDict (<["v_clock" := target_clock]> ∅)]> ∅))).

Definition pending_conflict (src tgt : string) (payload : value) : ConflictRecord :=
  MkConflictRecord "items" 7 src tgt payload false "pending" None None.

(** Conflicts 1 and 2 are the two directions of one event (the clocks
    N=2,S=0 and N=1,S=1 swapped); conflict 3 is a later event on the same
    item. *)
Definition three_conflicts : world :=
  set_conflict_records
    (fun _ =>
       <[1 := pending_conflict "mariadb" "mysql"
                (conflict_payload "vector_clock_conflict" (clock_value 2 0)
                   (clock_value 1 1))]>
         (<[2 := pending_conflict "mysql" "mariadb"
                   (conflict_payload "vector_clock_conflict" (clock_value 1 1)
                      (clock_value 2 0))]>
            (<[3 := pending_conflict "mariadb" "mysql"
                      (conflict_payload "vector_clock_conflict" (clock_value 3 1)
                         (clock_value 2 2))]> ∅)))
    hub_with_item.

(** *** More scenarios *)

(** A database that rejects every upsert. *)
Definition reject_upserts (db : string) (d : database) (s : stmt) : option exc :=
  match s with
  | Upsert _ _ => Some OtherSQLAlchemyError
  | _ => None
  end.

(** Two links out of MariaDB: a realtime one to the hub (row 1) and a
    scheduled one to Postgres (row 2), every 300 seconds, last run at
    second 1000. *)
Definition hub_with_links : world :=
  set_sync_configs
    (fun _ => <[1 := MkSyncConfig "mariadb" "mysql" "realtime" 30 true None]>
                (<[2 := MkSyncConfig "mariadb" "postgres" "scheduled" 300 true
                          (Some 1000000000)]> ∅))
    hub_with_item.

(** A request for a scheduled link from Postgres to the hub. *)
Definition scheduled_link_request : SyncApi.SyncConfigCreateRequest :=
  SyncApi.MkCreateRequest "postgres" "mysql" "scheduled" 600 true.

End Scenario.

(** * Facts *)

(** ** The identifier generator *)

Module SnowflakeFacts.
Import Snowflake.
Local Open Scope Z_scope.

(** *** Arithmetic of the bit layout *)

Lemma lor_shiftl_low (a b n : Z) :
  0 <= n -> 0 <= b < 2 ^ n -> Z.lor (Z.shiftl a n) b = a * 2 ^ n + b.
Proof.
  intros Hn Hb. rewrite Z.shiftl_mul_pow2 by lia.
  symmetry. apply Z.add_nocarry_lor.
  apply Z.bits_inj'. intros k Hk.
  rewrite Z.land_spec, Z.bits_0.
  destruct (Z.lt_ge_cases k n) as [Hlt | Hge].
  - rewrite Z.mul_pow2_bits_low by lia. reflexivity.
  - replace b with (b mod 2 ^ n) by (apply Z.mod_small; lia).
    rewrite Z.mod_pow2_bits_high by lia. apply andb_false_r.
Qed.

Ltac pow_norm :=
  change (2 ^ 41) with 2199023255552 in *;
  change (2 ^ 22) with 4194304 in *;
  change (2 ^ 12) with 4096 in *;
  change (2 ^ 10) with 1024 in *.

Lemma mask41 (x : Z) : Z.land x 0x1FFFFFFFFFF = x mod 2 ^ 41.
Proof. change 0x1FFFFFFFFFF with (Z.ones 41). apply Z.land_ones. lia. Qed.

Lemma mask12 (x : Z) : Z.land x 0xFFF = x mod 2 ^ 12.
Proof. change 0xFFF with (Z.ones 12). apply Z.land_ones. lia. Qed.

Lemma pack_value (g : t) (now_ms s : Z) :
  0 <= worker_id g <= 1023 -> 0 <= s <= 4095 ->
  pack g now_ms s
  = ((now_ms - epoch_ms g) mod 2 ^ 41) * 2 ^ 22 + worker_id g * 2 ^ 12 + s.
Proof.
  intros Hw Hs. unfold pack.
  rewrite mask41.
  pose proof (Z.mod_pos_bound (now_ms - epoch_ms g) (2 ^ 41) eq_refl) as Hts.
  rewrite (lor_shiftl_low _ (Z.shiftl (worker_id g) 12) 22);
    [| lia | rewrite Z.shiftl_mul_pow2 by lia; pow_norm; lia].
  rewrite (Z.shiftl_mul_pow2 (worker_id g)) by lia.
  replace ((now_ms - epoch_ms g) mod 2 ^ 41 * 2 ^ 22 + worker_id g * 2 ^ 12)
    with (Z.shiftl ((now_ms - epoch_ms g) mod 2 ^ 41 * 2 ^ 10 + worker_id g) 12)
    by (rewrite Z.shiftl_mul_pow2 by lia; pow_norm; lia).
  rewrite lor_shiftl_low by (pow_norm; lia).
  rewrite Z.shiftl_mul_pow2 by lia. reflexivity.
Qed.

Lemma init_wf (w e : Z) (g : t) : init w e = Some g -> wf g.
Proof.
  unfold init, wf. destruct (_ || _) eqn:E; [discriminate |].
  intros [= <-]. cbn. apply orb_false_iff in E as [E1 E2]. lia.
Qed.

Lemma init_fields (w e : Z) (g : t) :
  init w e = Some g -> worker_id g = w /\ epoch_ms g = e /\ last_ms g = -1 /\ seq g = 0.
Proof.
  unfold init. destruct (_ || _); [discriminate |]. intros [= <-]. auto.
Qed.

Lemma spin_wait_spec (last : Z) (c : clock) (now : Z) (c' : clock) :
  spin_wait last c = Some (now, c') ->
  last < now /\ In now c /\ (length c' < length c)%nat
  /\ exists skipped, c = skipped ++ now :: c' /\ Forall (fun r => r <= last) skipped.
Proof.
  induction c as [| r c IH]; cbn; [discriminate |].
  destruct (r >? last) eqn:E.
  - intros [= -> ->]. repeat split; [lia | auto | lia |].
    exists []. split; [reflexivity | constructor].
  - intros H. destruct (IH H) as (H1 & H2 & H3 & sk & -> & Hsk).
    repeat split; [lia | auto | lia |].
    exists (r :: sk). split; [reflexivity |]. constructor; [lia | exact Hsk].
Qed.

(** One call: what it returns and how the state moves. *)
Lemma next_id_step (g : t) (c : clock) (id : Z) (g' : t) (c' : clock) :
  wf g -> Forall (in_window (epoch_ms g)) c ->
  next_id g c = Some (id, g', c') ->
  id = id_of g' /\ wf g' /\ epoch_ms g' = epoch_ms g
  /\ worker_id g' = worker_id g
  /\ epoch_ms g <= last_ms g'
  /\ (length c' < length c)%nat
  /\ Forall (in_window (epoch_ms g)) c'
  /\ (epoch_ms g <= last_ms g -> id_of g < id).
Proof.
  intros [Hw Hs] Hc. unfold next_id.
  destruct c as [| now c0]; [discriminate |].
  apply Forall_cons in Hc as [Hnow Hc0]. unfold in_window in Hnow.
  set (now_ms := if now <? last_ms g then last_ms g else now).
  assert (Hmax : now_ms = Z.max now (last_ms g)).
  { unfold now_ms. destruct (Z.ltb_spec now (last_ms g)); lia. }
  destruct (Z.eqb_spec now_ms (last_ms g)) as [Heq | Hne].
  - rewrite mask12.
    destruct (Z.eqb_spec ((seq g + 1) mod 2 ^ 12) 0) as [Hz | Hnz].
    + destruct (spin_wait (last_ms g) c0) as [[now' c''] |] eqn:Hsp; [| discriminate].
      intros [= <- <- <-].
      apply spin_wait_spec in Hsp as (Hlt & Hin & Hlen & sk & Hsplit & _).
      assert (Hwin : in_window (epoch_ms g) now').
      { rewrite Forall_forall in Hc0. apply Hc0. apply list_elem_of_In. exact Hin. }
      unfold in_window in Hwin.
      assert (Hc'' : Forall (in_window (epoch_ms g)) c'').
      { rewrite Hsplit in Hc0. apply Forall_app in Hc0 as [_ H2].
        apply Forall_cons in H2 as [_ H2]. exact H2. }
      rewrite Hz. unfold emit, wf. cbn [fst snd worker_id epoch_ms last_ms seq].
      repeat split; try (cbn; lia); try exact Hc''.
      intros Hge. unfold id_of. rewrite !pack_value by (cbn; lia). cbn.
      rewrite !Z.mod_small by (pow_norm; lia). pow_norm. lia.
    + intros [= <- <- <-].
      assert (Hlt : seq g < 4095).
      { destruct (Z.eq_dec (seq g) 4095) as [E | E]; [| lia].
        rewrite E in Hnz. exfalso. apply Hnz. reflexivity. }
      assert (Hseq : (seq g + 1) mod 2 ^ 12 = seq g + 1).
      { apply Z.mod_small. pow_norm. lia. }
      rewrite Hseq. unfold emit, wf. cbn [fst snd worker_id epoch_ms last_ms seq].
      repeat split; try (cbn; lia); try exact Hc0.
      intros Hge. unfold id_of. rewrite !pack_value by (cbn; lia). cbn.
      rewrite Heq. lia.
  - intros [= <- <- <-].
    unfold emit, wf. cbn [fst snd worker_id epoch_ms last_ms seq].
    repeat split; try (cbn; lia); try exact Hc0.
    intros Hge. unfold id_of. rewrite !pack_value by (cbn; lia). cbn.
    rewrite !Z.mod_small by (pow_norm; lia). pow_norm. lia.
Qed.

Lemma run_fuel_sorted (fuel : nat) (g : t) (c : clock) :
  wf g -> Forall (in_window (epoch_ms g)) c ->
  StronglySorted Z.lt (run_fuel fuel g c)
  /\ (epoch_ms g <= last_ms g -> Forall (Z.lt (id_of g)) (run_fuel fuel g c)).
Proof.
  revert g c. induction fuel as [| fuel IH]; intros g c Hwf Hc; cbn.
  - split; constructor.
  - destruct (next_id g c) as [[[id g'] c'] |] eqn:Hn; [| split; constructor].
    destruct (next_id_step _ _ _ _ _ Hwf Hc Hn)
      as (Hid & Hwf' & He & _ & Hlast & _ & Hc' & Hlt).
    rewrite <- He in Hc', Hlast.
    destruct (IH g' c' Hwf' Hc') as [IHs IHf].
    specialize (IHf Hlast). rewrite <- Hid in IHf.
    split.
    + constructor; assumption.
    + intros Hge. specialize (Hlt Hge). constructor; [exact Hlt |].
      eapply Forall_impl; [exact IHf |]. cbn. intros; lia.
Qed.

Lemma StronglySorted_lt_NoDup (l : list Z) : StronglySorted Z.lt l -> NoDup l.
Proof.
  induction 1 as [| x l Hs IH Hx]; constructor; [| exact IH].
  intros Hin. rewrite Forall_forall in Hx. specialize (Hx _ Hin). lia.
Qed.

(** The call returns as soon as the clock can satisfy it: one reading when
    the sequence does not wrap, and a reading after [last_ms] among the
    later ones when it does. *)
Lemma next_id_returns (g : t) (now : Z) (c : clock) :
  (exists r, In r c /\ last_ms g < r) ->
  exists id g' c', next_id g (now :: c) = Some (id, g', c').
Proof.
  intros (r & Hin & Hr). unfold next_id.
  destruct (_ =? last_ms g); [| eauto].
  destruct (_ =? 0); [| eauto].
  assert (Hs : exists p, spin_wait (last_ms g) c = Some p).
  { clear now. induction c as [| x c IH]; [destruct Hin |]. cbn.
    destruct (x >? last_ms g) eqn:E; [eauto |].
    destruct Hin as [-> | Hin]; [lia | auto]. }
  destruct Hs as [[n' c''] ->]. eauto.
Qed.

Lemma pack_bound (g : t) (now_ms s : Z) :
  0 <= worker_id g <= 1023 -> 0 <= s <= 4095 ->
  fits_int64 (pack g now_ms s).
Proof.
  intros Hw Hs. unfold fits_int64. rewrite pack_value by assumption.
  pose proof (Z.mod_pos_bound (now_ms - epoch_ms g) (2 ^ 41) eq_refl) as Hts.
  pow_norm. change (2 ^ 63) with 9223372036854775808. lia.
Qed.

Lemma run_fuel_bound (fuel : nat) (g : t) (c : clock) :
  wf g -> Forall (in_window (epoch_ms g)) c ->
  Forall fits_int64 (run_fuel fuel g c).
Proof.
  revert g c. induction fuel as [| fuel IH]; intros g c Hwf Hc; cbn [run_fuel].
  - constructor.
  - destruct (next_id g c) as [[[id g'] c'] |] eqn:Hn; [| constructor].
    destruct (next_id_step _ _ _ _ _ Hwf Hc Hn)
      as (Hid & Hwf' & He & _ & _ & _ & Hc' & _).
    rewrite <- He in Hc'. constructor; [| exact (IH g' c' Hwf' Hc')].
    rewrite Hid. destruct Hwf' as [Hw' Hs']. exact (pack_bound g' _ _ Hw' Hs').
Qed.

(** How the sequence number moves in one call. *)
Lemma next_id_seq (g : t) (now : Z) (c : clock) (id : Z) (g' : t) (c' : clock) :
  wf g -> next_id g (now :: c) = Some (id, g', c') ->
  (last_ms g < now -> seq g' = 0 /\ last_ms g' = now /\ c' = c)
  /\ (now <= last_ms g -> seq g < 4095 ->
      seq g' = seq g + 1 /\ last_ms g' = last_ms g /\ c' = c)
  /\ (now <= last_ms g -> seq g = 4095 ->
      seq g' = 0 /\ last_ms g < last_ms g'
      /\ exists skipped, c = skipped ++ last_ms g' :: c'
                         /\ Forall (fun r => r <= last_ms g) skipped).
Proof.
  intros [Hw Hs]. unfold next_id.
  set (now_ms := if now <? last_ms g then last_ms g else now).
  assert (Hmax : now_ms = Z.max now (last_ms g)).
  { unfold now_ms. destruct (Z.ltb_spec now (last_ms g)); lia. }
  destruct (Z.eqb_spec now_ms (last_ms g)) as [Heq | Hne].
  - rewrite mask12.
    destruct (Z.eqb_spec ((seq g + 1) mod 2 ^ 12) 0) as [Hz | Hnz].
    + assert (Hfull : seq g = 4095).
      { destruct (Z.eq_dec (seq g) 4095) as [E | E]; [exact E |].
        rewrite Z.mod_small in Hz by (pow_norm; lia). lia. }
      destruct (spin_wait (last_ms g) c) as [[now' c''] |] eqn:Hsp; [| discriminate].
      intros [= <- <- <-]. cbn [emit fst snd seq last_ms].
      apply spin_wait_spec in Hsp as (Hlt & _ & _ & sk & Hsplit & Hsk).
      repeat split; try lia. exists sk. auto.
    + assert (Hlt : seq g < 4095).
      { destruct (Z.eq_dec (seq g) 4095) as [E | E]; [| lia].
        rewrite E in Hnz. exfalso. apply Hnz. reflexivity. }
      rewrite Z.mod_small by (pow_norm; lia).
      intros [= <- <- <-]. cbn [emit fst snd seq last_ms]. repeat split; try lia.
  - intros [= <- <- <-]. cbn [emit fst snd seq last_ms]. repeat split; try lia.
Qed.

(** C8 (as stated, refuted): a clock that crosses the end of the 41-bit
    timestamp window makes [next_id] return the same identifier twice, so
    the identifiers are neither strictly increasing nor pairwise distinct
    under every sequence of clock readings.  The generator has writer id 1
    and the default epoch; the two readings are the epoch and the epoch
    plus [2 ^ 41] milliseconds. *)
Lemma next_id_repeats_across_window :
  exists g, init 1 1704067200000 = Some g
    /\ run g [1704067200000; 1704067200000 + 2 ^ 41] = [4096; 4096]
    /\ ~ StronglySorted Z.lt (run g [1704067200000; 1704067200000 + 2 ^ 41])
    /\ ~ NoDup (run g [1704067200000; 1704067200000 + 2 ^ 41]).
Proof.
  eexists. split; [reflexivity |].
  assert (E : run (Mk 1 1704067200000 (-1) 0)
                [1704067200000; 1704067200000 + 2 ^ 41] = [4096; 4096])
    by (vm_compute; reflexivity).
  split; [exact E |]. rewrite E. split.
  - intros H. apply StronglySorted_inv in H as [_ H].
    apply Forall_cons in H as [H _]. lia.
  - intros H. apply NoDup_cons in H as [H _]. apply H. left.
Qed.

(** C8 (amended): for a generator built by the constructor and clock
    readings that all lie in the 41-bit window after the epoch (readings
    may still go backwards inside the window, they are clamped), the
    identifiers returned by successive [next_id] calls are strictly
    increasing, pairwise distinct and fit 63 bits; and in every call on a
    well-formed instance the sequence number restarts at 0 on a new
    millisecond, increments within the same (or an earlier, clamped)
    millisecond, and wraps from 4095 to 0 only after the spin loop has
    skipped to a reading after the last recorded millisecond. *)
Theorem next_id_strictly_increasing (w e : Z) (g : t) (c : clock) :
  init w e = Some g ->
  Forall (in_window e) c ->
  StronglySorted Z.lt (run g c)
  /\ NoDup (run g c)
  /\ Forall fits_int64 (run g c)
  /\ (forall g1 now c1 id g2 c2,
        wf g1 -> next_id g1 (now :: c1) = Some (id, g2, c2) ->
        (last_ms g1 < now -> seq g2 = 0 /\ last_ms g2 = now /\ c2 = c1)
        /\ (now <= last_ms g1 -> seq g1 < 4095 ->
            seq g2 = seq g1 + 1 /\ last_ms g2 = last_ms g1 /\ c2 = c1)
        /\ (now <= last_ms g1 -> seq g1 = 4095 ->
            seq g2 = 0 /\ last_ms g1 < last_ms g2
            /\ exists skipped, c1 = skipped ++ last_ms g2 :: c2
                               /\ Forall (fun r => r <= last_ms g1) skipped)).
Proof.
  intros Hinit Hc.
  pose proof (init_wf _ _ _ Hinit) as Hwf.
  destruct (init_fields _ _ _ Hinit) as (_ & He & _ & _).
  rewrite <- He in Hc.
  destruct (run_fuel_sorted (length c) g c Hwf Hc) as [Hs _].
  split; [exact Hs |].
  split; [apply StronglySorted_lt_NoDup; exact Hs |].
  split; [exact (run_fuel_bound (length c) g c Hwf Hc) |].
  intros g1 now c1 id g2 c2 Hwf1 Hn.
  exact (next_id_seq _ _ _ _ _ _ Hwf1 Hn).
Qed.

(** The amended C8 at a concrete run: writer id 1, default epoch, a clock
    that repeats a millisecond, goes backwards and then advances. *)
Lemma next_id_strictly_increasing_witness :
  init 1 1704067200000 = Some (Mk 1 1704067200000 (-1) 0)
  /\ Forall (in_window 1704067200000)
       [1704067200005; 1704067200005; 1704067200003; 1704067200009]
  /\ run (Mk 1 1704067200000 (-1) 0)
       [1704067200005; 1704067200005; 1704067200003; 1704067200009]
     = [20975616; 20975617; 20975618; 37752832]
  /\ StronglySorted Z.lt
       (run (Mk 1 1704067200000 (-1) 0)
          [1704067200005; 1704067200005; 1704067200003; 1704067200009]).
Proof.
  assert (Hw : Forall (in_window 1704067200000)
       [1704067200005; 1704067200005; 1704067200003; 1704067200009]).
  { repeat constructor; cbv; intros; discriminate. }
  split; [reflexivity |]. split; [exact Hw |]. split; [reflexivity |].
  exact (proj1 (next_id_strictly_increasing 1 1704067200000 _ _ eq_refl Hw)).
Defined.

(** *** The fields of an identifier *)

(** Whatever the clock reads, the identifier [next_id] returns is the
    packing of the new state, and the new sequence number fits 12 bits. *)
Lemma next_id_packs (g : t) (c : clock) (id : Z) (g' : t) (c' : clock) :
  next_id g c = Some (id, g', c') ->
  worker_id g' = worker_id g /\ epoch_ms g' = epoch_ms g
  /\ id = pack g' (last_ms g') (seq g') /\ 0 <= seq g' <= 4095.
Proof.
  unfold next_id. destruct c as [| now c0]; [discriminate |].
  pose proof (Z.mod_pos_bound (seq g + 1) (2 ^ 12) eq_refl) as Hm.
  change (2 ^ 12) with 4096 in Hm.
  destruct (_ =? last_ms g).
  - rewrite mask12. change (2 ^ 12) with 4096.
    destruct (_ =? 0).
    + destruct (spin_wait _ _) as [[now' c''] |]; [| discriminate].
      intros [= <- <- <-]. cbn. repeat split; lia.
    + intros [= <- <- <-]. cbn. repeat split; lia.
  - intros [= <- <- <-]. cbn. repeat split; lia.
Qed.

Lemma pack_fields (g : t) (now_ms s : Z) :
  0 <= worker_id g <= 1023 -> 0 <= s <= 4095 ->
  Z.shiftr (pack g now_ms s) 22 = (now_ms - epoch_ms g) mod 2 ^ 41
  /\ Z.land (Z.shiftr (pack g now_ms s) 12) 0x3FF = worker_id g
  /\ Z.land (pack g now_ms s) 0xFFF = s.
Proof.
  intros Hw Hs. rewrite pack_value by assumption.
  pose proof (Z.mod_pos_bound (now_ms - epoch_ms g) (2 ^ 41) eq_refl) as Hts.
  set (ts := (now_ms - epoch_ms g) mod 2 ^ 41) in *.
  change 0x3FF with (Z.ones 10). change 0xFFF with (Z.ones 12).
  rewrite !Z.shiftr_div_pow2, !Z.land_ones by lia.
  change (2 ^ 22) with 4194304. change (2 ^ 12) with 4096. change (2 ^ 10) with 1024.
  change (2 ^ 41) with 2199023255552 in Hts.
  assert (H22 : (ts * 4194304 + worker_id g * 4096 + s) / 4194304 = ts).
  { symmetry. apply (Z.div_unique _ _ _ (worker_id g * 4096 + s)); lia. }
  assert (H12 : (ts * 4194304 + worker_id g * 4096 + s) / 4096
                = ts * 1024 + worker_id g).
  { symmetry. apply (Z.div_unique _ _ _ s); lia. }
  split; [exact H22 |]. split.
  - rewrite H12. symmetry. apply (Z.mod_unique _ _ ts); lia.
  - symmetry. apply (Z.mod_unique _ _ (ts * 1024 + worker_id g)); lia.
Qed.

(** An identifier returned by a generator the constructor built can be
    taken apart again: bits 0-11 hold the sequence number of the new state,
    bits 12-21 the writer id, and the bits from 22 up the 41-bit timestamp
    offset; this holds for every clock reading, inside the 41-bit window or
    not. *)
Theorem next_id_decodes (g : t) (c : clock) (id : Z) (g' : t) (c' : clock) :
  wf g -> next_id g c = Some (id, g', c') ->
  Z.land id 0xFFF = seq g'
  /\ Z.land (Z.shiftr id 12) 0x3FF = worker_id g
  /\ Z.shiftr id 22 = (last_ms g' - epoch_ms g) mod 2 ^ 41.
Proof.
  intros [Hw _] Hn.
  destruct (next_id_packs _ _ _ _ _ Hn) as (Hw' & He' & -> & Hs').
  rewrite <- Hw' in Hw.
  destruct (pack_fields g' (last_ms g') (seq g') Hw Hs') as (H1 & H2 & H3).
  rewrite <- Hw', <- He'. auto.
Qed.

Lemma next_id_decodes_witness :
  next_id (Mk 5 1704067200000 1704067200007 9) [1704067200007]
  = Some (29380618, Mk 5 1704067200000 1704067200007 10, [])
  /\ Z.land 29380618 0xFFF = 10
  /\ Z.land (Z.shiftr 29380618 12) 0x3FF = 5
  /\ Z.shiftr 29380618 22 = 7.
Proof.
  split; [reflexivity |].
  destruct (next_id_decodes (Mk 5 1704067200000 1704067200007 9) [1704067200007]
              29380618 (Mk 5 1704067200000 1704067200007 10) [])
    as (H1 & H2 & H3).
  - split; cbn; lia.
  - reflexivity.
  - split; [exact H1 |]. split; [exact H2 |]. exact H3.
Defined.

(** Two generators with different writer ids never return the same
    identifier, whatever their clocks read and whatever their epochs are. *)
Theorem ids_of_distinct_writers_differ (g1 g2 : t) (c1 c2 : clock)
    (id1 id2 : Z) (g1' g2' : t) (c1' c2' : clock) :
  wf g1 -> wf g2 -> worker_id g1 <> worker_id g2 ->
  next_id g1 c1 = Some (id1, g1', c1') ->
  next_id g2 c2 = Some (id2, g2', c2') ->
  id1 <> id2.
Proof.
  intros [Hw1 _] [Hw2 _] Hne H1 H2 Heq.
  destruct (next_id_packs _ _ _ _ _ H1) as (E1 & _ & -> & Hs1).
  destruct (next_id_packs _ _ _ _ _ H2) as (E2 & _ & -> & Hs2).
  rewrite <- E1 in Hw1, Hne. rewrite <- E2 in Hw2, Hne.
  destruct (pack_fields g1' (last_ms g1') (seq g1') Hw1 Hs1) as (_ & F1 & _).
  destruct (pack_fields g2' (last_ms g2') (seq g2') Hw2 Hs2) as (_ & F2 & _).
  rewrite Heq in F1. congruence.
Qed.

Lemma ids_of_distinct_writers_differ_witness :
  fst (fst (default (0, Mk 0 0 0 0, []) (next_id (Mk 1 1704067200000 (-1) 0) [1704067200005])))
  <> fst (fst (default (0, Mk 0 0 0 0, []) (next_id (Mk 2 1704067200000 (-1) 0) [1704067200005]))).
Proof.
  refine (ids_of_distinct_writers_differ (Mk 1 1704067200000 (-1) 0)
            (Mk 2 1704067200000 (-1) 0) [1704067200005] [1704067200005]
            _ _ _ _ _ _ _ _ _ eq_refl eq_refl).
  - split; cbn; lia.
  - split; cbn; lia.
  - cbn. lia.
Defined.

(** The recorded millisecond never goes back: after a call it is at least
    the reading the call consumed and at least what it was before, so a
    clock that reads earlier than the last recorded millisecond is clamped. *)
Theorem recorded_millisecond_never_regresses (g : t) (now : Z) (c : clock)
    (id : Z) (g' : t) (c' : clock) :
  next_id g (now :: c) = Some (id, g', c') ->
  Z.max now (last_ms g) <= last_ms g'
  /\ (last_ms g' = Z.max now (last_ms g) \/ In (last_ms g') c).
Proof.
  unfold next_id.
  set (now_ms := if now <? last_ms g then last_ms g else now).
  assert (Hmax : now_ms = Z.max now (last_ms g)).
  { unfold now_ms. destruct (Z.ltb_spec now (last_ms g)); lia. }
  destruct (Z.eqb_spec now_ms (last_ms g)) as [Heq | Hne].
  - destruct (_ =? 0).
    + destruct (spin_wait (last_ms g) c) as [[now' c''] |] eqn:Hsp; [| discriminate].
      apply spin_wait_spec in Hsp as (Hlt & Hin & _).
      intros [= <- <- <-]. cbn. split; [lia | right; exact Hin].
    + intros [= <- <- <-]. cbn. split; [lia | left; lia].
  - intros [= <- <- <-]. cbn. split; [lia | left; lia].
Qed.

Lemma recorded_millisecond_never_regresses_witness :
  next_id (Mk 1 1704067200000 1704067200009 3) [1704067200002]
  = Some (37752836, Mk 1 1704067200000 1704067200009 4, [])
  /\ Z.max 1704067200002 1704067200009 <= 1704067200009.
Proof.
  split; [reflexivity |].
  exact (proj1 (recorded_millisecond_never_regresses
                  (Mk 1 1704067200000 1704067200009 3) 1704067200002 []
                  37752836 (Mk 1 1704067200000 1704067200009 4) [] eq_refl)).
Defined.

(** The spin loop ends: with a later reading past the last recorded
    millisecond, here after the sequence number wrapped at 4095. *)
Lemma next_id_returns_witness :
  exists id g' c',
    next_id (Mk 1 1704067200000 1704067200009 4095)
      (1704067200009 :: [1704067200009; 1704067200008; 1704067200010; 1704067200011])
    = Some (id, g', c').
Proof.
  apply (next_id_returns (Mk 1 1704067200000 1704067200009 4095) 1704067200009
           [1704067200009; 1704067200008; 1704067200010; 1704067200011]).
  exists 1704067200010. split; [cbn; auto |]. cbn. lia.
Defined.

End SnowflakeFacts.

(** ** The transaction wrapper *)

Module TransactionFacts.
Import Transaction.

Section WrapperFacts.
Context {D : Type} (mul : D -> D -> D).
Context (RETRY_DELAY RETRY_BACKOFF : D).
Context {R : Type}.

Local Abbreviation retry_loop := (retry_loop mul RETRY_BACKOFF (R := R)).
Local Abbreviation delay_after := (delay_after mul RETRY_DELAY RETRY_BACKOFF).
Local Abbreviation retried_events := (retried_events mul RETRY_DELAY RETRY_BACKOFF (R := R)).
Local Abbreviation final_events := (final_events (D := D) (R := R)).

  (** Attempts [from .. from + n - 1] fail retryably and more attempts are
      allowed: the loop sleeps after each one and goes on with attempt
      [from + n]. *)
Lemma retry_loop_retries (func : nat -> outcome) (max_retries : Z)
      (n remaining from : nat) :
    (forall j, from <= j < from + n -> fails_retryably (func j)) ->
    (Z.of_nat (from + n) < max_retries)%Z ->
    retry_loop func max_retries (n + remaining) from (delay_after from)
    = (fst (retry_loop func max_retries remaining (from + n)
              (delay_after (from + n))),
       retried_events func from n
       ++ snd (retry_loop func max_retries remaining (from + n)
                 (delay_after (from + n)))).
  Proof.
    revert from. induction n as [| n IH]; intros from Hfail Hlt.
    - rewrite Nat.add_0_r. cbn. destruct (retry_loop _ _ _ _ _); reflexivity.
    - cbn [Nat.add Transaction.retry_loop].
      destruct (Hfail from ltac:(lia)) as (e & He & Hre).
      assert (Hcont : (Z.of_nat from <? max_retries - 1)%Z = true)
        by (apply Z.ltb_lt; lia).
      assert (Hnext : retry_loop func max_retries (n + remaining) (S from)
                        (mul (delay_after from) RETRY_BACKOFF)
                      = (fst (retry_loop func max_retries remaining (from + S n)
                                (delay_after (from + S n))),
                         retried_events func (S from) n
                         ++ snd (retry_loop func max_retries remaining (from + S n)
                                   (delay_after (from + S n))))).
      { change (mul (delay_after from) RETRY_BACKOFF) with (delay_after (S from)).
        rewrite (IH (S from)) by (try (intros j Hj; apply Hfail); lia).
        replace (S from + n) with (from + S n) by lia. reflexivity. }
      destruct (func from) as [r | e' | e'] eqn:Hf; cbn in He; try discriminate;
        injection He as ->; rewrite Hre, Hcont; cbn [andb];
        rewrite Hnext; cbn [retried_events Transaction.retried_events];
        rewrite Hf; cbn [fst snd]; rewrite <- !app_assoc; reflexivity.
  Qed.

Lemma final_result_raised (o : outcome (R := R)) (e : error) :
    raised o = Some e -> final_result o = Raised e.
  Proof. destruct o; cbn; congruence. Qed.

Lemma retry_loop_final (func : nat -> outcome) (max_retries : Z)
      (remaining i : nat) (d : D) :
    (forall e, raised (func i) = Some e ->
               is_retryable_error e = false \/ (Z.of_nat i >= max_retries - 1)%Z) ->
    retry_loop func max_retries (S remaining) i d
    = (final_result (func i), final_events i (func i)).
  Proof.
    intros Hfin. cbn [Transaction.retry_loop].
    destruct (func i) as [r | e | e] eqn:Hf; [reflexivity | |];
      (destruct (Hfin e eq_refl) as [Hn | Hlast];
       [ rewrite Hn; reflexivity
       | replace (Z.of_nat i <? max_retries - 1)%Z with false
           by (symmetry; apply Z.ltb_ge; lia);
         rewrite andb_false_r; reflexivity ]).
  Qed.

  (** The whole loop, when attempts [0 .. i - 1] fail retryably and attempt
      [i] ends it. *)
Lemma retry_loop_run (func : nat -> outcome) (max_retries : Z) (i : nat) :
    (Z.of_nat i < max_retries)%Z ->
    (forall j, j < i -> fails_retryably (func j)) ->
    (forall e, raised (func i) = Some e ->
               is_retryable_error e = false \/ (Z.of_nat i >= max_retries - 1)%Z) ->
    retry_loop func max_retries (Z.to_nat max_retries) 0 RETRY_DELAY
    = (final_result (func i), retried_events func 0 i ++ final_events i (func i)).
  Proof.
    intros Hi Hfail Hfin.
    replace (Z.to_nat max_retries) with (i + S (Z.to_nat max_retries - S i)) by lia.
    change RETRY_DELAY with (delay_after 0).
    rewrite retry_loop_retries by (try (intros j Hj; apply Hfail); lia).
    cbn [Nat.add]. rewrite retry_loop_final by exact Hfin. reflexivity.
  Qed.

Lemma sleeps_app (a b : list (event (D := D))) : sleeps (a ++ b) = sleeps a ++ sleeps b.
  Proof. unfold sleeps. apply omap_app. Qed.

Lemma calls_app (a b : list (event (D := D))) : calls (a ++ b) = calls a ++ calls b.
  Proof. unfold calls. apply omap_app. Qed.

Lemma rollbacks_app (a b : list (event (D := D))) :
    rollbacks (a ++ b) = rollbacks a + rollbacks b.
  Proof. unfold rollbacks. rewrite omap_app, length_app. reflexivity. Qed.

Lemma try_events_facts (k : nat) (o : outcome (R := R)) :
    sleeps (try_events k o : list (event (D := D))) = []
    /\ calls (try_events k o : list (event (D := D))) = [k]
    /\ rollbacks (try_events k o : list (event (D := D))) = 0.
  Proof. destruct o; repeat split. Qed.

Lemma retried_events_facts (func : nat -> outcome) (from n : nat) :
    sleeps (retried_events func from n) = map delay_after (seq from n)
    /\ calls (retried_events func from n) = seq from n
    /\ rollbacks (retried_events func from n) = n.
  Proof.
    revert from. induction n as [| n IH]; intros from; [repeat split |].
    cbn [Transaction.retried_events seq map].
    destruct (IH (S from)) as (Hs & Hc & Hr).
    destruct (try_events_facts from (func from)) as (Hs0 & Hc0 & Hr0).
    rewrite !sleeps_app, !calls_app, !rollbacks_app, Hs, Hc, Hr, Hs0, Hc0, Hr0.
    repeat split.
  Qed.

Lemma final_events_facts (k : nat) (o : outcome (R := R)) :
    sleeps (final_events k o) = []
    /\ calls (final_events k o) = [k]
    /\ rollbacks (final_events k o) = (match raised o with Some _ => 1 | None => 0 end).
  Proof. destruct o; repeat split. Qed.

Local Abbreviation with_transaction :=
    (with_transaction mul RETRY_DELAY RETRY_BACKOFF (R := R)).

Lemma with_transaction_run (func : nat -> outcome) (max_retries : option Z)
      (iso : option IsolationLevel) (i : nat) :
    (Z.of_nat i < default MAX_RETRIES max_retries)%Z ->
    (forall j, j < i -> fails_retryably (func j)) ->
    (forall e, raised (func i) = Some e ->
               is_retryable_error e = false
               \/ (Z.of_nat i >= default MAX_RETRIES max_retries - 1)%Z) ->
    let run := with_transaction max_retries iso true func in
    fst run = final_result (func i)
    /\ calls (snd run) = seq 0 (S i)
    /\ sleeps (snd run) = map delay_after (seq 0 i)
    /\ rollbacks (snd run) = i + (match raised (func i) with Some _ => 1 | None => 0 end)
    /\ (forall e, raised (func i) = Some e -> last (snd run) = Some Rollback).
  Proof.
    intros Hi Hfail Hfin. unfold Transaction.with_transaction. cbn [negb].
    rewrite (retry_loop_run func _ i Hi Hfail Hfin). cbn [fst snd].
    destruct (retried_events_facts func 0 i) as (Hs & Hc & Hr).
    destruct (final_events_facts i (func i)) as (Hs' & Hc' & Hr').
    assert (Hpre : forall l : list (event (D := D)),
               sleeps (match iso with Some l0 => [SetIsolation l0] | None => [] end ++ l)
               = sleeps l
               /\ calls (match iso with Some l0 => [SetIsolation l0] | None => [] end ++ l)
                  = calls l
               /\ rollbacks (match iso with Some l0 => [SetIsolation l0] | None => [] end ++ l)
                  = rollbacks l).
    { intros l. destruct iso; repeat split. }
    destruct (Hpre (retried_events func 0 i ++ final_events i (func i)))
      as (-> & -> & ->).
    rewrite sleeps_app, calls_app, rollbacks_app, Hs, Hc, Hr, Hs', Hc', Hr'.
    repeat split.
    - rewrite seq_S. reflexivity.
    - rewrite app_nil_r. reflexivity.
    - intros e He. rewrite !app_assoc.
      destruct (func i); cbn in He; try discriminate;
        cbn [final_events]; rewrite app_assoc; apply last_snoc.
  Qed.

  (** C9: under the retry wrapper, (1) an error is retried exactly when it
      is a database error whose lower-cased message contains one of the
      retryable patterns; (2) an error that is not retryable, raised on
      attempt [i] after [i] retried failures, is rolled back and re-raised
      on that attempt: [i + 1] calls, nothing after the rollback; (3) when
      every permitted attempt fails retryably, the function is called
      [max_retries] times and the error of the last attempt is propagated;
      (4) a success after [i] retried failures is returned.  In each case
      the sleeps between consecutive attempts are [RETRY_DELAY],
      [RETRY_DELAY * RETRY_BACKOFF], ...: the base delay multiplied by the
      backoff once per completed attempt. *)
Theorem with_transaction_retry_policy (func : nat -> outcome)
      (max_retries : option Z) (iso : option IsolationLevel) :
    let m := default MAX_RETRIES max_retries in
    let run := with_transaction max_retries iso true func in
    (forall e, is_retryable_error e = true <->
               is_dbapi_error e = true
               /\ exists pattern, In pattern retryable_patterns
                                  /\ contains pattern (lower (message e)) = true)
    /\ (forall i e,
          (Z.of_nat i < m)%Z ->
          (forall j, j < i -> fails_retryably (func j)) ->
          raised (func i) = Some e -> is_retryable_error e = false ->
          fst run = Raised e
          /\ calls (snd run) = seq 0 (S i)
          /\ sleeps (snd run) = map delay_after (seq 0 i)
          /\ rollbacks (snd run) = S i
          /\ last (snd run) = Some Rollback)
    /\ (forall e,
          (1 <= m)%Z ->
          (forall j, (Z.of_nat j < m)%Z -> fails_retryably (func j)) ->
          raised (func (Z.to_nat (m - 1))) = Some e ->
          fst run = Raised e
          /\ calls (snd run) = seq 0 (Z.to_nat m)
          /\ sleeps (snd run) = map delay_after (seq 0 (Z.to_nat m - 1))
          /\ rollbacks (snd run) = Z.to_nat m
          /\ last (snd run) = Some Rollback)
    /\ (forall i r,
          (Z.of_nat i < m)%Z ->
          (forall j, j < i -> fails_retryably (func j)) ->
          func i = Committed r ->
          fst run = Returned r
          /\ calls (snd run) = seq 0 (S i)
          /\ sleeps (snd run) = map delay_after (seq 0 i)
          /\ rollbacks (snd run) = i).
  Proof.
    intros m run. split; [| split; [| split]].
    - intros e. unfold is_retryable_error.
      destruct (is_dbapi_error e); cbn [negb].
      + rewrite existsb_exists. split; [intros H; split; [reflexivity | exact H] |].
        intros [_ H]. exact H.
      + split; [discriminate | intros [H _]; discriminate].
    - intros i e Hi Hfail He Hnr.
      destruct (with_transaction_run func max_retries iso i Hi Hfail)
        as (H1 & H2 & H3 & H4 & H5).
      { intros e' He'. left. congruence. }
      fold run in H1, H2, H3, H4, H5. rewrite He in H4.
      repeat split; try assumption.
      + rewrite H1. apply final_result_raised. exact He.
      + rewrite H4. lia.
      + eapply H5. exact He.
    - intros e Hm Hfail He.
      destruct (with_transaction_run func max_retries iso (Z.to_nat (m - 1)))
        as (H1 & H2 & H3 & H4 & H5).
      { fold m. lia. }
      { intros j Hj. apply Hfail. lia. }
      { intros e' _. right. fold m. lia. }
      fold run in H1, H2, H3, H4, H5. rewrite He in H4.
      replace (S (Z.to_nat (m - 1))) with (Z.to_nat m) in H2 by lia.
      replace (Z.to_nat (m - 1)) with (Z.to_nat m - 1) in H3, H4 by lia.
      repeat split; try assumption.
      + rewrite H1. apply final_result_raised. exact He.
      + rewrite H4. lia.
      + eapply H5. exact He.
    - intros i r Hi Hfail Hok.
      destruct (with_transaction_run func max_retries iso i Hi Hfail)
        as (H1 & H2 & H3 & H4 & _).
      { intros e' He'. rewrite Hok in He'. discriminate. }
      fold run in H1, H2, H3, H4. rewrite Hok in H1, H4.
      repeat split; try assumption. rewrite H4. cbn. lia.
  Qed.
End WrapperFacts.

(** C9 at a concrete run: five attempts allowed, delays in milliseconds
    (base 100, backoff 2).  The third attempt raises an error that is not a
    database error and ends the run, after sleeps of 100 and 200. *)
Lemma with_transaction_retry_policy_witness :
  let run := with_transaction Z.mul 100%Z 2%Z (Some 5%Z) None true
               script_deadlock_then_fatal in
  fst run = Raised (MkError false "deadlock in the caller's own code")
  /\ calls (snd run) = [0; 1; 2]
  /\ sleeps (snd run) = [100%Z; 200%Z]
  /\ rollbacks (snd run) = 3
  /\ last (snd run) = Some Rollback.
Proof.
  refine (proj1 (proj2 (with_transaction_retry_policy Z.mul 100%Z 2%Z
            script_deadlock_then_fatal (Some 5%Z) None))
            2 (MkError false "deadlock in the caller's own code") _ _ _ _).
  - reflexivity.
  - intros j Hj. destruct j as [| [| j]]; [| | lia].
    + eexists. split; reflexivity.
    + eexists. split; reflexivity.
  - reflexivity.
  - reflexivity.
Defined.

(** *** The substring test and the bound on the attempts *)

Lemma prefix_append (p s : string) :
  String.prefix p s = true <-> exists b, s = String.append p b.
Proof.
  revert s. induction p as [| c p IH]; intros s.
  - split; [intros _; exists s; reflexivity | intros _; destruct s; reflexivity].
  - destruct s as [| c' s]; cbn; [split; [discriminate | intros [b [=]]] |].
    destruct (Ascii.ascii_dec c c') as [-> | Hne].
    + rewrite IH. split; intros [b Hb]; exists b.
      * change (String c' s = String c' (String.append p b)). congruence.
      * change (String c' s = String c' (String.append p b)) in Hb. congruence.
    + split; [discriminate |]. intros [b Hb].
      change (String c' s = String c (String.append p b)) in Hb. congruence.
Qed.

Lemma contains_append (p s : string) :
  contains p s = true <-> exists a b, s = String.append a (String.append p b).
Proof.
  induction s as [| c s IH].
  - cbn [contains]. rewrite orb_false_r, prefix_append. split.
    + intros [b Hb]. exists EmptyString, b. exact Hb.
    + intros (a & b & H). destruct a as [| c a]; [exists b; exact H |].
      change (EmptyString = String c (String.append a (String.append p b))) in H.
      discriminate.
  - cbn [contains]. rewrite orb_true_iff, prefix_append, IH. split.
    + intros [[b Hb] | (a & b & Hab)].
      * exists EmptyString, b. exact Hb.
      * exists (String c a), b. rewrite Hab. reflexivity.
    + intros (a & b & H). destruct a as [| c' a].
      * left. exists b. exact H.
      * right. change (String c s = String c' (String.append a (String.append p b))) in H.
        injection H as _ H. exists a, b. exact H.
Qed.


Section WrapperBounds.
Context {D : Type} (mul : D -> D -> D).
Context (RETRY_DELAY RETRY_BACKOFF : D).
Context {R : Type}.

Local Abbreviation retry_loop := (retry_loop mul RETRY_BACKOFF (R := R)).
Local Abbreviation delay_after := (delay_after mul RETRY_DELAY RETRY_BACKOFF).
Local Abbreviation with_transaction :=
    (with_transaction mul RETRY_DELAY RETRY_BACKOFF (R := R)).

  (** The loop entered with attempts left never falls through to the
      [RuntimeError]: it makes between one and [remaining] calls. *)
Lemma retry_loop_bounded (func : nat -> outcome) (max_retries : Z)
      (remaining attempt : nat) :
    (Z.of_nat attempt + Z.of_nat (S remaining) = max_retries)%Z ->
    let run := retry_loop func max_retries (S remaining) attempt (delay_after attempt) in
    fst run <> RaisedRuntimeError
    /\ exists n, n <= remaining
         /\ calls (snd run) = seq attempt (S n)
         /\ sleeps (snd run) = map delay_after (seq attempt n)
         /\ rollbacks (snd run)
            = (match fst run with Returned _ => n | _ => S n end).
  Proof.
    revert attempt. induction remaining as [| remaining IH]; intros attempt Hsum.
    - cbn zeta. cbn [Transaction.retry_loop].
      assert (Hlast : (Z.of_nat attempt <? max_retries - 1)%Z = false)
        by (apply Z.ltb_ge; lia).
      destruct (func attempt) as [r | e | e]; rewrite ?Hlast, ?andb_false_r; cbn;
        (split; [discriminate |]); exists 0; repeat split; lia.
    - cbn zeta.
      change (retry_loop func max_retries (S (S remaining)) attempt (delay_after attempt))
        with (match func attempt with
              | Committed r => (Returned r, try_events attempt (func attempt))
              | FuncRaised e | CommitRaised e =>
                  if is_retryable_error e && (Z.of_nat attempt <? max_retries - 1)%Z
                  then
                    let '(res, evs) :=
                      retry_loop func max_retries (S remaining) (S attempt)
                        (delay_after (S attempt)) in
                    (res, try_events attempt (func attempt)
                            ++ [Rollback; Sleep (delay_after attempt)] ++ evs)
                  else (Raised e, try_events attempt (func attempt) ++ [Rollback])
              end).
      specialize (IH (S attempt) ltac:(lia)). cbn zeta in IH.
      destruct (retry_loop func max_retries (S remaining) (S attempt)
                  (delay_after (S attempt))) as [res evs].
      cbn [fst snd] in IH. destruct IH as (Hne & n & Hn & Hc & Hs & Hr).
      destruct (func attempt) as [r | e | e]; cbn [try_events].
      + cbn. split; [discriminate |]. exists 0. repeat split; lia.
      + destruct (is_retryable_error e && _).
        * cbn [fst snd]. split; [exact Hne |]. exists (S n).
          split; [lia |]. rewrite !calls_app, !sleeps_app, !rollbacks_app, Hc, Hs, Hr.
          repeat split. destruct res; reflexivity.
        * cbn. split; [discriminate |]. exists 0. repeat split; lia.
      + destruct (is_retryable_error e && _).
        * cbn [fst snd]. split; [exact Hne |]. exists (S n).
          split; [lia |]. rewrite !calls_app, !sleeps_app, !rollbacks_app, Hc, Hs, Hr.
          repeat split. destruct res; reflexivity.
        * cbn. split; [discriminate |]. exists 0. repeat split; lia.
  Qed.

  (** Whatever the wrapped function does, a call of the wrapper with a
      session makes at most [max_retries] calls, numbered 0, 1, ... without
      a gap, and sleeps exactly between consecutive calls, for the base
      delay multiplied by the backoff once per earlier call.  The final
      [RuntimeError] is raised exactly when [max_retries] is not positive,
      and then the function is not called at all. *)
Theorem with_transaction_attempts_bounded (func : nat -> outcome)
      (max_retries : option Z) (iso : option IsolationLevel) :
    let m := default MAX_RETRIES max_retries in
    let run := with_transaction max_retries iso true func in
    (fst run = RaisedRuntimeError <-> (m <= 0)%Z)
    /\ ((m <= 0)%Z -> calls (snd run) = [] /\ sleeps (snd run) = [])
    /\ exists n, (Z.of_nat n <= Z.max 0 m)%Z
         /\ calls (snd run) = seq 0 n
         /\ sleeps (snd run) = map delay_after (seq 0 (n - 1)).
  Proof.
    cbn zeta. unfold Transaction.with_transaction. cbn [negb].
    set (m := default MAX_RETRIES max_retries).
    assert (Hpre : forall l : list (event (D := D)),
               sleeps (match iso with Some l0 => [SetIsolation l0] | None => [] end ++ l)
               = sleeps l
               /\ calls (match iso with Some l0 => [SetIsolation l0] | None => [] end ++ l)
                  = calls l).
    { intros l. destruct iso; split; reflexivity. }
    destruct (Z.to_nat m) as [| k] eqn:Hk.
    - cbn [Transaction.retry_loop fst snd].
      destruct (Hpre []) as [-> ->]. cbn.
      split; [split; [lia | reflexivity] |]. split; [auto |].
      exists 0. cbn. split; [lia | auto].
    - pose proof (retry_loop_bounded func m k 0 ltac:(lia)) as H. cbn zeta in H.
      change (delay_after 0) with RETRY_DELAY in H.
      destruct (retry_loop func m (S k) 0 RETRY_DELAY) as [res evs].
      cbn [fst snd] in *. destruct H as (Hne & n & Hn & Hc & Hs & _).
      destruct (Hpre evs) as [-> ->].
      split; [split; [contradiction | lia] |]. split; [lia |].
      exists (S n). rewrite Hc, Hs. split; [lia |].
      replace (S n - 1) with n by lia. auto.
  Qed.
End WrapperBounds.

Section MetricsFacts.
Context {D : Type} (zero : D) (add : D -> D -> D).

Local Abbreviation record_all := (record_all add).
Local Abbreviation metrics_init := (metrics_init zero).

Lemma record_all_counts (self : TransactionMetrics) (calls : list (D * Z * bool)) :
    total_transactions (record_all self calls)
    = (total_transactions self + Z.of_nat (length calls))%Z
    /\ total_retries (record_all self calls)
       = (total_retries self + fold_right Z.add 0%Z (map (fun c => c.1.2) calls))%Z
    /\ total_deadlocks (record_all self calls)
       = (total_deadlocks self
          + Z.of_nat (length (filter (fun c => c.2 = true) calls)))%Z
    /\ total_duration (record_all self calls)
       = fold_left add (map (fun c => c.1.1) calls) (total_duration self).
  Proof.
    revert self. induction calls as [| [[d r] b] calls IH]; intros self.
    - cbn. repeat split; lia.
    - change (record_all self ((d, r, b) :: calls))
        with (record_all (record_transaction add self d r b) calls).
      destruct (IH (record_transaction add self d r b)) as (H1 & H2 & H3 & H4).
      rewrite H1, H2, H3, H4. rewrite filter_cons.
      cbn [map fold_right fold_left length fst snd record_transaction
           total_transactions total_retries total_deadlocks total_duration].
      destruct b.
      + rewrite decide_True by reflexivity. cbn [length]. repeat split; lia.
      + rewrite decide_False by discriminate. repeat split; lia.
  Qed.

  (** After any sequence of [record_transaction] calls on a fresh
      instance, [total_transactions] is the number of calls,
      [total_retries] the sum of the retries, [total_deadlocks] the number
      of calls flagged as deadlocked, so it never exceeds
      [total_transactions], and [total_duration] the sum of the durations
      in call order. *)
Theorem metrics_after_recordings (calls : list (D * Z * bool)) :
    let m := record_all metrics_init calls in
    total_transactions m = Z.of_nat (length calls)
    /\ total_retries m = fold_right Z.add 0%Z (map (fun c => c.1.2) calls)
    /\ total_deadlocks m = Z.of_nat (length (filter (fun c => c.2 = true) calls))
    /\ (0 <= total_deadlocks m <= total_transactions m)%Z
    /\ total_duration m = fold_left add (map (fun c => c.1.1) calls) zero.
  Proof.
    cbn zeta. destruct (record_all_counts metrics_init calls) as (H1 & H2 & H3 & H4).
    cbn in H1, H2, H3, H4. rewrite H1, H2, H3, H4.
    repeat split; try lia.
    pose proof (length_filter (fun c : D * Z * bool => c.2 = true) calls). lia.
  Qed.
End MetricsFacts.

End TransactionFacts.

Module VClockFacts.
Import VClock.
Local Open Scope Z_scope.

Lemma dominates_spec (a b : t) :
  _vclock_dominates a b = true
  <-> N a >= N b /\ S a >= S b /\ (N a > N b \/ S a > S b).
Proof.
  unfold _vclock_dominates.
  rewrite !andb_true_iff, orb_true_iff.
  rewrite !Z.geb_le, !Z.gtb_lt. lia.
Qed.

Lemma eq_spec (a b : t) : a = b <-> N a = N b /\ S a = S b.
Proof.
  destruct a, b; cbn. split; [intros [= -> ->]; auto | intros [-> ->]; reflexivity].
Qed.

(** C3: for all normalised clocks [a] and [b], [dominates(a, a)] is
    false, [concurrent] is symmetric, and a clock that dominates another is
    not concurrent with it; [dominates(a, b)] holds exactly when every
    component of [a] is at least that of [b] and one is strictly greater,
    and [concurrent(a, b)] exactly when [a <> b] and neither dominates the
    other. *)
Theorem vclock_algebra (a b : t) :
  _vclock_dominates a a = false
  /\ _vclock_concurrent a b = _vclock_concurrent b a
  /\ (_vclock_dominates a b = true -> _vclock_concurrent a b = false)
  /\ (_vclock_dominates a b = true
      <-> N a >= N b /\ S a >= S b /\ (N a > N b \/ S a > S b))
  /\ (_vclock_concurrent a b = true
      <-> a <> b /\ _vclock_dominates a b = false /\ _vclock_dominates b a = false).
Proof.
  split; [| split; [| split; [| split]]].
  - apply not_true_is_false. rewrite dominates_spec. lia.
  - unfold _vclock_concurrent.
    destruct (decide (a = b)) as [-> | Hne].
    + rewrite !bool_decide_eq_true_2 by reflexivity. reflexivity.
    + rewrite !bool_decide_eq_false_2 by congruence. apply andb_comm.
  - intros H. unfold _vclock_concurrent. rewrite H.
    destruct (bool_decide (a = b)); reflexivity.
  - apply dominates_spec.
  - unfold _vclock_concurrent. destruct (decide (a = b)) as [-> | Hne].
    + rewrite bool_decide_eq_true_2 by reflexivity.
      split; [discriminate | intros [H _]; congruence].
    + rewrite bool_decide_eq_false_2 by exact Hne.
      rewrite andb_true_iff, !negb_true_iff. tauto.
Qed.

(** Two clocks are in exactly one of four relations. *)
Lemma vclock_cases (a b : t) :
  a = b \/ _vclock_dominates a b = true \/ _vclock_dominates b a = true
  \/ _vclock_concurrent a b = true.
Proof.
  destruct (decide (a = b)) as [| Hne]; [left; assumption | right].
  destruct (_vclock_dominates a b) eqn:Hab; [left; reflexivity | right].
  destruct (_vclock_dominates b a) eqn:Hba; [left; reflexivity | right].
  unfold _vclock_concurrent. rewrite bool_decide_eq_false_2 by exact Hne.
  rewrite Hab, Hba. reflexivity.
Qed.

(** Dominance is a strict partial order on clocks: it is transitive and
    asymmetric (C3 gives irreflexivity), and it is compatible with
    equality of the other side. *)
Theorem vclock_dominates_strict_order (a b c : t) :
  (_vclock_dominates a b = true -> _vclock_dominates b c = true ->
   _vclock_dominates a c = true)
  /\ (_vclock_dominates a b = true -> _vclock_dominates b a = false)
  /\ (_vclock_dominates a b = true -> a <> b).
Proof.
  split; [| split].
  - rewrite !dominates_spec. lia.
  - intros H. apply not_true_is_false. revert H. rewrite !dominates_spec. lia.
  - intros H ->. revert H. rewrite dominates_spec. lia.
Qed.

(** Two clocks stand in exactly one of the four relations the worker
    tells apart: equal, the first dominates, the second dominates, or
    concurrent. *)
Theorem vclock_exactly_one_relation (a b : t) :
  (a = b \/ _vclock_dominates a b = true \/ _vclock_dominates b a = true
   \/ _vclock_concurrent a b = true)
  /\ (a = b -> _vclock_dominates a b = false /\ _vclock_dominates b a = false
               /\ _vclock_concurrent a b = false)
  /\ (_vclock_dominates a b = true ->
      _vclock_dominates b a = false /\ _vclock_concurrent a b = false)
  /\ (_vclock_dominates b a = true -> _vclock_concurrent a b = false).
Proof.
  split; [apply vclock_cases |].
  assert (Hirr : forall x, _vclock_dominates x x = false).
  { intros x. apply not_true_is_false. rewrite dominates_spec. lia. }
  split; [| split].
  - intros ->. rewrite Hirr. unfold _vclock_concurrent.
    rewrite bool_decide_eq_true_2 by reflexivity. auto.
  - intros H. split.
    + apply not_true_is_false. revert H. rewrite !dominates_spec. lia.
    + unfold _vclock_concurrent. rewrite H. destruct (bool_decide _); reflexivity.
  - intros H. unfold _vclock_concurrent. rewrite H.
    destruct (bool_decide _); [reflexivity | apply andb_false_r].
Qed.

End VClockFacts.

Module WorkerFacts.
Import Py Worker Scenario.
Local Open Scope Z_scope.

(** *** Tables *)

Lemma table_of_put_table_eq (db tbl : string) (t : table) (w : world) :
  table_of (put_table db tbl t w) db tbl = t.
Proof.
  unfold table_of, db_of, put_table, set_dbs. cbn.
  rewrite lookup_insert_eq. cbn. rewrite lookup_insert_eq. reflexivity.
Qed.

Lemma table_of_put_table_ne (db tbl db' tbl' : string) (t : table) (w : world) :
  (db, tbl) <> (db', tbl') ->
  table_of (put_table db tbl t w) db' tbl' = table_of w db' tbl'.
Proof.
  intros Hne. unfold table_of, db_of, put_table, set_dbs. cbn.
  destruct (decide (db = db')) as [<- | Hdb].
  - rewrite lookup_insert_eq. cbn.
    rewrite lookup_insert_ne by congruence. reflexivity.
  - rewrite lookup_insert_ne by exact Hdb. reflexivity.
Qed.

Lemma db_of_put_table_ne (db tbl db' : string) (t : table) (w : world) :
  db <> db' -> db_of (put_table db tbl t w) db' = db_of w db'.
Proof.
  intros Hne. unfold db_of, put_table, set_dbs. cbn.
  rewrite lookup_insert_ne by exact Hne. reflexivity.
Qed.

Lemma put_table_put_table (db tbl : string) (t t' : table) (w : world) :
  put_table db tbl t' (put_table db tbl t w) = put_table db tbl t' w.
Proof.
  unfold put_table, set_dbs. cbn. f_equal.
  rewrite lookup_insert_eq. cbn.
  rewrite insert_insert_eq, insert_insert_eq. reflexivity.
Qed.

Lemma put_table_same (db tbl : string) (t : table) (w : world) :
  put_table db tbl t (put_table db tbl t w) = put_table db tbl t w.
Proof. apply put_table_put_table. Qed.

(** *** Upsert *)

Lemma apply_upsert_twice (payload : pydict) (t t' : table) :
  apply_upsert payload t = Ok t' -> apply_upsert payload t' = Ok t'.
Proof.
  unfold apply_upsert.
  destruct (payload !! "id") as [[| | i | | |] |]; try discriminate.
  destruct (bool_decide _); [discriminate |].
  intros [= <-]. f_equal.
  rewrite lookup_insert_eq. cbn.
  rewrite insert_insert_eq. f_equal.
  apply map_eq. intros k. rewrite !lookup_union.
  destruct (payload !! k), (default ∅ (t !! i) !! k); reflexivity.
Qed.

Section WithEnv.
Context (json_loads : string -> option value).
Context (int_of_str : string -> option Z).
Context (fault : string -> database -> stmt -> option exc).

Local Abbreviation _upsert_row := (_upsert_row fault).

  (** What a successful upsert stores. *)
Lemma upsert_row_ok (target_db tbl : string) (payload : pydict) (w w' : world) :
    _upsert_row target_db tbl payload w = (Ok tt, w') ->
    let payload' := _normalize_payload_for_target target_db payload in
    exists i,
      payload' !! "id" = Some (VInt i)
      /\ fault target_db (db_of w target_db) (Upsert tbl payload') = None
      /\ w' = put_table target_db tbl
                (<[i := payload' ∪ default ∅ (table_of w target_db tbl !! i)]>
                   (table_of w target_db tbl)) w.
  Proof.
    unfold Worker._upsert_row. cbn zeta.
    set (p := _normalize_payload_for_target target_db payload).
    destruct (p !! "id") as [v |] eqn:Hid; [| discriminate].
    destruct (fault target_db (db_of w target_db) (Upsert tbl p)) eqn:Hf; [discriminate |].
    unfold apply_upsert. rewrite Hid.
    destruct v as [| | i | | |]; try discriminate.
    destruct (bool_decide _); [discriminate |].
    intros [= <-]. exists i. auto.
  Qed.

  (** A failed upsert changes nothing. *)
Lemma upsert_row_raise (target_db tbl : string) (payload : pydict) (w w' : world) (e : exc) :
    _upsert_row target_db tbl payload w = (Raise e, w') -> w' = w.
  Proof.
    unfold Worker._upsert_row. cbn zeta.
    destruct (_ !! "id"); [| intros [= _ <-]; reflexivity].
    destruct (fault _ _ _); [intros [= _ <-]; reflexivity |].
    destruct (apply_upsert _ _); intros [= <-]; congruence.
  Qed.

End WithEnv.

(** *** What a computation leaves alone *)

Section Keeps.
Context (R : world -> world -> Prop) `{!PreOrder R}.

Lemma keeps_ret {A} (a : A) : keeps R (ret a).
  Proof. intros w. cbn. reflexivity. Qed.

Lemma keeps_raise {A} (e : exc) : keeps R (raise (A := A) e).
  Proof. intros w. cbn. reflexivity. Qed.

Lemma keeps_read {A} (f : world -> A) : keeps R (read f).
  Proof. intros w. cbn. reflexivity. Qed.

Lemma keeps_lift {A} (o : option A) : keeps R (lift o).
  Proof. destruct o; [apply keeps_ret | apply keeps_raise]. Qed.

Lemma keeps_bind {A B} (m : M A) (k : A -> M B) :
    keeps R m -> (forall a, keeps R (k a)) -> keeps R (bind m k).
  Proof.
    intros Hm Hk w. unfold bind. specialize (Hm w).
    destruct (m w) as [[a | e] w1]; cbn in *; [| exact Hm].
    etransitivity; [exact Hm | apply Hk].
  Qed.

Lemma keeps_try_except {A} (m : M A) (h : exc -> M A) :
    keeps R m -> (forall e, keeps R (h e)) -> keeps R (try_except m h).
  Proof.
    intros Hm Hh w. unfold try_except. specialize (Hm w).
    destruct (m w) as [[a | e] w1]; cbn in *; [exact Hm |].
    etransitivity; [exact Hm | apply Hh].
  Qed.
End Keeps.

(** Inversion of a bind. *)
Lemma bind_inv {A B} (m : M A) (k : A -> M B) (w w' : world) (r : res B) :
  bind m k w = (r, w') ->
  (exists a w1, m w = (Ok a, w1) /\ k a w1 = (r, w'))
  \/ (exists e, m w = (Raise e, w') /\ r = Raise e).
Proof.
  unfold bind. destruct (m w) as [[a | e] w1].
  - intros H. left. eauto.
  - intros [= <- <-]. right. eauto.
Qed.

Lemma lift_inv {A} (o : option A) (w w' : world) (r : res A) :
  lift o w = (r, w') ->
  w' = w /\ r = match o with Some a => Ok a | None => Raise OtherException end.
Proof. destruct o; intros [= <- <-]; auto. Qed.

#[local] Instance same_hub_preorder : PreOrder same_hub.
Proof.
  split.
  - intros w. repeat split.
  - intros a b c (H1 & H2 & H3) (H4 & H5 & H6). repeat split; congruence.
Qed.

#[local] Instance same_data_preorder : PreOrder same_data.
Proof.
  split.
  - intros w. repeat split.
  - intros a b c (H1 & H2 & H3) (H4 & H5 & H6). repeat split; congruence.
Qed.

Create HintDb keeps discriminated.
#[local] Hint Resolve keeps_ret keeps_raise keeps_read keeps_lift : keeps.

(** Walk through a computation: binds, handlers and case distinctions,
    closing the leaves with the [keeps] hints. *)
Ltac keeps_step :=
  match goal with
  | |- keeps ?R (bind _ _) => apply (keeps_bind R); [| intros ?]
  | |- keeps ?R (try_except _ _) => apply (keeps_try_except R); [| intros ?]
  | |- keeps _ (match ?x with _ => _ end) => destruct x
  | |- keeps _ _ => solve [eauto with keeps typeclass_instances]
  end.
Ltac keeps_tac := repeat keeps_step.

Section Frames.
Context (json_loads : string -> option value).
Context (int_of_str : string -> option Z).
Context (fault : string -> database -> stmt -> option exc).

Lemma keeps_write_hub (f : world -> world) :
    (forall w, same_hub w (f w)) -> keeps same_hub (write f).
  Proof. intros H w. apply H. Qed.

Lemma upsert_row_same_hub (db tbl : string) (p : pydict) :
    keeps same_hub (_upsert_row fault db tbl p).
  Proof.
    intros w. unfold _upsert_row.
    destruct (_ !! "id"); [| cbn; reflexivity].
    destruct (fault _ _ _); [cbn; reflexivity |].
    destruct (apply_upsert _ _); cbn; [| reflexivity]. repeat split.
  Qed.

Lemma delete_row_same_hub (db tbl : string) (i : Z) :
    keeps same_hub (_delete_row fault db tbl i).
  Proof.
    intros w. unfold _delete_row. destruct (fault _ _ _); cbn; [reflexivity |].
    repeat split.
  Qed.

Lemma update_v_clock_same_hub (db tbl : string) (i : Z) (v : string) :
    keeps same_hub (update_v_clock fault db tbl i v).
  Proof.
    intros w. unfold update_v_clock. destruct (fault _ _ _); cbn; [reflexivity |].
    repeat split.
  Qed.

Lemma record_conflict_same_hub (tbl : string) (i : Z) (s t : string) (p : pydict) :
    keeps same_hub (_record_conflict tbl i s t p).
  Proof. intros w. repeat split. Qed.

Lemma bump_daily_stat_same_hub (f : string) : keeps same_hub (_bump_daily_stat f).
  Proof. intros w. repeat split. Qed.

Lemma select_current_row_same_hub (db tbl : string) (i : Z) :
    keeps same_hub (_select_current_row db tbl i).
  Proof. apply keeps_read. apply _. Qed.

Lemma select_edge_row_same_hub (db tbl : string) (i : Z) :
    keeps same_hub (_select_edge_row db tbl i).
  Proof. apply keeps_read. apply _. Qed.

Lemma select_profile_id_same_hub (db : string) (i : Z) :
    keeps same_hub (_select_profile_id_by_user_id db i).
  Proof. apply keeps_read. apply _. Qed.

Hint Resolve upsert_row_same_hub delete_row_same_hub update_v_clock_same_hub
    record_conflict_same_hub bump_daily_stat_same_hub select_current_row_same_hub
    select_edge_row_same_hub select_profile_id_same_hub : keeps.

Lemma map_user_id_same_hub (o t : string) (i : Z) :
    keeps same_hub (_map_user_id_by_unique o t i).
  Proof. unfold _map_user_id_by_unique. keeps_tac. Qed.
Hint Resolve map_user_id_same_hub : keeps.

Lemma ensure_parent_same_hub (o t p : string) (i : Z) :
    keeps same_hub (_ensure_parent_present fault o t p i).
  Proof. unfold _ensure_parent_present. keeps_tac. Qed.
Hint Resolve ensure_parent_same_hub : keeps.

Lemma retry_upsert_same_hub (t tbl : string) (p : pydict) :
    keeps same_hub (retry_upsert fault t tbl p).
  Proof. unfold retry_upsert. keeps_tac. Qed.
Hint Resolve retry_upsert_same_hub : keeps.

Lemma smart_fix_same_hub (o : string) (k : VClock.key) (row : EdgeLogRow)
      (p : pydict) (v : VClock.t) :
    keeps same_hub (smart_fix json_loads int_of_str fault o k row p v).
  Proof. unfold smart_fix. keeps_tac. Qed.

Lemma replicate_to_same_hub (o : string) (row : EdgeLogRow) (p : pydict)
      (v : VClock.t) (t : string) :
    keeps same_hub (replicate_to json_loads int_of_str fault o row p v t).
  Proof. unfold replicate_to. keeps_tac. Qed.

Lemma handle_replication_error_same_hub (o t : string) (row : EdgeLogRow)
      (p : pydict) (e : exc) :
    keeps same_hub (handle_replication_error int_of_str fault o t row p e).
  Proof.
    unfold handle_replication_error, then_repair, repair_pg_profile_fk,
      repair_pg_profile_unique, repair_pg_user_unique, repair_my_item_fk,
      repair_my_profile_fk.
    keeps_tac.
  Qed.

Hint Resolve smart_fix_same_hub replicate_to_same_hub
    handle_replication_error_same_hub : keeps.

Lemma replicate_all_same_hub (o : string) (row : EdgeLogRow) (p : pydict)
      (v : VClock.t) (targets : list string) :
    keeps same_hub (replicate_all json_loads int_of_str fault o row p v targets).
  Proof.
    induction targets as [| t targets IH]; cbn [replicate_all]; keeps_tac.
  Qed.
End Frames.

Section Process.
Context (json_loads : string -> option value).
Context (int_of_str : string -> option Z).
Context (fault : string -> database -> stmt -> option exc).

Local Abbreviation _process_edge_row :=
    (_process_edge_row json_loads int_of_str fault).
Local Abbreviation smart_fix := (smart_fix json_loads int_of_str fault).
Local Abbreviation replicate_all := (replicate_all json_loads int_of_str fault).
Local Abbreviation replicate_to := (replicate_to json_loads int_of_str fault).

  (** The event a smart fix returns differs from the one it was given in
      [new_data] at most. *)
Lemma smart_fix_row (o : string) (k : VClock.key) (row : EdgeLogRow) (p : pydict)
      (v : VClock.t) (w w' : world) (row' : EdgeLogRow) (p' : pydict) (v' : VClock.t) :
    smart_fix o k row p v w = (Ok (row', p', v'), w') ->
    log_id row' = log_id row /\ table_name row' = table_name row
    /\ data_id row' = data_id row /\ operation row' = operation row
    /\ old_data row' = old_data row.
  Proof.
    unfold Worker.smart_fix.
    destruct (is_insert_or_update _); [| intros [= <- _ _ _]; auto].
    unfold bind at 1. destruct (lift _ w) as [[[|] | e] w1]; try discriminate.
    - unfold try_except, bind.
      destruct (update_v_clock _ _ _ _ _ w1) as [[[] | e] w2].
      + intros [= <- _ _ _]. cbn. auto.
      + destruct (is_SQLAlchemyError e); [intros [= <- _ _ _]; auto | discriminate].
    - intros [= <- _ _ _]. auto.
  Qed.

  (** What [_process_edge_row] does to the hub tables and the change logs:
      it marks its own log entry, exactly when it returns [True]. *)
Lemma process_edge_row_log (o : string) (k : VClock.key) (row : EdgeLogRow)
      (targets : list string) (w w' : world) (r : res bool) :
    _process_edge_row o k row targets w = (r, w') ->
    sync_worker_state w' = sync_worker_state w
    /\ sync_configs w' = sync_configs w
    /\ sync_log w'
       = match r with
         | Ok true => mark_log o (log_id row) (sync_log w)
         | _ => sync_log w
         end.
  Proof.
    unfold Worker._process_edge_row.
    destruct (negb _); [intros [= <- <-]; cbn; auto |].
    destruct (source_snapshot row) as [| | | | | p];
      try (intros [= <- <-]; cbn; auto; fail).
    intros H.
    apply bind_inv in H as [(v & w1 & Hv & H) | (e & Hv & ->)];
      apply lift_inv in Hv as [-> Hv]; [| auto].
    apply bind_inv in H as [([[row' p'] v'] & w2 & Hsf & H) | (e & Hsf & ->)].
    2: { pose proof (smart_fix_same_hub json_loads int_of_str fault o k row p v w) as Hfix.
         rewrite Hsf in Hfix. exact Hfix. }
    pose proof (smart_fix_same_hub json_loads int_of_str fault o k row p v w) as Hfix.
    rewrite Hsf in Hfix. cbn [snd] in Hfix. destruct Hfix as (F1 & F2 & F3).
    destruct (smart_fix_row _ _ _ _ _ _ _ _ _ _ Hsf) as (Hid & _).
    apply bind_inv in H as [(ok & w3 & Hrep & H) | (e & Hrep & ->)].
    2: { pose proof (replicate_all_same_hub json_loads int_of_str fault o row' p' v'
                       targets w2) as Hr.
         rewrite Hrep in Hr. destruct Hr as (G1 & G2 & G3). cbn [snd] in *.
         repeat split; congruence. }
    pose proof (replicate_all_same_hub json_loads int_of_str fault o row' p' v'
                  targets w2) as Hr.
    rewrite Hrep in Hr. destruct Hr as (G1 & G2 & G3). cbn [snd] in *.
    destruct ok; injection H as <- <-; cbn; rewrite ?Hid; repeat split; congruence.
  Qed.

  (** C10: an event on a table that is not tracked, or whose relevant
      snapshot ([new_data] for INSERT/UPDATE, [old_data] otherwise) is not a
      dict, is answered with [True] after marking the origin's log entry
      processed, and nothing else happens: the business tables of every
      database, the conflict records, the statistics and the cursors are
      as before, and the outcome is the same whatever the target list and
      whatever the business tables hold (no row of a target is read). *)
Theorem untracked_or_malformed_event_skipped (o : string) (k : VClock.key)
      (row : EdgeLogRow) (targets : list string) (w : world) :
    table_name row ∉ TRACKED_TABLES \/ is_dict (source_snapshot row) = false ->
    _process_edge_row o k row targets w
    = (Ok true, set_sync_log (mark_log o (log_id row)) w)
    /\ (forall d targets',
          _process_edge_row o k row targets' (set_dbs (fun _ => d) w)
          = (Ok true, set_dbs (fun _ => d) (set_sync_log (mark_log o (log_id row)) w)))
    /\ (forall log entry,
          sync_log w !! o = Some log -> log !! log_id row = Some entry ->
          exists log',
            sync_log (set_sync_log (mark_log o (log_id row)) w) !! o = Some log'
            /\ (sl_status <$> log' !! log_id row) = Some 1
            /\ (forall id, id <> log_id row -> log' !! id = log !! id)).
  Proof.
    intros H.
    assert (Hrun : forall w0 tg,
               _process_edge_row o k row tg w0
               = (Ok true, set_sync_log (mark_log o (log_id row)) w0)).
    { intros w0 tg. unfold Worker._process_edge_row.
      destruct H as [H | H].
      - rewrite bool_decide_eq_false_2 by exact H. reflexivity.
      - destruct (negb _); [reflexivity |].
        destruct (source_snapshot row); try discriminate; reflexivity. }
    split; [apply Hrun |]. split; [intros d tg; apply Hrun |].
    intros log entry Hlog Hentry. unfold mark_log. cbn. rewrite Hlog.
    exists (alter mark_processed (log_id row) log).
    rewrite lookup_insert_eq. split; [reflexivity |].
    split.
    - rewrite lookup_alter_eq, Hentry. reflexivity.
    - intros id Hne. rewrite lookup_alter_ne by congruence. reflexivity.
  Qed.
End Process.

(** C10 on the two events of [hub_with_log]: each is answered with [True],
    its log entry gets status 1, and the item at the hub is untouched. *)
Lemma untracked_or_malformed_event_skipped_witness :
  _process_edge_row no_json no_int no_fault "mariadb" VClock.KN untracked_event
    ["mysql"; "postgres"] hub_with_log
  = (Ok true, set_sync_log (mark_log "mariadb" 11) hub_with_log)
  /\ _process_edge_row no_json no_int no_fault "mariadb" VClock.KN malformed_event
       ["mysql"; "postgres"] hub_with_log
     = (Ok true, set_sync_log (mark_log "mariadb" 12) hub_with_log)
  /\ (sl_status <$> (sync_log (set_sync_log (mark_log "mariadb" 12) hub_with_log)
                       !! "mariadb") ≫= (fun log => log !! 12)) = Some 1.
Proof.
  split; [| split].
  - refine (proj1 (untracked_or_malformed_event_skipped no_json no_int no_fault
                     "mariadb" VClock.KN untracked_event ["mysql"; "postgres"]
                     hub_with_log _)).
    left. vm_compute. intros [=].
  - refine (proj1 (untracked_or_malformed_event_skipped no_json no_int no_fault
                     "mariadb" VClock.KN malformed_event ["mysql"; "postgres"]
                     hub_with_log _)).
    right. reflexivity.
  - vm_compute. reflexivity.
Defined.

(** The next auto-increment key is above every key in use. *)
Lemma next_id_above {A} (m : gmap Z A) (k : Z) : is_Some (m !! k) -> k < next_id m.
Proof.
  unfold next_id.
  assert (H : forall k, is_Some (m !! k) ->
                        k <= map_fold (fun k _ acc => Z.max k acc) 0 m).
  { apply (map_fold_weak_ind
             (fun r (m : gmap Z A) => forall k, is_Some (m !! k) -> k <= r)).
    - intros j [x Hx]. rewrite lookup_empty in Hx. discriminate.
    - intros i x m0 r Hi IH j Hj.
      destruct (decide (i = j)) as [-> | Hne]; [lia |].
      rewrite lookup_insert_ne in Hj by exact Hne. specialize (IH j Hj). lia. }
  intros Hk. specialize (H k Hk). lia.
Qed.

Lemma next_id_fresh {A} (m : gmap Z A) : m !! next_id m = None.
Proof.
  destruct (m !! next_id m) eqn:E; [| reflexivity].
  pose proof (next_id_above m (next_id m) (mk_is_Some _ _ E)). lia.
Qed.

Section Decision.
Context (json_loads : string -> option value).
Context (int_of_str : string -> option Z).
Context (fault : string -> database -> stmt -> option exc).

Local Abbreviation replicate_to := (replicate_to json_loads int_of_str fault).
Local Abbreviation _parse_vclock := (_parse_vclock json_loads int_of_str).

Lemma replicate_to_unfold (o : string) (row : EdgeLogRow) (p : pydict)
      (v : VClock.t) (t : string) (w : world) (cv : VClock.t) :
    _parse_vclock (get (default ∅ (table_of w t (table_name row) !! data_id row))
                     "v_clock") = Some cv ->
    replicate_to o row p v t w
    = (let current := table_of w t (table_name row) !! data_id row in
       if String.eqb (operation row) "DELETE" then
         if may_overwrite current v cv then
           (_delete_row fault t (table_name row) (data_id row) ;;;
            _bump_daily_stat "sync_success_count") w
         else if VClock._vclock_concurrent v cv then
           (Ok tt, with_conflict (table_name row) (data_id row) o t
                     (delete_conflict_payload o t row v cv current) w)
         else (Ok tt, w)
       else
         if may_overwrite current v cv then
           (_upsert_row fault t (table_name row) p ;;;
            _bump_daily_stat "sync_success_count") w
         else if VClock._vclock_dominates cv v then (Ok tt, w)
         else
           (Ok tt, with_conflict (table_name row) (data_id row) o t
                     (update_conflict_payload o t row v cv current) w)).
  Proof.
    intros Hcv. unfold Worker.replicate_to, bind at 1, _select_current_row, read.
    unfold bind at 1. rewrite Hcv. cbn [lift ret]. cbn zeta.
    fold (may_overwrite (table_of w t (table_name row) !! data_id row) v cv).
    destruct (String.eqb (operation row) "DELETE");
      destruct (may_overwrite _ v cv); try reflexivity.
    - destruct (VClock._vclock_concurrent v cv); reflexivity.
    - destruct (VClock._vclock_dominates cv v); reflexivity.
  Qed.

Lemma conflict_payload_reason (o t : string) (row : EdgeLogRow) (v cv : VClock.t)
      (current : option pydict) :
    (match _json_safe (VDict (update_conflict_payload o t row v cv current)) with
     | VDict d => d !! "reason"
     | _ => None
     end) = Some (VStr "vector_clock_conflict")
    /\ (match _json_safe (VDict (delete_conflict_payload o t row v cv current)) with
        | VDict d => d !! "reason"
        | _ => None
        end) = Some (VStr "vector_clock_conflict_delete").
  Proof.
    split; cbn [_json_safe]; rewrite lookup_fmap;
      unfold update_conflict_payload, delete_conflict_payload; cbn [list_to_map foldr];
      repeat (rewrite lookup_insert_ne by (intros [=]));
      rewrite lookup_insert_eq; reflexivity.
  Qed.

Lemma may_overwrite_spec (current : option pydict) (v cv : VClock.t) :
    may_overwrite current v cv = true
    <-> current = None \/ VClock._vclock_dominates v cv = true \/ v = cv.
  Proof.
    unfold may_overwrite. rewrite !orb_true_iff, !bool_decide_eq_true. tauto.
  Qed.

End Decision.

(** *** A concrete scenario: one item at the hub and one change event *)



Lemma strip_lookup (d : pydict) (key : string) :
  filter (fun kv : string * value => kv.1 ∉ non_semantic) d !! key
  = if decide (key ∈ non_semantic) then None else d !! key.
Proof.
  rewrite map_lookup_filter.
  destruct (decide (key ∈ non_semantic)) as [Hin | Hnin].
  - destruct (d !! key); cbn; [| reflexivity].
    rewrite option_guard_False by (cbn; tauto). reflexivity.
  - destruct (d !! key); cbn; [| reflexivity].
    rewrite option_guard_True by (cbn; exact Hnin). reflexivity.
Qed.

Lemma strip_differs_iff (old new : pydict) :
  _strip_non_semantic_fields (VDict old) <> _strip_non_semantic_fields (VDict new)
  <-> exists key, (key ∉ non_semantic) /\ (old !! key) <> (new !! key).
Proof.
  cbn [_strip_non_semantic_fields]. split.
  - intros Hne.
    destruct (decide (set_Exists
                        (fun key => (key ∉ non_semantic) /\ (old !! key) <> (new !! key))
                        (dom old ∪ dom new))) as [(key & _ & H) | Hno].
    { exists key. exact H. }
    exfalso. apply Hne. f_equal. apply map_eq. intros key.
    rewrite !strip_lookup. destruct (decide (key ∈ non_semantic)); [reflexivity |].
    destruct (decide ((old !! key) = (new !! key))) as [| Hdiff]; [assumption |].
    exfalso. apply Hno. exists key. split; [| auto].
    apply elem_of_union. rewrite !elem_of_dom.
    destruct (old !! key); [left; eauto |].
    destruct (new !! key); [right; eauto | congruence].
  - intros (key & Hnin & Hdiff) [= Heq].
    apply (f_equal (fun m => m !! key)) in Heq.
    rewrite !strip_lookup in Heq.
    destruct (decide (key ∈ non_semantic)); [contradiction | congruence].
Qed.

Section SmartFix.
Context (json_loads : string -> option value).
Context (int_of_str : string -> option Z).
Context (fault : string -> database -> stmt -> option exc).

Local Abbreviation _process_edge_row :=
    (_process_edge_row json_loads int_of_str fault).
Local Abbreviation smart_fix := (smart_fix json_loads int_of_str fault).
Local Abbreviation replicate_all := (replicate_all json_loads int_of_str fault).
Local Abbreviation _parse_vclock := (_parse_vclock json_loads int_of_str).
Local Abbreviation needs_fix := (needs_fix json_loads int_of_str).

Lemma bumped_components (k : VClock.key) (v : VClock.t) :
    VClock.component k (bumped k v) = VClock.component k v + 1
    /\ VClock.component (other_key k) (bumped k v) = VClock.component (other_key k) v.
  Proof. destruct k, v; cbn; auto. Qed.

Lemma smart_fix_applies (o : string) (k : VClock.key) (row : EdgeLogRow)
      (p : pydict) (v : VClock.t) (w : world) :
    is_insert_or_update (operation row) = true ->
    needs_fix k row v = Some true ->
    fault o (db_of w o)
      (UpdateVClock (table_name row) (data_id row) (dumps_vclock (bumped k v))) = None ->
    let p' := <["v_clock" := VStr (dumps_vclock (bumped k v))]> p in
    smart_fix o k row p v w
    = (Ok (fixed_row row p', p', bumped k v),
       put_table o (table_name row)
         (alter (insert "v_clock" (VStr (dumps_vclock (bumped k v)))) (data_id row)
            (table_of w o (table_name row))) w).
  Proof.
    intros Hop Hfix Hf. cbn zeta. unfold Worker.smart_fix.
    rewrite Hop. unfold bind at 1. rewrite Hfix. cbn [lift ret].
    unfold try_except, bind, update_v_clock. fold (bumped k v). rewrite Hf.
    reflexivity.
  Qed.

Lemma needs_fix_changed (k : VClock.key) (row : EdgeLogRow) (v : VClock.t)
      (old new : pydict) (ov : VClock.t) :
    old_data row = VDict old -> new_data row = VDict new ->
    _parse_vclock (get old "v_clock") = Some ov ->
    _parse_vclock (get new "v_clock") = Some ov ->
    (exists key, (key ∉ non_semantic) /\ (old !! key) <> (new !! key)) ->
    needs_fix k row v = Some true.
  Proof.
    intros Ho Hn Hov Hnv Hdiff. unfold Worker.needs_fix.
    rewrite Ho, Hn, Hov, Hnv.
    rewrite bool_decide_eq_true_2 by reflexivity.
    rewrite bool_decide_eq_false_2 by (apply strip_differs_iff; exact Hdiff).
    reflexivity.
  Qed.

Lemma needs_fix_insert (k : VClock.key) (row : EdgeLogRow) (v : VClock.t) :
    is_dict (old_data row) = false -> operation row = "INSERT" ->
    VClock.component k v <= 0 ->
    needs_fix k row v = Some true.
  Proof.
    intros Ho Hop Hle. unfold Worker.needs_fix. rewrite Hop. cbn [String.eqb].
    replace (VClock.component k v <=? 0) with true by (symmetry; apply Z.leb_le; exact Hle).
    destruct (old_data row); try discriminate; destruct (new_data row); reflexivity.
  Qed.

End SmartFix.



(** *** The batch and the cursor *)

#[local] Instance by_log_id_trans : Transitive by_log_id.
Proof. intros a b c. unfold by_log_id. lia. Qed.
#[local] Instance by_log_id_total : Total by_log_id.
Proof. intros a b. unfold by_log_id. lia. Qed.

Lemma sorted_nodup_strict {A} (key : A -> Z) (l : list A) :
  StronglySorted (fun a b => key a <= key b) l -> NoDup (map key l) ->
  StronglySorted (fun a b => key a < key b) l.
Proof.
  induction 1 as [| x l Hs IH Hx]; intros Hnd; [constructor |].
  cbn in Hnd. apply NoDup_cons in Hnd as [Hnin Hnd].
  constructor; [apply IH; exact Hnd |].
  rewrite Forall_forall in Hx |- *. intros y Hy.
  specialize (Hx y Hy).
  assert (key x <> key y).
  { intros Heq. apply Hnin. rewrite Heq. apply list_elem_of_fmap_2. exact Hy. }
  lia.
Qed.

Section Fetch.
Context (json_loads : string -> option value).

Local Abbreviation _fetch_edge_logs := (_fetch_edge_logs json_loads).

  (** [_fetch_edge_logs] changes nothing and returns the pending entries
      after the cursor by strictly ascending id, without skipping one: an
      entry that is pending, after the cursor and below an entry of the
      batch is in the batch. *)
Lemma fetch_edge_logs_spec (o : string) (after limit : Z) (w w' : world)
      (batch : list EdgeLogRow) :
    _fetch_edge_logs o after limit w = (Ok batch, w') ->
    w' = w
    /\ ascending batch
    /\ Forall (fun row => after < log_id row /\ pending o w (log_id row)) batch
    /\ Z.of_nat (length batch) <= limit
    /\ (forall row id, row ∈ batch -> after < id < log_id row -> pending o w id ->
                       id ∈ map log_id batch).
  Proof.
    unfold Worker._fetch_edge_logs.
    destruct (Z.ltb_spec limit 0) as [| Hlim]; [discriminate |].
    set (log := default ∅ (sync_log w !! o)).
    set (pend := filter (fun kv : Z * sync_log_row => sl_status kv.2 = 0 /\ after < kv.1)
                   (map_to_list log)).
    set (sorted := merge_sort by_log_id pend).
    intros [= <- <-]. split; [reflexivity |].
    assert (Hperm : sorted ≡ₚ pend) by apply merge_sort_Permutation.
    assert (Hss : StronglySorted by_log_id sorted)
      by (apply StronglySorted_merge_sort; apply _).
    assert (Hnd : NoDup (map fst sorted)).
    { rewrite Hperm. unfold pend.
      assert (Hsub : map fst pend `sublist_of` map fst (map_to_list log))
        by (apply fmap_sublist, sublist_filter).
      exact (sublist_NoDup _ _ (NoDup_fst_map_to_list log) Hsub). }
    assert (Hstrict : StronglySorted (fun a b : Z * sync_log_row => a.1 < b.1) sorted).
    { apply sorted_nodup_strict; assumption. }
    assert (Hmem : forall kv, kv ∈ sorted ->
                     after < kv.1 /\ sl_status kv.2 = 0 /\ log !! kv.1 = Some kv.2).
    { intros kv Hkv. rewrite Hperm in Hkv. unfold pend in Hkv.
      apply list_elem_of_filter in Hkv as [[H1 H2] H3].
      destruct kv as [i e]. apply elem_of_map_to_list in H3. auto. }
    set (f := fun kv : Z * sync_log_row =>
                MkEdgeLogRow kv.1 (sl_table_name kv.2) (sl_data_id kv.2)
                  (upper (sl_operation kv.2)) (_parse_json_maybe json_loads (sl_old_data kv.2))
                  (_parse_json_maybe json_loads (sl_new_data kv.2)) (sl_occurred_at kv.2)).
    assert (Htake : StronglySorted (fun a b : Z * sync_log_row => a.1 < b.1)
                      (take (Z.to_nat limit) sorted)).
    { rewrite <- (take_drop (Z.to_nat limit) sorted) in Hstrict.
      eapply StronglySorted_app_1_l. exact Hstrict. }
    split; [| split; [| split]].
    - unfold ascending. change (map f (take (Z.to_nat limit) sorted))
        with (f <$> take (Z.to_nat limit) sorted).
      apply (StronglySorted_fmap f (fun a b : Z * sync_log_row => a.1 < b.1)
               (fun a b : EdgeLogRow => log_id a < log_id b)); [| exact Htake].
      intros a b Hab. exact Hab.
    - apply Forall_forall. intros row Hrow.
      apply list_elem_of_fmap in Hrow as (kv & -> & Hkv).
      apply elem_of_take in Hkv as (i & Hkv & _).
      apply list_elem_of_lookup_2 in Hkv.
      destruct (Hmem kv Hkv) as (H1 & H2 & H3). cbn. split; [exact H1 |].
      exists log, kv.2. split; [| auto].
      unfold log in *. destruct (sync_log w !! o); [reflexivity |].
      cbn in H3. rewrite lookup_empty in H3. discriminate.
    - rewrite length_map, length_take. lia.
    - intros row id Hrow Hid (log0 & entry & Hlog & Hentry & Hst).
      apply list_elem_of_fmap in Hrow as (kv & -> & Hkv). cbn in Hid.
      assert (Hin : (id, entry) ∈ sorted).
      { rewrite Hperm. unfold pend. apply list_elem_of_filter. split; [cbn; lia |].
        apply elem_of_map_to_list. unfold log. rewrite Hlog. exact Hentry. }
      rewrite <- (take_drop (Z.to_nat limit) sorted) in Hin, Hstrict.
      apply elem_of_app in Hin as [Hin | Hin].
      + apply list_elem_of_fmap. exists (f (id, entry)). split; [reflexivity |].
        apply list_elem_of_fmap. exists (id, entry). auto.
      + exfalso.
        pose proof (StronglySorted_app_1_elem_of _ _ _ _ _ Hstrict Hkv Hin) as Hlt.
        cbn in Hlt. lia.
  Qed.
End Fetch.

Lemma mark_log_lookup (o : string) (id : Z) (logs : gmap string (gmap Z sync_log_row))
    (o' : string) :
  mark_log o id logs !! o'
  = if decide (o' = o) then alter mark_processed id <$> logs !! o else logs !! o'.
Proof.
  unfold mark_log. destruct (decide (o' = o)) as [-> | Hne].
  - destruct (logs !! o) eqn:E; [rewrite lookup_insert_eq; reflexivity | rewrite E; reflexivity].
  - destruct (logs !! o); [rewrite lookup_insert_ne by congruence |]; reflexivity.
Qed.

Lemma mark_processed_idem (e : sync_log_row) :
  mark_processed (mark_processed e) = mark_processed e.
Proof. reflexivity. Qed.

(** Marking touches the entries of [done] in the origin's log and nothing
    else. *)
Lemma mark_all_lookup (o : string) (done : list EdgeLogRow)
    (logs : gmap string (gmap Z sync_log_row)) :
  (forall o', o' <> o -> mark_all o done logs !! o' = logs !! o')
  /\ (logs !! o = None -> mark_all o done logs !! o = None)
  /\ (forall log, logs !! o = Some log ->
        exists log', mark_all o done logs !! o = Some log'
          /\ forall id, log' !! id
               = if decide (id ∈ map log_id done)
                 then mark_processed <$> log !! id else log !! id).
Proof.
  revert logs. induction done as [| row done IH]; intros logs.
  - cbn. split; [auto |]. split; [auto |]. intros log Hlog. exists log.
    split; [exact Hlog |]. intros id. destruct (decide _) as [H | _]; [| reflexivity].
    apply elem_of_nil in H. destruct H.
  - cbn [mark_all foldl]. fold (mark_all o done (mark_log o (log_id row) logs)).
    destruct (IH (mark_log o (log_id row) logs)) as (IH1 & IH2 & IH3).
    split; [| split].
    + intros o' Hne. rewrite IH1 by exact Hne. rewrite mark_log_lookup.
      destruct (decide (o' = o)); [contradiction | reflexivity].
    + intros Hn. apply IH2. rewrite mark_log_lookup.
      destruct (decide (o = o)); [| contradiction]. rewrite Hn. reflexivity.
    + intros log Hlog.
      destruct (IH3 (alter mark_processed (log_id row) log)) as (log' & Hl' & Hids).
      { rewrite mark_log_lookup. destruct (decide (o = o)); [| contradiction].
        rewrite Hlog. reflexivity. }
      exists log'. split; [exact Hl' |]. intros id. rewrite Hids.
      cbn [map]. destruct (decide (id = log_id row)) as [-> | Hne].
      * rewrite lookup_alter_eq.
        destruct (decide (log_id row ∈ map log_id done)),
                 (decide (log_id row ∈ log_id row :: map log_id done)) as [| Hn];
          try reflexivity.
        -- destruct (log !! log_id row); reflexivity.
        -- exfalso. apply Hn. left.
        -- exfalso. apply Hn. left.
      * rewrite lookup_alter_ne by congruence.
        destruct (decide (id ∈ map log_id done)) as [Hin | Hnin],
                 (decide (id ∈ log_id row :: map log_id done)) as [Hin' | Hnin'];
          try reflexivity.
        -- exfalso. apply Hnin'. right. exact Hin.
        -- exfalso. apply elem_of_cons in Hin' as [| Hin']; [contradiction |].
           apply Hnin. exact Hin'.
Qed.

Lemma foldl_max_ge (l : list Z) (c : Z) : c <= foldl Z.max c l.
Proof.
  revert c. induction l as [| x l IH]; intros c; cbn; [lia |].
  specialize (IH (Z.max c x)). lia.
Qed.

Lemma foldl_max_ascending (done : list EdgeLogRow) (c : Z) :
  ascending done -> Forall (fun row => c < log_id row) done ->
  foldl Z.max c (map log_id done) = last_committed c done.
Proof.
  unfold last_committed. revert c.
  induction done as [| row done IH]; intros c Hs Hc; [reflexivity |].
  apply StronglySorted_inv in Hs as [Hs Hrow].
  apply Forall_cons in Hc as [Hc0 Hc].
  cbn [map foldl]. replace (Z.max c (log_id row)) with (log_id row) by lia.
  rewrite IH by assumption.
  rewrite (last_cons (log_id row)).
  destruct (last (map log_id done)); reflexivity.
Qed.

Section Batch.
Context (json_loads : string -> option value).
Context (int_of_str : string -> option Z).
Context (fault : string -> database -> stmt -> option exc).

Local Abbreviation _process_edge_row :=
    (_process_edge_row json_loads int_of_str fault).
Local Abbreviation process_rows := (process_rows json_loads int_of_str fault).

  (** The [for row in rows] loop processes a prefix [done] of the rows, in
      order, and stops at the first row that is not processed: the rows of
      [done] are marked, nothing else in the logs or the hub tables
      changes, and [max_committed] is the maximum over [done]. *)
Lemma process_rows_spec (o : string) (k : VClock.key) (targets : list string)
      (rows : list EdgeLogRow) (mc : Z) (w w' : world) (res : res Z) :
    process_rows o k targets rows mc w = (res, w') ->
    exists done rest,
      rows = done ++ rest
      /\ sync_log w' = mark_all o done (sync_log w)
      /\ sync_worker_state w' = sync_worker_state w
      /\ sync_configs w' = sync_configs w
      /\ match res with
         | Ok mc' =>
             mc' = foldl Z.max mc (map log_id done)
             /\ (rest = []
                 \/ exists row rest' w1,
                      rest = row :: rest'
                      /\ fst (_process_edge_row o k row targets w1) = Ok false)
         | Raise e =>
             exists row rest' w1,
               rest = row :: rest'
               /\ fst (_process_edge_row o k row targets w1) = Raise e
         end.
  Proof.
    revert mc w. induction rows as [| row rows IH]; intros mc w H.
    - injection H as <- <-. exists [], []. cbn. auto 10.
    - cbn [Worker.process_rows] in H.
      apply bind_inv in H as [(ok & w1 & Hp & H) | (e & Hp & ->)].
      + destruct (process_edge_row_log _ _ _ _ _ _ _ _ _ _ Hp) as (F1 & F2 & F3).
        destruct ok.
        * destruct (IH _ _ H) as (done & rest & -> & G1 & G2 & G3 & G4).
          exists (row :: done), rest. cbn [mark_all foldl map].
          fold (mark_all o done (mark_log o (log_id row) (sync_log w))).
          rewrite <- F3. repeat split; try congruence.
        * injection H as <- <-. exists [], (row :: rows). cbn.
          repeat split; try assumption. right. exists row, rows, w.
          rewrite Hp. auto.
      + destruct (process_edge_row_log _ _ _ _ _ _ _ _ _ _ Hp) as (F1 & F2 & F3).
        exists [], (row :: rows). cbn. repeat split; try assumption.
        exists row, rows, w. rewrite Hp. auto.
  Qed.
End Batch.

Lemma load_cursor_spec (name : string) (w : world) :
  exists w0,
    _load_cursor name w = (Ok (default 0 (sync_worker_state w !! name)), w0)
    /\ sync_log w0 = sync_log w /\ sync_configs w0 = sync_configs w
    /\ dbs w0 = dbs w /\ conflict_records w0 = conflict_records w
    /\ (forall n, default 0 (sync_worker_state w0 !! n)
                  = default 0 (sync_worker_state w !! n)).
Proof.
  unfold _load_cursor. destruct (sync_worker_state w !! name) as [c |] eqn:E.
  - exists w. cbn. auto 10.
  - eexists. split; [reflexivity |]. cbn. repeat split.
    intros n. destruct (decide (n = name)) as [-> | Hne].
    + rewrite lookup_insert_eq, E. reflexivity.
    + rewrite lookup_insert_ne by congruence. reflexivity.
Qed.

Lemma touch_spec (ids : list Z) (now : Z) (w : world) :
  exists w', _touch_scheduled_last_run ids now w = (Ok tt, w')
    /\ sync_log w' = sync_log w /\ sync_worker_state w' = sync_worker_state w
    /\ dbs w' = dbs w /\ conflict_records w' = conflict_records w
    /\ (forall id, sync_configs w' !! id
          = (fun cfg => if bool_decide (id ∈ ids) then touch now cfg else cfg)
              <$> sync_configs w !! id).
Proof.
  unfold _touch_scheduled_last_run. destruct ids as [| i ids].
  - exists w. cbn. repeat split. intros id.
    rewrite bool_decide_eq_false_2 by (apply not_elem_of_nil).
    destruct (sync_configs w !! id); reflexivity.
  - eexists. split; [reflexivity |]. cbn. repeat split.
    intros id. rewrite map_lookup_imap.
    destruct (sync_configs w !! id); reflexivity.
Qed.

Lemma cursor_name_inj (o o' : string) : cursor_name o = cursor_name o' -> o = o'.
Proof. unfold cursor_name. cbn. intros [= H]. exact H. Qed.

Section Round.
Context (json_loads : string -> option value).
Context (int_of_str : string -> option Z).
Context (fault : string -> database -> stmt -> option exc).

Local Abbreviation _process_edge_row :=
    (_process_edge_row json_loads int_of_str fault).
Local Abbreviation origin_round := (origin_round json_loads int_of_str fault).
Local Abbreviation round := (round json_loads int_of_str fault).
Local Abbreviation worker_steps := (worker_steps json_loads int_of_str fault).

  (** One origin in one round: the batch is [done ++ rest]; the rows of
      [done] were processed in order and are marked; the first row of
      [rest], if any, is the one whose processing failed. *)
Lemma origin_round_batch (batch_size : Z) (force : bool) (now1 now2 : Z)
      (o : string) (k : VClock.key) (w w' : world) (r : res bool) :
    origin_round batch_size force now1 now2 o k w = (r, w') ->
    exists (targets : list string) (done rest : list EdgeLogRow),
      ascending (done ++ rest)
      /\ Forall (fun row => cursor_value o w < log_id row /\ pending o w (log_id row))
           (done ++ rest)
      /\ (forall row id, row ∈ done ++ rest -> cursor_value o w < id < log_id row ->
                         pending o w id -> id ∈ map log_id (done ++ rest))
      /\ sync_log w' = mark_all o done (sync_log w)
      /\ (forall n, n <> cursor_name o ->
                    default 0 (sync_worker_state w' !! n)
                    = default 0 (sync_worker_state w !! n))
      /\ match r with
         | Ok _ => cursor_value o w' = last_committed (cursor_value o w) done
         | Raise _ => cursor_value o w' = cursor_value o w
         end
      /\ (forall row rest', rest = row :: rest' ->
            cursor_value o w' < log_id row
            /\ exists w1, fst (_process_edge_row o k row targets w1) <> Ok true).
  Proof.
    intros H. unfold Worker.origin_round in H.
    destruct (load_cursor_spec (cursor_name o) w) as (w0 & Hload & L1 & L2 & L3 & L4 & L5).
    fold (cursor_value o w) in Hload.
    assert (Hpend : forall id, pending o w0 id -> pending o w id).
    { intros id. unfold pending. rewrite L1. auto. }
    apply bind_inv in H as [(last & w1 & Hl & H) | (e & Hl & ->)];
      rewrite Hload in Hl; [| discriminate].
    injection Hl as <- <-.
    apply bind_inv in H as [([targets ids] & w1 & Hres & H) | (e & Hres & ->)];
      [| discriminate].
    injection Hres as Hres <-.
    destruct targets as [| t targets].
    { injection H as <- <-. exists [], [], []. cbn [app].
      split; [constructor |]. split; [constructor |].
      split; [intros row id Hin; apply elem_of_nil in Hin; destruct Hin |].
      split; [exact L1 |]. split; [intros n _; apply L5 |].
      split; [apply L5 |]. intros row rest' [=]. }
    apply bind_inv in H as [(rows & w1 & Hf & H) | (e & Hf & ->)].
    2: { unfold _fetch_edge_logs in Hf. destruct (batch_size <? 0); [| discriminate].
         injection Hf as _ <-.
         exists (t :: targets), [], []. cbn [app].
         split; [constructor |]. split; [constructor |].
         split; [intros row id Hin; apply elem_of_nil in Hin; destruct Hin |].
         split; [exact L1 |]. split; [intros n _; apply L5 |].
         split; [apply L5 |]. intros row rest' [=]. }
    destruct (fetch_edge_logs_spec _ _ _ _ _ _ _ Hf) as (-> & Hasc & Hall & _ & Hgap).
    destruct rows as [| row0 rows0].
    { destruct (touch_spec ids now2 w0) as (w2 & Ht & T1 & T2 & _).
      apply bind_inv in H as [([] & w3 & Ht' & H) | (e & Ht' & ->)];
        rewrite Ht in Ht'; [| discriminate].
      injection Ht' as <-. injection H as <- <-.
      exists (t :: targets), [], []. cbn [app].
      split; [constructor |]. split; [constructor |].
      split; [intros row id Hin; apply elem_of_nil in Hin; destruct Hin |].
      split; [cbn; congruence |].
      split; [intros n _; rewrite T2; apply L5 |].
      split; [unfold cursor_value; rewrite T2; apply L5 |]. intros row rest' [=]. }
    set (rows := row0 :: rows0) in *.
    apply bind_inv in H as [(mc & w2 & Hp & H) | (e & Hp & ->)].
    - destruct (process_rows_spec _ _ _ _ _ _ _ _ _ _ _ Hp)
        as (done & rest & Hsplit & P1 & P2 & P3 & -> & Hstop).
      destruct (touch_spec ids now2
                  (set_sync_worker_state (insert (cursor_name o) (foldl Z.max (cursor_value o w) (map log_id done))) w2))
        as (w4 & Ht & T1 & T2 & _).
      unfold _store_cursor, write, bind in H. rewrite Ht in H.
      injection H as <- <-.
      rewrite Hsplit in Hasc, Hall, Hgap.
      assert (Hall' : Forall (fun row => cursor_value o w < log_id row
                                         /\ pending o w (log_id row)) (done ++ rest)).
      { eapply Forall_impl; [exact Hall |]. cbn. intros row [H1 H2]. split; [exact H1 | apply Hpend; exact H2]. }
      assert (Hmc : foldl Z.max (cursor_value o w) (map log_id done)
                    = last_committed (cursor_value o w) done).
      { apply foldl_max_ascending.
        - eapply StronglySorted_app_1_l. exact Hasc.
        - apply Forall_app in Hall' as [Hd _].
          eapply Forall_impl; [exact Hd |]. cbn. intros row [H1 _]. exact H1. }
      assert (Hcur : cursor_value o w4 = last_committed (cursor_value o w) done).
      { unfold cursor_value at 1. rewrite T2. cbn. rewrite lookup_insert_eq. exact Hmc. }
      exists (t :: targets), done, rest.
      split; [exact Hasc |]. split; [exact Hall' |].
      split; [intros row id Hin Hid Hp'; apply (Hgap row id Hin Hid); unfold pending;
              rewrite L1; exact Hp' |].
      split; [rewrite T1; cbn; rewrite P1, L1; reflexivity |].
      split; [intros n Hn; rewrite T2; cbn; rewrite lookup_insert_ne by congruence;
              rewrite P2; apply L5 |].
      split; [exact Hcur |].
      intros row rest' ->. rewrite Hcur. split.
      + unfold last_committed. destruct (last (map log_id done)) as [x |] eqn:El; cbn.
        * apply last_Some in El as (l' & El).
          assert (Hx : exists rx, rx ∈ done /\ log_id rx = x).
          { assert (Hin : x ∈ map log_id done) by (rewrite El; apply elem_of_app; right; left).
            apply list_elem_of_fmap in Hin as (rx & -> & Hrx). eauto. }
          destruct Hx as (rx & Hrx & <-).
          apply (StronglySorted_app_1_elem_of _ _ _ _ _ Hasc Hrx). left.
        * apply Forall_app in Hall' as [_ Hr]. apply Forall_cons in Hr as [[Hr _] _].
          exact Hr.
      + destruct Hstop as [Hnil | (row' & rest'' & w1 & Heq & Hfalse)];
          [discriminate Hnil |].
        injection Heq as <- <-. exists w1. rewrite Hfalse. discriminate.
    - destruct (process_rows_spec _ _ _ _ _ _ _ _ _ _ _ Hp)
        as (done & rest & Hsplit & P1 & P2 & P3 & (row' & rest'' & w1 & -> & Hraise)).
      rewrite Hsplit in Hasc, Hall, Hgap.
      assert (Hall' : Forall (fun row => cursor_value o w < log_id row
                                         /\ pending o w (log_id row)) (done ++ row' :: rest'')).
      { eapply Forall_impl; [exact Hall |]. cbn. intros row [H1 H2]. split; [exact H1 | apply Hpend; exact H2]. }
      assert (Hcur : cursor_value o w' = cursor_value o w).
      { unfold cursor_value. rewrite P2. apply L5. }
      exists (t :: targets), done, (row' :: rest'').
      split; [exact Hasc |]. split; [exact Hall' |].
      split; [intros row id Hin Hid Hp'; apply (Hgap row id Hin Hid); unfold pending;
              rewrite L1; exact Hp' |].
      split; [rewrite P1, L1; reflexivity |].
      split; [intros n Hn; rewrite P2; apply L5 |].
      split; [exact Hcur |].
      intros row rest' [= <- <-]. rewrite Hcur. split.
      + apply Forall_app in Hall' as [_ Hr]. apply Forall_cons in Hr as [[Hr _] _].
        exact Hr.
      + exists w1. rewrite Hraise. discriminate.
  Qed.

Lemma last_committed_ge (c : Z) (done : list EdgeLogRow) :
    Forall (fun row => c < log_id row) done -> c <= last_committed c done.
  Proof.
    intros H. unfold last_committed.
    destruct (last (map log_id done)) as [x |] eqn:El; cbn; [| lia].
    apply last_Some in El as (l' & El).
    assert (Hin : x ∈ map log_id done) by (rewrite El; apply elem_of_app; right; left).
    apply list_elem_of_fmap in Hin as (rx & -> & Hrx).
    rewrite Forall_forall in H. specialize (H rx Hrx). lia.
  Qed.

  (** No entry of [sync_worker_state] read as a cursor goes down in one
      origin's turn, whether the turn ends normally or raises. *)
Lemma origin_round_cursor_le (batch_size : Z) (force : bool) (now1 now2 : Z)
      (o : string) (k : VClock.key) (w : world) (n : string) :
    default 0 (sync_worker_state w !! n)
    <= default 0 (sync_worker_state
                    (snd (origin_round batch_size force now1 now2 o k w)) !! n).
  Proof.
    destruct (origin_round batch_size force now1 now2 o k w) as [r w'] eqn:H.
    destruct (origin_round_batch _ _ _ _ _ _ _ _ _ H)
      as (targets & done & rest & _ & Hall & _ & _ & Hother & Hcur & _).
    cbn [snd]. destruct (decide (n = cursor_name o)) as [-> | Hne].
    - fold (cursor_value o w) (cursor_value o w').
      destruct r; rewrite Hcur; [| lia].
      apply last_committed_ge. apply Forall_app in Hall as [Hd _].
      eapply Forall_impl; [exact Hd |]. cbn. intros row [H1 _]. exact H1.
    - rewrite Hother by exact Hne. lia.
  Qed.

Lemma origins_loop_cursor_le (batch_size : Z) (force : bool) (clk : round_clock)
      (origins : list (string * VClock.key)) (p : bool) (w : world) (n : string) :
    default 0 (sync_worker_state w !! n)
    <= default 0 (sync_worker_state
                    (snd (origins_loop json_loads int_of_str fault batch_size force clk
                            origins p w)) !! n).
  Proof.
    revert p w. induction origins as [| [o k] origins IH]; intros p w; cbn; [lia |].
    unfold bind.
    pose proof (origin_round_cursor_le batch_size force (resolve_at clk o)
                  (touch_at clk o) o k w n) as H1.
    destruct (origin_round batch_size force (resolve_at clk o) (touch_at clk o) o k w)
      as [[b | e] w1]; cbn [snd] in *; [| exact H1].
    specialize (IH (b || p) w1). lia.
  Qed.

  (** One pass of the main loop never lowers a cursor. *)
Lemma round_cursor_le (batch_size : Z) (clk : round_clock) (lmc : Z) (w : world)
      (n : string) :
    default 0 (sync_worker_state w !! n)
    <= default 0 (sync_worker_state (snd (round batch_size clk lmc w)) !! n).
  Proof.
    unfold Worker.round, bind, _load_manual_trigger_counter, read.
    pose proof (origins_loop_cursor_le batch_size
                  (default 0 (sync_worker_state w !! "manual_trigger") >? lmc)
                  clk EDGE_ORIGINS false w n) as H.
    destruct (origins_loop _ _ _ _ _ _ _ _ _) as [[b | e] w1]; exact H.
  Qed.

End Round.

(** *** Scheduling *)

#[local] Instance by_config_id_trans : Transitive by_config_id.
Proof. intros a b c. unfold by_config_id. lia. Qed.
#[local] Instance by_config_id_total : Total by_config_id.
Proof. intros a b. unfold by_config_id. lia. Qed.

Lemma elem_of_enabled_links (origin : string) (w : world) (id : Z) (cfg : SyncConfig) :
  (id, cfg) ∈ enabled_links origin w <-> link_of origin w id cfg.
Proof.
  unfold enabled_links, link_of. rewrite merge_sort_Permutation.
  rewrite list_elem_of_filter, elem_of_map_to_list. cbn. tauto.
Qed.

Lemma resolve_loop_spec (force : bool) (now : Z) (configs : list (Z * SyncConfig))
    (targets : gset string) (ids : list Z) :
  let r := resolve_loop force now configs targets ids in
  (forall t, t ∈ r.1 <->
     t ∈ targets
     \/ exists id cfg, (id, cfg) ∈ configs /\ target cfg = t
          /\ (mode_of cfg = "realtime" \/ runs_scheduled force now cfg))
  /\ r.2 = ids ++ map fst (filter (fun kv => runs_scheduled force now kv.2) configs).
Proof.
  revert targets ids. induction configs as [| [id cfg] configs IH]; intros targets ids.
  - cbn. split; [| rewrite app_nil_r; reflexivity].
    intros t. split; [auto |]. intros [H | (i & c & H & _)]; [exact H |].
    apply elem_of_nil in H. destruct H.
  - cbn [resolve_loop].
    assert (Hcons : forall (P : Z * SyncConfig -> Prop) t,
               (exists i c, (i, c) ∈ (id, cfg) :: configs /\ target c = t /\ P (i, c))
               <-> (target cfg = t /\ P (id, cfg))
                   \/ exists i c, (i, c) ∈ configs /\ target c = t /\ P (i, c)).
    { intros P t. split.
      - intros (i & c & Hin & Ht & HP). apply elem_of_cons in Hin as [[= -> ->] | Hin];
          [left; auto | right; eauto].
      - intros [[Ht HP] | (i & c & Hin & Ht & HP)];
          [exists id, cfg; split; [left |]; auto
          | exists i, c; split; [right; exact Hin | auto]]. }
    destruct (String.eqb (mode_of cfg) "realtime") eqn:Hrt.
    { apply String.eqb_eq in Hrt.
      destruct (IH ({[target cfg]} ∪ targets) ids) as [IH1 IH2]. cbn zeta in *.
      split.
      - intros t. rewrite IH1.
        rewrite (Hcons (fun kv => mode_of kv.2 = "realtime" \/ runs_scheduled force now kv.2)).
        cbn. rewrite elem_of_union, elem_of_singleton. split.
        + intros [[-> | H] | H]; auto.
        + intros [H | [[<- _] | H]]; auto.
      - rewrite IH2. rewrite filter_cons_False; [reflexivity |].
        cbn. unfold runs_scheduled. rewrite Hrt. intros [[=] _]. }
    apply String.eqb_neq in Hrt.
    destruct (String.eqb (mode_of cfg) "scheduled") eqn:Hsc; cbn [negb].
    2: { apply String.eqb_neq in Hsc.
         destruct (IH targets ids) as [IH1 IH2]. cbn zeta in *. split.
         - intros t. rewrite IH1.
           rewrite (Hcons (fun kv => mode_of kv.2 = "realtime" \/ runs_scheduled force now kv.2)).
           cbn. unfold runs_scheduled at 2. split; [tauto |].
           intros [H | [[_ [H | [H _]]] | H]]; auto; contradiction.
         - rewrite IH2. rewrite filter_cons_False; [reflexivity |].
           cbn. unfold runs_scheduled. tauto. }
    apply String.eqb_eq in Hsc.
    destruct (force || is_due now cfg) eqn:Hdue.
    + apply orb_true_iff in Hdue.
      destruct (IH ({[target cfg]} ∪ targets) (ids ++ [id])) as [IH1 IH2]. cbn zeta in *.
      split.
      * intros t. rewrite IH1.
        rewrite (Hcons (fun kv => mode_of kv.2 = "realtime" \/ runs_scheduled force now kv.2)).
        cbn. rewrite elem_of_union, elem_of_singleton. split.
        -- intros [[-> | H] | H]; auto. right. left. split; [reflexivity |].
           right. split; assumption.
        -- intros [H | [[<- _] | H]]; auto.
      * rewrite IH2. rewrite filter_cons_True by (cbn; split; assumption).
        cbn. rewrite <- app_assoc. reflexivity.
    + apply orb_false_iff in Hdue as [Hf Hd].
      destruct (IH targets ids) as [IH1 IH2]. cbn zeta in *. split.
      * intros t. rewrite IH1.
        rewrite (Hcons (fun kv => mode_of kv.2 = "realtime" \/ runs_scheduled force now kv.2)).
        cbn. unfold runs_scheduled at 2. split; [tauto |].
        intros [H | [[_ [H | [_ [H | H]]]] | H]]; auto; congruence.
      * rewrite IH2. rewrite filter_cons_False; [reflexivity |].
        cbn. unfold runs_scheduled. intros [_ [H | H]]; congruence.
Qed.

(** What [_resolve_targets_and_due_scheduled] returns. *)
Lemma resolve_targets_spec (origin : string) (force : bool) (now : Z) (w : world) :
  exists targets ids,
    _resolve_targets_and_due_scheduled origin force now w = (Ok (targets, ids), w)
    /\ (forall id, id ∈ ids <->
          exists cfg, link_of origin w id cfg /\ runs_scheduled force now cfg)
    /\ (forall t, t ∈ targets <->
          exists id cfg, link_of origin w id cfg /\ target cfg = t
                         /\ (mode_of cfg = "realtime" \/ id ∈ ids)).
Proof.
  unfold _resolve_targets_and_due_scheduled, read.
  destruct (resolve_loop_spec force now (enabled_links origin w) ∅ []) as [H1 H2].
  destruct (resolve_loop force now (enabled_links origin w) ∅ []) as [tg ids].
  cbn [fst snd] in *. cbn [app] in H2.
  exists (merge_sort str_le (elements tg)), ids. split; [reflexivity |].
  assert (Hids : forall id, id ∈ ids <->
            exists cfg, link_of origin w id cfg /\ runs_scheduled force now cfg).
  { intros id. rewrite H2. rewrite list_elem_of_fmap. split.
    - intros ([i c] & -> & Hin). apply list_elem_of_filter in Hin as [Hr Hin].
      apply elem_of_enabled_links in Hin. exists c. auto.
    - intros (cfg & Hl & Hr). exists (id, cfg). split; [reflexivity |].
      apply list_elem_of_filter. split; [exact Hr |].
      apply elem_of_enabled_links. exact Hl. }
  split; [exact Hids |].
  intros t. rewrite merge_sort_Permutation, elem_of_elements, H1. split.
  - intros [H | (id & cfg & Hin & Ht & Hm)]; [set_solver |].
    apply elem_of_enabled_links in Hin. exists id, cfg.
    split; [exact Hin |]. split; [exact Ht |].
    destruct Hm as [Hm | Hm]; [left; exact Hm | right].
    apply Hids. exists cfg. auto.
  - intros (id & cfg & Hl & Ht & Hm). right. exists id, cfg.
    split; [apply elem_of_enabled_links; exact Hl |]. split; [exact Ht |].
    destruct Hm as [Hm | Hm]; [left; exact Hm | right].
    apply Hids in Hm as (cfg' & (Hl' & _) & Hr).
    destruct Hl as (Hl & _). rewrite Hl in Hl'. injection Hl' as <-. exact Hr.
Qed.

Lemma is_due_spec (now : Z) (cfg : SyncConfig) :
  (is_due now cfg = true <->
   last_run_at cfg = None
   \/ exists last, last_run_at cfg = Some last
                   /\ now - last >= interval_of cfg * 1000000)
  /\ (is_due now cfg = true ->
      last_run_at cfg = None
      \/ exists last, last_run_at cfg = Some last
                      /\ now - last >= interval_seconds cfg * 1000000).
Proof.
  unfold is_due, interval_of.
  destruct (last_run_at cfg) as [last |]; [| split; [split |]; auto].
  rewrite Z.geb_le. split.
  - split; [intros H; right; exists last; split; [reflexivity | lia] |].
    intros [[=] | (l & [= <-] & H)]. lia.
  - intros H. right. exists last. split; [reflexivity |].
    destruct (Z.eqb_spec (interval_seconds cfg) 0) as [-> |]; lia.
Qed.

Lemma resolve_targets_configs (origin : string) (force : bool) (now : Z) (w w0 : world) :
  sync_configs w0 = sync_configs w ->
  _resolve_targets_and_due_scheduled origin force now w0
  = (fst (_resolve_targets_and_due_scheduled origin force now w), w0).
Proof.
  intros H. unfold _resolve_targets_and_due_scheduled, read, enabled_links. cbn.
  rewrite H. reflexivity.
Qed.

Section Schedule.
Context (json_loads : string -> option value).
Context (int_of_str : string -> option Z).
Context (fault : string -> database -> stmt -> option exc).

Local Abbreviation origin_round := (origin_round json_loads int_of_str fault).
Local Abbreviation round := (round json_loads int_of_str fault).

  (** A turn that ends normally stamps exactly the scheduled links that
      ran, whether or not there were events to replicate. *)
Lemma origin_round_touches (batch_size : Z) (force : bool) (now1 now2 : Z)
      (o : string) (k : VClock.key) (w w' : world) (p : bool) :
    origin_round batch_size force now1 now2 o k w = (Ok p, w') ->
    exists targets ids,
      _resolve_targets_and_due_scheduled o force now1 w = (Ok (targets, ids), w)
      /\ forall id, sync_configs w' !! id
           = (fun cfg => if bool_decide (id ∈ ids) then touch now2 cfg else cfg)
               <$> sync_configs w !! id.
  Proof.
    intros H. unfold Worker.origin_round in H.
    destruct (load_cursor_spec (cursor_name o) w) as (w0 & Hload & L1 & L2 & L3 & L4 & L5).
    destruct (resolve_targets_spec o force now1 w) as (targets & ids & Hres & Hids & Htg).
    exists targets, ids. split; [exact Hres |].
    apply bind_inv in H as [(last & w1 & Hl & H) | (e & Hl & [=])].
    rewrite Hload in Hl. injection Hl as <- <-.
    apply bind_inv in H as [([targets' ids'] & w1 & Hres' & H) | (e & _ & [=])].
    rewrite (resolve_targets_configs o force now1 w w0 L2), Hres in Hres'.
    injection Hres' as <- <- <-.
    destruct targets as [| t targets].
    { injection H as _ <-. intros id. rewrite L2.
      rewrite bool_decide_eq_false_2.
      - destruct (sync_configs w !! id); reflexivity.
      - intros Hin. apply Hids in Hin as (cfg & Hl & Hm & Hr).
        assert (Ht : target cfg ∈ @nil string).
        { apply Htg. exists id, cfg. split; [exact Hl |]. split; [reflexivity |].
          right. apply Hids. exists cfg. split; [exact Hl | split; assumption]. }
        apply elem_of_nil in Ht. exact Ht. }
    apply bind_inv in H as [(rows & w1 & Hf & H) | (e & _ & [=])].
    destruct (fetch_edge_logs_spec _ _ _ _ _ _ _ Hf) as (-> & _).
    destruct rows as [| row0 rows0].
    { destruct (touch_spec ids now2 w0) as (w2 & Ht & _ & _ & _ & _ & T).
      apply bind_inv in H as [([] & w3 & Ht' & H) | (e & _ & [=])].
      rewrite Ht in Ht'. injection Ht' as <-. injection H as _ <-.
      intros id. rewrite T, L2. reflexivity. }
    apply bind_inv in H as [(mc & w2 & Hp & H) | (e & _ & [=])].
    destruct (process_rows_spec _ _ _ _ _ _ _ _ _ _ _ Hp)
      as (done & rest & _ & _ & _ & P3 & _).
    destruct (touch_spec ids now2
                (set_sync_worker_state (insert (cursor_name o) mc) w2))
      as (w4 & Ht & _ & _ & _ & _ & T).
    unfold _store_cursor, write, bind in H. rewrite Ht in H. injection H as _ <-.
    intros id. rewrite T. cbn. rewrite P3, L2. reflexivity.
  Qed.

End Schedule.

(** *** More about the helpers of the worker *)

(** The clock the smart fix writes dominates the clock it replaces, so the
    fixed event overwrites a target that still holds the old clock; and
    two edges that bump their own components of the same clock end up
    concurrent. *)
Theorem bumped_clock_dominates (k : VClock.key) (v : VClock.t) :
  VClock._vclock_dominates (bumped k v) v = true
  /\ VClock._vclock_dominates v (bumped k v) = false
  /\ may_overwrite (Some ∅) (bumped k v) v = true
  /\ VClock._vclock_concurrent (bumped VClock.KN v) (bumped VClock.KS v) = true.
Proof.
  assert (H1 : VClock._vclock_dominates (bumped k v) v = true).
  { apply VClockFacts.dominates_spec. destruct k, v; cbn; lia. }
  split; [exact H1 |]. split; [| split].
  - apply not_true_is_false. rewrite VClockFacts.dominates_spec.
    destruct k, v; cbn; lia.
  - unfold may_overwrite. rewrite H1. rewrite orb_true_r. reflexivity.
  - unfold VClock._vclock_concurrent.
    rewrite bool_decide_eq_false_2
      by (destruct v; cbn; intros [= H _]; lia).
    apply andb_true_iff. split; apply negb_true_iff, not_true_is_false;
      rewrite VClockFacts.dominates_spec; destruct v; cbn; lia.
Qed.

Section Parsing.
Context (json_loads : string -> option value).
Context (int_of_str : string -> option Z).

Local Abbreviation _parse_vclock := (_parse_vclock json_loads int_of_str).
Local Abbreviation _parse_json_maybe := (_parse_json_maybe json_loads).
Local Abbreviation int_or_0 := (int_or_0 int_of_str).

(** [_parse_vclock] reads back the dict of a normalised clock; a missing
    value, or a dict without the two components, is the zero clock; and
    the only way it raises is a dict with a component [int()] rejects. *)
Theorem parse_vclock_defaults (v : VClock.t) (x : value) (d : pydict) :
  _parse_vclock (VDict (vclock_dict v)) = Some v
  /\ _parse_vclock VNone = Some (VClock.Mk 0 0)
  /\ (d !! "N" = None -> d !! "S" = None ->
      _parse_vclock (VDict d) = Some (VClock.Mk 0 0))
  /\ (is_dict (_parse_json_maybe x) = false ->
      _parse_vclock x = Some (VClock.Mk 0 0))
  /\ (_parse_vclock x = None ->
      exists d', _parse_json_maybe x = VDict d'
                 /\ (int_or_0 d' "N" = None \/ int_or_0 d' "S" = None)).
Proof.
  split; [| split; [| split; [| split]]].
  - destruct v as [n s]. unfold Worker._parse_vclock, Worker.int_or_0, vclock_dict,
      get_default. cbn [Worker._parse_json_maybe VClock.N VClock.S].
    rewrite lookup_insert_eq, lookup_insert_ne by discriminate.
    rewrite lookup_insert_eq. cbn [default].
    unfold py_or. cbn.
    destruct (Z.eqb_spec n 0) as [-> |], (Z.eqb_spec s 0) as [-> |]; reflexivity.
  - reflexivity.
  - intros HN HS. unfold Worker._parse_vclock, Worker.int_or_0, get_default.
    cbn [Worker._parse_json_maybe]. rewrite HN, HS. reflexivity.
  - unfold Worker._parse_vclock. destruct (_parse_json_maybe x); try reflexivity.
    discriminate.
  - unfold Worker._parse_vclock. destruct (_parse_json_maybe x) as [| | | | | d'];
      try discriminate.
    intros H. exists d'. split; [reflexivity |].
    destruct (int_or_0 d' "N"); [| left; reflexivity].
    destruct (int_or_0 d' "S"); [discriminate | right; reflexivity].
Qed.
End Parsing.

(** [_strip_non_semantic_fields] is idempotent; on a dict it removes
    exactly the three bookkeeping keys and keeps every other key with its
    value; anything that is not a dict is returned as it is. *)
Theorem strip_non_semantic_fields_idempotent (payload : value) :
  _strip_non_semantic_fields (_strip_non_semantic_fields payload)
  = _strip_non_semantic_fields payload
  /\ (forall d, payload = VDict d ->
        exists d', _strip_non_semantic_fields payload = VDict d'
          /\ forall key, d' !! key
               = if bool_decide (key ∈ non_semantic) then None else d !! key)
  /\ (is_dict payload = false -> _strip_non_semantic_fields payload = payload).
Proof.
  split; [| split].
  - destruct payload; try reflexivity. cbn. f_equal.
    apply map_eq. intros key. rewrite !strip_lookup.
    destruct (decide (key ∈ non_semantic)); reflexivity.
  - intros d ->. eexists. split; [reflexivity |]. intros key.
    rewrite strip_lookup. destruct (decide (key ∈ non_semantic)) as [H | H].
    + rewrite bool_decide_eq_true_2 by exact H. reflexivity.
    + rewrite bool_decide_eq_false_2 by exact H. reflexivity.
  - destruct payload; try reflexivity. discriminate.
Qed.

(** [_normalize_payload_for_target] changes nothing for a target other
    than Postgres; for Postgres it keeps the keys, rewrites only integer 0
    and 1 under a key that starts with [is_], and is idempotent. *)
Theorem normalize_payload_idempotent (target_db : string) (payload : pydict) :
  _normalize_payload_for_target target_db
    (_normalize_payload_for_target target_db payload)
  = _normalize_payload_for_target target_db payload
  /\ (target_db <> "postgres" ->
      _normalize_payload_for_target target_db payload = payload)
  /\ dom (_normalize_payload_for_target target_db payload) = dom payload
  /\ (forall key v, payload !! key = Some v ->
        String.prefix "is_" key = false \/ (v <> VInt 0 /\ v <> VInt 1) ->
        _normalize_payload_for_target target_db payload !! key = Some v)
  /\ (forall key z, payload !! key = Some (VInt z) ->
        target_db = "postgres" -> String.prefix "is_" key = true ->
        z = 0 \/ z = 1 ->
        _normalize_payload_for_target target_db payload !! key
        = Some (VBool (negb (z =? 0)))).
Proof.
  unfold _normalize_payload_for_target.
  destruct (String.eqb_spec target_db "postgres") as [-> | Hne]; cbn [negb].
  - split; [| split; [| split; [| split]]].
    + apply map_eq. intros key. rewrite !map_lookup_imap.
      destruct (payload !! key) as [v |]; [| reflexivity]. cbn.
      destruct v as [| b | z | s | l | d]; try reflexivity.
      destruct (String.prefix "is_" key && ((z =? 0) || (z =? 1))) eqn:E;
        cbn; rewrite ?E; reflexivity.
    + intros H. contradiction.
    + apply set_eq. intros key. rewrite !elem_of_dom, map_lookup_imap.
      destruct (payload !! key); cbn; split; intros [? ?]; eauto.
    + intros key v Hv Hkeep. rewrite map_lookup_imap, Hv. cbn. f_equal.
      destruct v as [| b | z | s | l | d]; try reflexivity.
      destruct Hkeep as [-> | [H0 H1]]; [reflexivity |].
      destruct (Z.eqb_spec z 0) as [-> | ?]; [contradiction |].
      destruct (Z.eqb_spec z 1) as [-> | ?]; [contradiction |].
      rewrite andb_false_r. reflexivity.
    + intros key z Hz _ Hp Hz01. rewrite map_lookup_imap, Hz. cbn. rewrite Hp.
      destruct Hz01 as [-> | ->]; reflexivity.
  - split; [reflexivity |]. split; [reflexivity |]. split; [reflexivity |].
    split; [intros key v Hv _; exact Hv |]. intros key z _ H. contradiction.
Qed.

(** The cursor round trip: what [_store_cursor] stores is what
    [_load_cursor] returns, without a further write; the cursors of the
    other names and every other table are left alone; and loading a cursor
    that does not exist yet creates it with 0, so that a second load
    returns the same value and writes nothing. *)
Theorem store_then_load_cursor (name : string) (v : Z) (w : world) :
  let stored := snd (_store_cursor name v w) in
  let loaded := snd (_load_cursor name w) in
  _load_cursor name stored = (Ok v, stored)
  /\ (forall other, other <> name ->
        sync_worker_state stored !! other = sync_worker_state w !! other)
  /\ dbs stored = dbs w /\ sync_log stored = sync_log w
  /\ sync_configs stored = sync_configs w
  /\ conflict_records stored = conflict_records w
  /\ _load_cursor name loaded = (fst (_load_cursor name w), loaded)
  /\ (sync_worker_state w !! name = None ->
      _load_cursor name w = (Ok 0, set_sync_worker_state (insert name 0) w)).
Proof.
  cbn zeta. unfold _store_cursor, _load_cursor, write. cbn [snd fst].
  split; [| split; [| split; [| split; [| split; [| split; [| split]]]]]];
    try reflexivity.
  - cbn. rewrite lookup_insert_eq. reflexivity.
  - intros other Hne. cbn. rewrite lookup_insert_ne by congruence. reflexivity.
  - destruct (sync_worker_state w !! name) as [c |] eqn:E; cbn [snd fst].
    + rewrite E. reflexivity.
    + cbn. rewrite lookup_insert_eq. reflexivity.
  - intros ->. reflexivity.
Qed.


Section Statements.
Context (json_loads : string -> option value).
Context (int_of_str : string -> option Z).
Context (fault : string -> database -> stmt -> option exc).

Local Abbreviation _delete_row := (_delete_row fault).
Local Abbreviation _process_edge_row := (_process_edge_row json_loads int_of_str fault).
Local Abbreviation replicate_all := (replicate_all json_loads int_of_str fault).
Local Abbreviation handle_replication_error :=
  (handle_replication_error int_of_str fault).

(** [_delete_row] is idempotent whatever the constraints of the target
    are: a second run leaves the state of the first.  When the statement is
    accepted the row is gone and the other rows of the table are as
    before; when it is rejected nothing changes. *)
Theorem delete_row_idempotent (target_db tbl : string) (record_id : Z) (w : world) :
  let once := snd (_delete_row target_db tbl record_id w) in
  snd (_delete_row target_db tbl record_id once) = once
  /\ (fst (_delete_row target_db tbl record_id w) = Ok tt ->
      table_of once target_db tbl !! record_id = None
      /\ forall j, j <> record_id ->
           table_of once target_db tbl !! j = table_of w target_db tbl !! j)
  /\ (fst (_delete_row target_db tbl record_id w) <> Ok tt -> once = w).
Proof.
  cbn zeta.
  assert (Hrun : forall w0,
             _delete_row target_db tbl record_id w0
             = match fault target_db (db_of w0 target_db) (Delete tbl record_id) with
               | Some e => (Raise e, w0)
               | None =>
                   (Ok tt, put_table target_db tbl
                             (delete record_id (table_of w0 target_db tbl)) w0)
               end) by reflexivity.
  rewrite (Hrun w).
  destruct (fault target_db (db_of w target_db) (Delete tbl record_id)) as [e |] eqn:E;
    cbn [fst snd].
  - rewrite Hrun, E. cbn. split; [reflexivity |]. split; [discriminate | reflexivity].
  - split; [| split].
    + rewrite Hrun.
      destruct (fault target_db
                  (db_of (put_table target_db tbl
                            (delete record_id (table_of w target_db tbl)) w) target_db)
                  (Delete tbl record_id)); cbn [snd]; [reflexivity |].
      rewrite table_of_put_table_eq, put_table_put_table.
      f_equal. apply map_eq. intros j.
      destruct (decide (j = record_id)) as [-> | Hne].
      * rewrite !lookup_delete_eq. reflexivity.
      * rewrite !lookup_delete_ne by congruence. reflexivity.
    + intros _. rewrite table_of_put_table_eq. split.
      * apply lookup_delete_eq.
      * intros j Hne. apply lookup_delete_ne. congruence.
    + intros H. contradiction.
Qed.

(** [_record_conflict] only adds: the new record gets an id above every
    id in use, it is pending and unresolved, and every record that was
    there before is unchanged. *)
Theorem record_conflict_appends (tbl : string) (record_id : Z) (src tgt : string)
    (payload : pydict) (w : world) :
  exists id,
    fst (_record_conflict tbl record_id src tgt payload w) = Ok id
    /\ conflict_records w !! id = None
    /\ (forall k, is_Some (conflict_records w !! k) -> k < id)
    /\ conflict_records (snd (_record_conflict tbl record_id src tgt payload w)) !! id
       = Some (MkConflictRecord tbl record_id src tgt (_json_safe (VDict payload))
                 false "pending" None None)
    /\ (forall k, k <> id ->
          conflict_records (snd (_record_conflict tbl record_id src tgt payload w)) !! k
          = conflict_records w !! k)
    /\ same_hub w (snd (_record_conflict tbl record_id src tgt payload w))
    /\ dbs (snd (_record_conflict tbl record_id src tgt payload w)) = dbs w.
Proof.
  exists (next_id (conflict_records w)). cbn.
  split; [reflexivity |]. split; [apply next_id_fresh |].
  split; [apply next_id_above |]. split; [apply lookup_insert_eq |].
  split; [intros k Hne; apply lookup_insert_ne; congruence |].
  repeat split.
Qed.

(** [_touch_scheduled_last_run] writes nothing for an empty list;
    otherwise it sets [last_run_at] of the listed links to the current
    time, keeps their other columns, adds and removes no link and leaves
    the links that are not listed as they are. *)
Theorem touch_scheduled_last_run_only_stamps (ids : list Z) (now : Z) (w : world) :
  let w' := snd (_touch_scheduled_last_run ids now w) in
  fst (_touch_scheduled_last_run ids now w) = Ok tt
  /\ (ids = [] -> w' = w)
  /\ (forall id, sync_configs w' !! id = None <-> sync_configs w !! id = None)
  /\ (forall id cfg, sync_configs w !! id = Some cfg ->
        exists cfg', sync_configs w' !! id = Some cfg'
          /\ source cfg' = source cfg /\ target cfg' = target cfg
          /\ mode cfg' = mode cfg /\ interval_seconds cfg' = interval_seconds cfg
          /\ enabled cfg' = enabled cfg
          /\ last_run_at cfg'
             = if bool_decide (id ∈ ids) then Some now else last_run_at cfg)
  /\ snd (_touch_scheduled_last_run ids now w') = w'.
Proof.
  cbn zeta. destruct (touch_spec ids now w) as (w' & Hrun & _ & _ & _ & _ & Hcfg).
  rewrite Hrun. cbn [fst snd].
  split; [reflexivity |]. split; [| split; [| split]].
  - intros ->. unfold _touch_scheduled_last_run, ret in Hrun. injection Hrun as <-.
    reflexivity.
  - intros id. rewrite Hcfg. destruct (sync_configs w !! id); cbn; split; congruence.
  - intros id cfg Hid. rewrite Hcfg, Hid. cbn. eexists. split; [reflexivity |].
    destruct (bool_decide (id ∈ ids)); cbn; auto 10.
  - destruct ids as [| i ids]; [reflexivity |].
    assert (Hw' : w' = set_sync_configs
                         (map_imap (fun id cfg =>
                            Some (if bool_decide (id ∈ i :: ids)
                                  then touch now cfg else cfg))) w)
      by (unfold _touch_scheduled_last_run, write in Hrun; injection Hrun as <-;
          reflexivity).
    rewrite Hw'. cbn. unfold set_sync_configs. cbn. f_equal.
    apply map_eq. intros id. rewrite !map_lookup_imap.
    destruct (sync_configs w !! id) as [cfg |]; [| reflexivity]. cbn.
    destruct (bool_decide (id ∈ i :: ids)); reflexivity.
Qed.

(** The loop over the targets skips the origin itself: listing the
    origin among the targets changes nothing. *)
Theorem replicate_all_skips_origin (o : string) (row : EdgeLogRow) (p : pydict)
    (v : VClock.t) (targets : list string) :
  replicate_all o row p v targets
  = replicate_all o row p v (filter (fun t => t <> o) targets).
Proof.
  induction targets as [| t targets IH]; [reflexivity |].
  rewrite filter_cons. cbn [Worker.replicate_all].
  destruct (String.eqb_spec t o) as [-> | Hne].
  - rewrite decide_False by tauto. exact IH.
  - rewrite decide_True by exact Hne. cbn [Worker.replicate_all].
    destruct (String.eqb_spec t o); [contradiction |].
    rewrite IH. reflexivity.
Qed.

(** An exception no repair branch recognises, or an exception for an
    event that is neither INSERT nor UPDATE, ends the handling of the event
    with [return False] and without any further statement: the world is as
    the failed attempt left it. *)
Theorem unrecognised_error_is_not_repaired (o t : string) (row : EdgeLogRow)
    (p : pydict) (e : exc) (w : world) :
  is_insert_or_update (operation row) = false
  \/ (_is_postgres_fk_missing e = false /\ _is_postgres_unique_violation e = false
      /\ _is_mysql_fk_missing e = false) ->
  handle_replication_error o t row p e w = (Ok ReturnFalse, w).
Proof.
  intros H. unfold Worker.handle_replication_error, then_repair, repair_pg_profile_fk,
    repair_pg_profile_unique, repair_pg_user_unique.
  destruct H as [Hop | (H1 & H2 & H3)].
  - rewrite Hop, !andb_false_r. unfold bind, ret. cbn. rewrite andb_false_r. reflexivity.
  - unfold bind, ret.
    repeat (rewrite ?H1, ?H2, ?H3, ?andb_false_r; cbn [andb]). reflexivity.
Qed.

(** An event whose processing does not answer [True] (it answered
    [False] or raised) keeps its log entry as it was, and the cursors are
    untouched: the event is fetched again in the next round. *)
Theorem failed_event_stays_pending (o : string) (k : VClock.key) (row : EdgeLogRow)
    (targets : list string) (w : world) :
  fst (_process_edge_row o k row targets w) <> Ok true ->
  let w' := snd (_process_edge_row o k row targets w) in
  sync_log w' = sync_log w
  /\ sync_worker_state w' = sync_worker_state w
  /\ (pending o w (log_id row) -> pending o w' (log_id row))
  /\ (forall after limit,
        fst (_fetch_edge_logs json_loads o after limit w')
        = fst (_fetch_edge_logs json_loads o after limit w)).
Proof.
  intros Hr. cbn zeta.
  destruct (_process_edge_row o k row targets w) as [r w'] eqn:E. cbn [fst snd] in *.
  destruct (process_edge_row_log json_loads int_of_str fault _ _ _ _ _ _ _ E)
    as (Hs & _ & Hl).
  assert (Hlog : sync_log w' = sync_log w).
  { rewrite Hl. destruct r as [[|] | e]; [contradiction | reflexivity | reflexivity]. }
  split; [exact Hlog |]. split; [exact Hs |]. split.
  - unfold pending. rewrite Hlog. auto.
  - intros after limit. unfold _fetch_edge_logs. rewrite Hlog.
    destruct (limit <? 0); reflexivity.
Qed.
End Statements.

Section Fetching.
Context (json_loads : string -> option value).

Local Abbreviation _fetch_edge_logs := (_fetch_edge_logs json_loads).
Local Abbreviation _parse_json_maybe := (_parse_json_maybe json_loads).

(** [_fetch_edge_logs] raises on a negative limit and writes nothing.
    Otherwise it returns at most [limit] events; when it returns fewer,
    they are all the pending entries after the cursor; and each event
    carries the columns of its log entry, with the operation in upper case
    and the two snapshots parsed. *)
Theorem fetch_edge_logs_complete_below_limit (o : string) (after limit : Z) (w : world) :
  (limit < 0 -> _fetch_edge_logs o after limit w = (Raise OtherSQLAlchemyError, w))
  /\ (0 <= limit ->
      exists batch,
        _fetch_edge_logs o after limit w = (Ok batch, w)
        /\ Z.of_nat (length batch) <= limit
        /\ (Z.of_nat (length batch) < limit ->
            forall id, after < id -> pending o w id -> id ∈ map log_id batch)
        /\ (forall row, row ∈ batch ->
              exists log entry,
                sync_log w !! o = Some log /\ log !! log_id row = Some entry
                /\ table_name row = sl_table_name entry
                /\ data_id row = sl_data_id entry
                /\ operation row = upper (sl_operation entry)
                /\ old_data row = _parse_json_maybe (sl_old_data entry)
                /\ new_data row = _parse_json_maybe (sl_new_data entry))).
Proof.
  unfold Worker._fetch_edge_logs. split.
  - intros H. destruct (Z.ltb_spec limit 0); [reflexivity | lia].
  - intros Hlim. destruct (Z.ltb_spec limit 0); [lia |].
    set (log := default ∅ (sync_log w !! o)).
    set (pend := filter (fun kv : Z * sync_log_row => sl_status kv.2 = 0 /\ after < kv.1)
                   (map_to_list log)).
    set (sorted := merge_sort by_log_id pend).
    assert (Hperm : sorted ≡ₚ pend) by apply merge_sort_Permutation.
    eexists. split; [reflexivity |]. split; [| split].
    + rewrite length_map, length_take. lia.
    + rewrite length_map, length_take. intros Hshort id Hid (log0 & entry & Hlog & He & Hst).
      assert (Hall : take (Z.to_nat limit) sorted = sorted) by (apply take_ge; lia).
      rewrite Hall.
      assert (Hin : (id, entry) ∈ sorted).
      { rewrite Hperm. unfold pend. apply list_elem_of_filter. split; [cbn; lia |].
        apply elem_of_map_to_list. unfold log. rewrite Hlog. exact He. }
      apply list_elem_of_fmap. eexists. split; [| apply list_elem_of_fmap; eauto].
      reflexivity.
    + intros row Hrow. apply list_elem_of_fmap in Hrow as ([id entry] & -> & Hkv).
      apply elem_of_take in Hkv as (i & Hkv & _).
      apply list_elem_of_lookup_2 in Hkv. rewrite Hperm in Hkv. unfold pend in Hkv.
      apply list_elem_of_filter in Hkv as [_ Hkv].
      apply elem_of_map_to_list in Hkv. cbn.
      unfold log in Hkv. destruct (sync_log w !! o) as [log0 |] eqn:E.
      * exists log0, entry. cbn in Hkv. auto 10.
      * cbn in Hkv. rewrite lookup_empty in Hkv. discriminate.
Qed.
End Fetching.

(** The targets of a round, as [_resolve_targets_and_due_scheduled]
    returns them, never hold the origin itself, hold no target twice and
    are in [sorted] order; every link that contributes as scheduled has its
    target among them; and the query writes nothing. *)
Theorem resolved_targets_exclude_origin (o : string) (force : bool) (now : Z)
    (w : world) :
  exists targets ids,
    _resolve_targets_and_due_scheduled o force now w = (Ok (targets, ids), w)
    /\ (o ∉ targets)
    /\ NoDup targets
    /\ Sorted str_le targets
    /\ (forall id, id ∈ ids ->
          exists cfg, sync_configs w !! id = Some cfg /\ target cfg ∈ targets)
    /\ (forall t, t ∈ targets ->
          exists id cfg, sync_configs w !! id = Some cfg /\ enabled cfg = true
                         /\ source cfg = o /\ target cfg = t).
Proof.
  destruct (resolve_targets_spec o force now w) as (targets & ids & Hres & Hids & Htg).
  exists targets, ids. split; [exact Hres |].
  assert (Hshape : exists S : gset string, targets = merge_sort str_le (elements S)).
  { unfold _resolve_targets_and_due_scheduled, read in Hres.
    destruct (resolve_loop force now (enabled_links o w) ∅ []) as [S l].
    exists S. congruence. }
  destruct Hshape as [S ->].
  split; [| split; [| split; [| split]]].
  - intros Hin. apply Htg in Hin as (id & cfg & (_ & _ & _ & Hne) & Heq & _). congruence.
  - rewrite merge_sort_Permutation. apply NoDup_elements.
  - apply Sorted_merge_sort. intros a b. unfold str_le.
    destruct (String.leb_total a b); auto.
  - intros id Hin. destruct (proj1 (Hids id) Hin) as (cfg & Hl & Hrun).
    exists cfg. split; [apply Hl |]. apply Htg. exists id, cfg. auto.
  - intros t Hin. apply Htg in Hin as (id & cfg & (H1 & H2 & H3 & _) & Heq & _).
    exists id, cfg. auto.
Qed.

(** The simple query [_resolve_targets] for the realtime mode returns only
    targets the main loop's resolver returns too, whatever is due and
    whether or not the round is forced; and it never returns the origin. *)
Theorem realtime_targets_are_resolved (o : string) (force : bool) (now : Z)
    (w : world) (t : string) :
  t ∈ default [] (match fst (_resolve_targets o "realtime" w) with
                  | Ok ts => Some ts | Raise _ => None end) ->
  t <> o
  /\ exists targets ids,
       _resolve_targets_and_due_scheduled o force now w = (Ok (targets, ids), w)
       /\ t ∈ targets.
Proof.
  unfold _resolve_targets, read. cbn [fst default]. intros Hin.
  apply list_elem_of_fmap in Hin as ([id cfg] & -> & Hin).
  apply list_elem_of_filter in Hin as [(Hen & Hsrc & Hmode & Hne) Hin].
  apply elem_of_map_to_list in Hin. cbn in *.
  split; [exact Hne |].
  destruct (resolve_targets_spec o force now w) as (targets & ids & Hres & _ & Htg).
  exists targets, ids. split; [exact Hres |].
  apply Htg. exists id, cfg. split; [repeat split; assumption |]. split; [reflexivity |].
  left. unfold mode_of. rewrite Hmode. reflexivity.
Qed.

(** [SELECT id FROM tbl WHERE col = :v LIMIT 1] returns the id of a row
    that matches. *)
Lemma select_id_where_sound (t : table) (col : string) (v : value) (id : Z) :
  select_id_where t col v = Some id ->
  exists row, t !! id = Some row /\ row !! col = Some v.
Proof.
  unfold select_id_where. intros H.
  apply head_Some_elem_of in H. rewrite merge_sort_Permutation in H.
  apply list_elem_of_fmap in H as ([i row] & -> & H).
  apply list_elem_of_filter in H as [Hcol H]. apply elem_of_map_to_list in H.
  exists row. auto.
Qed.

(** [_map_user_id_by_unique] never raises and writes nothing.  An id it
    returns is the id of a user of the target that has the same e-mail,
    student id or user name as the origin's user, the value being one the
    origin's user really has (not empty, not [None]); without the origin's
    user, or when none of its three values is set, the answer is [None]. *)
Theorem mapped_user_shares_unique_key (o t : string) (uid : Z) (w : world) :
  exists r,
    _map_user_id_by_unique o t uid w = (Ok r, w)
    /\ (forall id, r = Some id ->
          exists origin_user target_user col,
            table_of w o "users" !! uid = Some origin_user
            /\ table_of w t "users" !! id = Some target_user
            /\ col ∈ ["email"; "student_id"; "username"]
            /\ truthy (get origin_user col) = true
            /\ target_user !! col = Some (get origin_user col))
    /\ (table_of w o "users" !! uid = None -> r = None)
    /\ (forall origin_user,
          table_of w o "users" !! uid = Some origin_user ->
          truthy (get origin_user "email") = false ->
          truthy (get origin_user "student_id") = false ->
          truthy (get origin_user "username") = false -> r = None).
Proof.
  unfold _map_user_id_by_unique, _select_edge_row, bind, read.
  destruct (table_of w o "users" !! uid) as [origin_user |] eqn:Hou.
  - eexists. split; [reflexivity |]. split; [| split; [discriminate |]].
    + intros id Hid. apply head_Some_elem_of in Hid.
      apply list_elem_of_omap in Hid as ([col v] & Hcand & Hsel). cbn in Hsel.
      apply select_id_where_sound in Hsel as (target_user & Htu & Hcol).
      exists origin_user, target_user, col. split; [reflexivity |].
      split; [exact Htu |].
      assert (Hc : col ∈ ["email"; "student_id"; "username"]
                   /\ truthy (get origin_user col) = true
                   /\ v = get origin_user col).
      { rewrite !elem_of_app in Hcand.
        destruct Hcand as [Hc | [Hc | Hc]];
          [ destruct (truthy (get origin_user "email")) eqn:Htr
          | destruct (truthy (get origin_user "student_id")) eqn:Htr
          | destruct (truthy (get origin_user "username")) eqn:Htr ];
          try (apply elem_of_nil in Hc; destruct Hc);
          apply list_elem_of_singleton in Hc; injection Hc as -> ->;
          (split; [| split; [exact Htr | reflexivity]]).
        - left.
        - right; left.
        - right; right; left. }
      destruct Hc as (Hc1 & Hc2 & ->). auto.
    + intros ou [= <-] H1 H2 H3. rewrite H1, H2, H3. reflexivity.
  - eexists. split; [reflexivity |]. split; [discriminate |].
    split; [reflexivity | discriminate].
Qed.

(** *** The baseline topology *)

Lemma find_config_sound (rows : gmap Z SyncConfig) (src tgt md : string) (id : Z) :
  find_config rows src tgt md = Some id ->
  exists cfg, rows !! id = Some cfg /\ source cfg = src /\ target cfg = tgt
              /\ mode_of cfg = md.
Proof.
  unfold find_config. intros H. apply last_Some_elem_of in H.
  apply list_elem_of_fmap in H as ([i cfg] & -> & H).
  apply list_elem_of_filter in H as [(H1 & H2 & H3) H].
  rewrite merge_sort_Permutation in H. apply elem_of_map_to_list in H.
  exists cfg. auto.
Qed.

Lemma ensure_one_step (rows : gmap Z SyncConfig)
    (d : string * string * string * Z * bool) (acc : gmap Z SyncConfig) :
  d.1.2 = 30 -> d.2 = true -> d.1.1.2 <> EmptyString ->
  (forall id cfg, rows !! id = Some cfg ->
     exists cfg', acc !! id = Some cfg' /\ kept_config cfg cfg') ->
  (forall id cfg, rows !! id = Some cfg ->
     exists cfg', ensure_one rows d acc !! id = Some cfg' /\ kept_config cfg cfg')
  /\ provides (ensure_one rows d acc) d
  /\ (forall d', provides acc d' -> provides (ensure_one rows d acc) d').
Proof.
  destruct d as [[[[src tgt] md] iv] en]. cbn [fst snd]. intros -> -> Hmd Hinv.
  unfold ensure_one.
  destruct (find_config rows src tgt md) as [id |] eqn:Hfind.
  - destruct (find_config_sound _ _ _ _ _ Hfind) as (cfg & Hrow & Hs & Ht & Hm).
    destruct (Hinv id cfg Hrow) as (cfg0 & Hacc & Hs0 & Ht0 & Hm0 & Hl0 & _).
    split; [| split].
    + intros id1 cfg1 Hrow1. destruct (decide (id1 = id)) as [-> | Hne].
      * rewrite lookup_alter_eq, Hacc. cbn. eexists. split; [reflexivity |].
        rewrite Hrow in Hrow1. injection Hrow1 as <-.
        unfold kept_config. cbn. auto 10.
      * rewrite lookup_alter_ne by congruence. apply Hinv. exact Hrow1.
    + exists id. eexists. rewrite lookup_alter_eq, Hacc. cbn.
      split; [reflexivity |]. cbn. unfold mode_of in *. cbn. rewrite Hs0, Ht0, Hm0.
      auto.
    + intros d' (id' & cfg' & Hacc' & P1 & P2 & P3 & P4 & P5).
      destruct (decide (id' = id)) as [-> | Hne].
      * exists id. eexists. rewrite lookup_alter_eq, Hacc'. cbn.
        split; [reflexivity |]. unfold mode_of in *. cbn. auto.
      * exists id', cfg'. rewrite lookup_alter_ne by congruence. auto 10.
  - assert (Hfresh : acc !! next_id acc = None) by apply next_id_fresh.
    split; [| split].
    + intros id1 cfg1 Hrow1. destruct (Hinv id1 cfg1 Hrow1) as (cfg' & Hacc & Hk).
      exists cfg'. split; [| exact Hk].
      rewrite lookup_insert_ne by congruence. exact Hacc.
    + exists (next_id acc). eexists. rewrite lookup_insert_eq.
      split; [reflexivity |]. cbn.
      unfold mode_of. cbn.
      destruct (String.eqb_spec md EmptyString); [contradiction | auto 10].
    + intros d' (id' & cfg' & Hacc' & P).
      exists id', cfg'. rewrite lookup_insert_ne by congruence. auto.
Qed.

Lemma ensure_all_steps (rows : gmap Z SyncConfig)
    (ds : list (string * string * string * Z * bool)) (acc : gmap Z SyncConfig) :
  Forall (fun d => d.1.2 = 30 /\ d.2 = true /\ d.1.1.2 <> EmptyString) ds ->
  (forall id cfg, rows !! id = Some cfg ->
     exists cfg', acc !! id = Some cfg' /\ kept_config cfg cfg') ->
  (forall id cfg, rows !! id = Some cfg ->
     exists cfg', foldl (fun acc d => ensure_one rows d acc) acc ds !! id = Some cfg'
                  /\ kept_config cfg cfg')
  /\ (forall d, d ∈ ds ->
        provides (foldl (fun acc d => ensure_one rows d acc) acc ds) d)
  /\ (forall d, provides acc d ->
        provides (foldl (fun acc d => ensure_one rows d acc) acc ds) d).
Proof.
  revert acc. induction ds as [| d ds IH]; intros acc Hds Hinv.
  - cbn. split; [exact Hinv |]. split; [| auto].
    intros d Hd. apply elem_of_nil in Hd. destruct Hd.
  - apply Forall_cons in Hds as [(H30 & Hen & Hmd) Hds]. cbn [foldl].
    destruct (ensure_one_step rows d acc H30 Hen Hmd Hinv) as (S1 & S2 & S3).
    destruct (IH (ensure_one rows d acc) Hds S1) as (I1 & I2 & I3).
    split; [exact I1 |]. split.
    + intros d' Hd'. apply elem_of_cons in Hd' as [-> | Hd'].
      * apply I3. exact S2.
      * apply I2. exact Hd'.
    + intros d' Hp. apply I3, S3. exact Hp.
Qed.

(** [_ensure_sync_configs] never raises.  Afterwards every link of the
    baseline topology is provided by a row that is enabled with an interval
    of 30 seconds; every row that was there before is still there with its
    source, target, mode and last run, and with its interval and its
    enabled flag either as they were or set to the baseline values; and
    no other table is written. *)
Theorem ensure_sync_configs_baseline (w : world) :
  let w' := snd (_ensure_sync_configs w) in
  fst (_ensure_sync_configs w) = Ok tt
  /\ (forall d, d ∈ desired -> provides (sync_configs w') d)
  /\ (forall id cfg, sync_configs w !! id = Some cfg ->
        exists cfg', sync_configs w' !! id = Some cfg' /\ kept_config cfg cfg')
  /\ dbs w' = dbs w /\ sync_log w' = sync_log w
  /\ sync_worker_state w' = sync_worker_state w
  /\ conflict_records w' = conflict_records w.
Proof.
  cbn zeta. unfold _ensure_sync_configs, write. cbn [fst snd].
  split; [reflexivity |].
  destruct (ensure_all_steps (sync_configs w) desired (sync_configs w)) as (H1 & H2 & _).
  - unfold desired. repeat constructor; discriminate.
  - intros id cfg Hid. exists cfg. split; [exact Hid |]. unfold kept_config. auto 10.
  - split; [exact H2 |]. split; [exact H1 |]. repeat split.
Qed.

(** *** Which databases a replication writes to *)

#[local] Instance only_dbs_preorder (touched : string -> Prop) :
  PreOrder (only_dbs touched).
Proof.
  split.
  - intros w db _. reflexivity.
  - intros a b c H1 H2 db Hdb. rewrite (H2 db Hdb). apply H1. exact Hdb.
Qed.

Lemma keeps_only_dbs_weaken {A} (S S' : string -> Prop) (m : M A) :
  (forall db, S db -> S' db) -> keeps (only_dbs S) m -> keeps (only_dbs S') m.
Proof. intros Himp H w db Hdb. apply H. intros HS. apply Hdb, Himp, HS. Qed.

Section Touched.
Context (json_loads : string -> option value).
Context (int_of_str : string -> option Z).
Context (fault : string -> database -> stmt -> option exc).
Context (S : string -> Prop) (t : string) (Ht : S t).

Lemma put_table_only_dbs (tbl : string) (x : table) (w : world) :
  only_dbs S w (put_table t tbl x w).
Proof.
  intros db Hdb. unfold put_table, set_dbs. cbn.
  rewrite lookup_insert_ne; [reflexivity |]. intros <-. contradiction.
Qed.

Lemma upsert_row_only_dbs (tbl : string) (p : pydict) :
  keeps (only_dbs S) (_upsert_row fault t tbl p).
Proof.
  intros w. unfold _upsert_row.
  destruct (_ !! "id"); [| cbn; reflexivity].
  destruct (fault _ _ _); [cbn; reflexivity |].
  destruct (apply_upsert _ _); cbn; [apply put_table_only_dbs | reflexivity].
Qed.

Lemma delete_row_only_dbs (tbl : string) (i : Z) :
  keeps (only_dbs S) (_delete_row fault t tbl i).
Proof.
  intros w. unfold _delete_row. destruct (fault _ _ _); cbn; [reflexivity |].
  apply put_table_only_dbs.
Qed.

Lemma update_v_clock_only_dbs (tbl : string) (i : Z) (v : string) :
  keeps (only_dbs S) (update_v_clock fault t tbl i v).
Proof.
  intros w. unfold update_v_clock. destruct (fault _ _ _); cbn; [reflexivity |].
  apply put_table_only_dbs.
Qed.

Lemma record_conflict_only_dbs (tbl : string) (i : Z) (s d : string) (p : pydict) :
  keeps (only_dbs S) (_record_conflict tbl i s d p).
Proof. intros w db _. reflexivity. Qed.

Lemma bump_daily_stat_only_dbs (f : string) : keeps (only_dbs S) (_bump_daily_stat f).
Proof. intros w db _. reflexivity. Qed.

Lemma mark_edge_log_only_dbs (o : string) (i : Z) :
  keeps (only_dbs S) (_mark_edge_log_processed o i).
Proof. intros w db _. reflexivity. Qed.

Lemma select_current_row_only_dbs (db tbl : string) (i : Z) :
  keeps (only_dbs S) (_select_current_row db tbl i).
Proof. apply keeps_read. apply _. Qed.

Lemma select_edge_row_only_dbs (db tbl : string) (i : Z) :
  keeps (only_dbs S) (_select_edge_row db tbl i).
Proof. apply keeps_read. apply _. Qed.

Lemma select_profile_id_only_dbs (db : string) (i : Z) :
  keeps (only_dbs S) (_select_profile_id_by_user_id db i).
Proof. apply keeps_read. apply _. Qed.

Hint Resolve upsert_row_only_dbs delete_row_only_dbs update_v_clock_only_dbs
  record_conflict_only_dbs bump_daily_stat_only_dbs select_current_row_only_dbs
  select_edge_row_only_dbs select_profile_id_only_dbs mark_edge_log_only_dbs : keeps.

Lemma map_user_id_only_dbs (o d : string) (i : Z) :
  keeps (only_dbs S) (_map_user_id_by_unique o d i).
Proof. unfold _map_user_id_by_unique. keeps_tac. Qed.
Hint Resolve map_user_id_only_dbs : keeps.

Lemma ensure_parent_only_dbs (o p : string) (i : Z) :
  keeps (only_dbs S) (_ensure_parent_present fault o t p i).
Proof. unfold _ensure_parent_present. keeps_tac. Qed.
Hint Resolve ensure_parent_only_dbs : keeps.

Lemma retry_upsert_only_dbs (tbl : string) (p : pydict) :
  keeps (only_dbs S) (retry_upsert fault t tbl p).
Proof. unfold retry_upsert. keeps_tac. Qed.
Hint Resolve retry_upsert_only_dbs : keeps.

Lemma smart_fix_only_dbs (k : VClock.key) (row : EdgeLogRow)
    (p : pydict) (v : VClock.t) :
  keeps (only_dbs S) (smart_fix json_loads int_of_str fault t k row p v).
Proof. unfold smart_fix. keeps_tac. Qed.

Lemma replicate_to_only_dbs (o : string) (row : EdgeLogRow) (p : pydict)
    (v : VClock.t) :
  keeps (only_dbs S) (replicate_to json_loads int_of_str fault o row p v t).
Proof. unfold replicate_to. keeps_tac. Qed.

Lemma handle_replication_error_only_dbs (o : string) (row : EdgeLogRow)
    (p : pydict) (e : exc) :
  keeps (only_dbs S) (handle_replication_error int_of_str fault o t row p e).
Proof.
  unfold handle_replication_error, then_repair, repair_pg_profile_fk,
    repair_pg_profile_unique, repair_pg_user_unique, repair_my_item_fk,
    repair_my_profile_fk.
  keeps_tac.
Qed.
End Touched.

Section Writes.
Context (json_loads : string -> option value).
Context (int_of_str : string -> option Z).
Context (fault : string -> database -> stmt -> option exc).

Local Abbreviation _process_edge_row := (_process_edge_row json_loads int_of_str fault).
Local Abbreviation replicate_all := (replicate_all json_loads int_of_str fault).

Lemma replicate_all_only_dbs (o : string) (row : EdgeLogRow) (p : pydict)
    (v : VClock.t) (targets : list string) :
  keeps (only_dbs (fun db => db ∈ targets /\ db <> o)) (replicate_all o row p v targets).
Proof.
  induction targets as [| t targets IH]; cbn [Worker.replicate_all].
  - apply keeps_ret. apply _.
  - assert (IH' : keeps (only_dbs (fun db => db ∈ t :: targets /\ db <> o))
                    (replicate_all o row p v targets)).
    { eapply keeps_only_dbs_weaken; [| exact IH].
      intros db [H1 H2]. split; [right; exact H1 | exact H2]. }
    destruct (String.eqb_spec t o) as [-> | Hne]; [exact IH' |].
    assert (Ht : (fun db => db ∈ t :: targets /\ db <> o) t) by (split; [left | exact Hne]).
    apply (keeps_bind _).
    + apply (keeps_try_except _).
      * apply (keeps_bind _);
          [exact (replicate_to_only_dbs json_loads int_of_str fault _ t Ht o row p v) |].
        intros _. apply keeps_ret. apply _.
      * intros e.
        exact (handle_replication_error_only_dbs int_of_str fault _ t Ht o row p e).
    + intros [|]; [exact IH' | apply keeps_ret; apply _].
Qed.

(** Processing an event writes business tables only in the origin (the
    smart fix stamps the origin's row) and in the targets it was given;
    the loop over the targets alone never writes to the origin, nor to a
    database that is not among the targets. *)
Theorem replication_writes_only_to_targets (o : string) (k : VClock.key)
    (row : EdgeLogRow) (targets : list string) (w : world) :
  (forall db, db <> o -> db ∉ targets ->
     dbs (snd (_process_edge_row o k row targets w)) !! db = dbs w !! db)
  /\ (forall p v db, db = o \/ db ∉ targets ->
        dbs (snd (replicate_all o row p v targets w)) !! db = dbs w !! db).
Proof.
  split.
  - assert (H : keeps (only_dbs (fun db => db = o \/ db ∈ targets))
                  (_process_edge_row o k row targets)).
    { assert (Ho : (fun db => db = o \/ db ∈ targets) o) by (left; reflexivity).
      unfold Worker._process_edge_row.
      pose proof (mark_edge_log_only_dbs (fun db => db = o \/ db ∈ targets)) as Hmark.
      destruct (negb _).
      - apply (keeps_bind _); [apply Hmark |]. intros _. apply keeps_ret. apply _.
      - destruct (source_snapshot row);
          try (apply (keeps_bind _); [apply Hmark |]; intros _; apply keeps_ret; apply _).
        apply (keeps_bind _); [apply keeps_lift; apply _ |]. intros v.
        apply (keeps_bind _);
          [exact (smart_fix_only_dbs json_loads int_of_str fault _ o Ho k row _ v) |].
        intros [[row' p'] v'].
        apply (keeps_bind _).
        + eapply keeps_only_dbs_weaken; [| apply replicate_all_only_dbs].
          intros db [H1 _]. right. exact H1.
        + intros [|]; [| apply keeps_ret; apply _].
          apply (keeps_bind _); [apply Hmark |]. intros _. apply keeps_ret. apply _. }
    intros db Hne Hnin. apply (H w). intros [-> | Hin]; contradiction.
  - intros p v db Hdb. apply (replicate_all_only_dbs o row p v targets w).
    intros [Hin Hne]. destruct Hdb as [-> | Hnin]; contradiction.
Qed.
End Writes.

Section Parents.
Context (fault : string -> database -> stmt -> option exc).

Local Abbreviation _ensure_parent_present := (_ensure_parent_present fault).

(** [_ensure_parent_present] never raises.  With the parent row already
    in the target it answers [True] and writes nothing; otherwise it
    answers [True] exactly when the origin has the row and its upsert into
    the target succeeds, and a [False] answer leaves the world as it was. *)
Theorem ensure_parent_present_never_raises (o t p : string) (i : Z) (w : world) :
  exists b,
    fst (_ensure_parent_present o t p i w) = Ok b
    /\ (is_Some (table_of w t p !! i) ->
        b = true /\ snd (_ensure_parent_present o t p i w) = w)
    /\ (b = false -> snd (_ensure_parent_present o t p i w) = w)
    /\ (table_of w t p !! i = None ->
        (b = true <->
         exists payload, table_of w o p !! i = Some payload
                         /\ fst (_upsert_row fault t p payload w) = Ok tt)
        /\ (forall payload, table_of w o p !! i = Some payload ->
              snd (_ensure_parent_present o t p i w)
              = snd (_upsert_row fault t p payload w))).
Proof.
  unfold Worker._ensure_parent_present, _select_current_row, _select_edge_row,
    bind, read, try_except, ret.
  destruct (table_of w t p !! i) as [existing |] eqn:Hex.
  - exists true. cbn. split; [reflexivity |]. split; [auto |].
    split; [discriminate 1 |]. discriminate 1.
  - destruct (table_of w o p !! i) as [payload |] eqn:Hor.
    + destruct (_upsert_row fault t p payload w) as [[[] | e] w1] eqn:Hup.
      * exists true. cbn. split; [reflexivity |].
        split; [intros [? [=]] |]. split; [discriminate 1 |]. intros _. split.
        -- split; [| reflexivity]. intros _. exists payload. split; [reflexivity |].
           rewrite Hup. reflexivity.
        -- intros ? [= <-]. rewrite Hup. reflexivity.
      * pose proof (upsert_row_raise fault _ _ _ _ _ _ Hup) as ->.
        exists false. cbn. split; [reflexivity |].
        split; [intros [? [=]] |]. split; [reflexivity |]. intros _. split.
        -- split; [discriminate 1 |]. intros (payload' & [= <-] & H).
           rewrite Hup in H. discriminate.
        -- intros ? [= <-]. rewrite Hup. reflexivity.
    + exists false. cbn. split; [reflexivity |].
      split; [intros [? [=]] |]. split; [reflexivity |]. intros _. split.
      * split; [discriminate 1 |]. intros (payload' & [=] & _).
      * intros ? [=].
Qed.
End Parents.

(** An error that is not an integrity error ends the handling of an
    event without a further write. *)
Lemma unrecognised_error_is_not_repaired_witness :
  handle_replication_error no_int no_fault "mariadb" "mysql" newer_update
    (item "newer" 2 1) OtherSQLAlchemyError hub_with_item
  = (Ok ReturnFalse, hub_with_item).
Proof.
  apply (unrecognised_error_is_not_repaired no_int no_fault "mariadb" "mysql"
           newer_update (item "newer" 2 1) OtherSQLAlchemyError hub_with_item).
  right. repeat split.
Defined.

(** The hub rejects the upsert of the newer update: the event is answered
    with [False] and the change log is as before. *)
Lemma failed_event_stays_pending_witness :
  fst (_process_edge_row no_json no_int reject_upserts "mariadb" VClock.KN
         newer_update ["mysql"] hub_with_log) = Ok false
  /\ sync_log (snd (_process_edge_row no_json no_int reject_upserts "mariadb"
                      VClock.KN newer_update ["mysql"] hub_with_log))
     = sync_log hub_with_log.
Proof.
  split; [vm_compute; reflexivity |].
  refine (proj1 (failed_event_stays_pending no_json no_int reject_upserts "mariadb"
                   VClock.KN newer_update ["mysql"] hub_with_log _)).
  vm_compute. intros [=].
Defined.

(** The realtime target of MariaDB in [hub_with_links] is a target of
    every round. *)
Lemma realtime_targets_are_resolved_witness :
  "mysql" <> "mariadb"
  /\ exists targets ids,
       _resolve_targets_and_due_scheduled "mariadb" false 1010000000 hub_with_links
       = (Ok (targets, ids), hub_with_links)
       /\ "mysql" ∈ targets.
Proof.
  apply (realtime_targets_are_resolved "mariadb" false 1010000000 hub_with_links "mysql").
  vm_compute. left.
Defined.

End WorkerFacts.

Module SyncApiFacts.
Import Py SyncApi Scenario.
Local Open Scope Z_scope.

(** *** Strings *)

Lemma ltb_asym (a b : string) : String.ltb a b = true -> String.ltb b a = false.
Proof.
  unfold String.ltb. rewrite (String.compare_antisym b a).
  destruct (String.compare a b); cbn; congruence.
Qed.

Lemma ltb_total (a b : string) :
  String.ltb a b = false -> String.ltb b a = false -> a = b.
Proof.
  unfold String.ltb. rewrite (String.compare_antisym b a).
  destruct (String.compare a b) eqn:E; cbn; try discriminate.
  intros _ _. apply String.compare_eq_iff. exact E.
Qed.

(** [sorted([a, b])] does not depend on the order of [a] and [b]. *)
Lemma sorted2_comm (a b : string) : sorted2 a b = sorted2 b a.
Proof.
  unfold sorted2.
  destruct (String.ltb b a) eqn:Hba, (String.ltb a b) eqn:Hab; try reflexivity.
  - apply ltb_asym in Hba. congruence.
  - rewrite (ltb_total a b Hab Hba). reflexivity.
Qed.

Lemma bar_free_app (a b : string) :
  bar_free (a ++ b) = bar_free a && bar_free b.
Proof.
  induction a as [| c a IH]; [reflexivity |].
  change (String c a ++ b)%string with (String c (a ++ b)%string).
  cbn [bar_free]. rewrite IH. apply andb_assoc.
Qed.

(** Splitting at the first separator is unique. *)
Lemma bar_split_inj (a1 a2 r1 r2 : string) :
  bar_free a1 = true -> bar_free a2 = true ->
  (a1 ++ String "|" r1 = a2 ++ String "|" r2)%string -> a1 = a2 /\ r1 = r2.
Proof.
  revert a2. induction a1 as [| c a1 IH]; intros a2 H1 H2 Heq.
  - destruct a2 as [| c2 a2].
    + change (String "|" r1 = String "|" r2) in Heq.
      injection Heq as Heq. auto.
    + change (String "|" r1 = String c2 (a2 ++ String "|" r2)%string) in Heq.
      injection Heq as Hc _. subst c2. cbn in H2. discriminate.
  - destruct a2 as [| c2 a2].
    + change (String c (a1 ++ String "|" r1)%string = String "|" r2) in Heq.
      injection Heq as Hc _. subst c. cbn in H1. discriminate.
    + change (String c (a1 ++ String "|" r1)%string
              = String c2 (a2 ++ String "|" r2)%string) in Heq.
      injection Heq as Hc Heq. subst c2.
      cbn [bar_free] in H1, H2.
      apply andb_true_iff in H1 as [_ H1]. apply andb_true_iff in H2 as [_ H2].
      destruct (IH a2 H1 H2 Heq) as [-> ->]. auto.
Qed.

Lemma safe_table_bar_free (s : string) : safe_table_re_match s = true -> bar_free s = true.
Proof.
  assert (Hword : forall c, is_word_char c = true -> (nat_of_ascii c =? 124)%nat = false).
  { intros c. unfold is_word_char.
    destruct (Nat.eqb_spec (nat_of_ascii c) 124) as [-> |]; [cbn; discriminate | reflexivity]. }
  assert (Hend : forall r, at_end r = true -> bar_free r = true).
  { intros r. unfold at_end. rewrite orb_true_iff. intros [H | H];
      apply String.eqb_eq in H; subst; reflexivity. }
  assert (Hskip : forall r, bar_free (skip_word r) = true -> bar_free r = true).
  { induction r as [| c r IH]; cbn; [auto |].
    destruct (is_word_char c) eqn:E; [| auto].
    intros H. rewrite (Hword c E). cbn. auto. }
  unfold safe_table_re_match. intros H.
  apply andb_true_iff in H as [_ H]. apply Hskip.
  apply orb_true_iff in H as [H | H]; [apply Hend; exact H |].
  destruct (skip_word s) as [| c rest]; [discriminate |].
  apply andb_true_iff in H as [H H3]. apply andb_true_iff in H as [H1 H2].
  cbn. apply Nat.eqb_eq in H1. rewrite H1. cbn.
  apply Hskip, Hend. exact H3.
Qed.

(** *** Decimal numerals *)

Lemma dec_inj (x y : Z) : dec x = dec y -> x = y.
Proof.
  unfold dec. intros H.
  assert (Hnn : forall z, Z.to_int z <> Decimal.Pos Decimal.Nil
                          /\ Z.to_int z <> Decimal.Neg Decimal.Nil).
  { intros z. destruct z as [| p | p]; cbn; split; try discriminate;
      intros [= E]; pose proof (DecimalPos.Unsigned.to_uint_nonnil p); congruence. }
  assert (Hi : Z.to_int x = Z.to_int y).
  { pose proof (NilZero.isi (Z.to_int x) (proj1 (Hnn x)) (proj2 (Hnn x))) as Hx.
    pose proof (NilZero.isi (Z.to_int y) (proj1 (Hnn y)) (proj2 (Hnn y))) as Hy.
    rewrite H in Hx. rewrite Hx in Hy. congruence. }
  apply DecimalZ.to_int_inj. exact Hi.
Qed.

Lemma uint_bar_free (u : Decimal.uint) : bar_free (NilEmpty.string_of_uint u) = true.
Proof. induction u; cbn; auto. Qed.

Lemma nz_uint_bar_free (u : Decimal.uint) : bar_free (NilZero.string_of_uint u) = true.
Proof.
  unfold NilZero.string_of_uint. destruct u; try reflexivity; apply uint_bar_free.
Qed.

Lemma dec_bar_free (z : Z) : bar_free (dec z) = true.
Proof.
  unfold dec, NilZero.string_of_int.
  destruct (Z.to_int z) as [u | u]; [apply nz_uint_bar_free |].
  cbn [bar_free]. rewrite nz_uint_bar_free. reflexivity.
Qed.

Section Signature.
Context (json_loads : string -> option value).
Context (int_of_str : string -> option Z).
Context (repr_container : value -> string).

Local Abbreviation _conflict_signature :=
    (_conflict_signature json_loads int_of_str repr_container).
Local Abbreviation signature_of :=
    (signature_of json_loads int_of_str repr_container).
Local Abbreviation state_vc := (state_vc json_loads int_of_str).

  (** The signature starts with the table and the record id. *)
Lemma signature_prefix_inj (t1 t2 : string) (r1 r2 : Z) (p1 p2 : value) :
    bar_free t1 = true -> bar_free t2 = true ->
    _conflict_signature t1 r1 p1 = _conflict_signature t2 r2 p2 ->
    t1 = t2 /\ r1 = r2.
  Proof.
    intros H1 H2. unfold SyncApi._conflict_signature. cbn zeta.
    destruct (sorted2 _ _) as [lo1 hi1]. destruct (sorted2 _ _) as [lo2 hi2].
    intros Heq.
    apply (bar_split_inj t1 t2) in Heq as [-> Heq]; [| assumption | assumption].
    split; [reflexivity |].
    apply (bar_split_inj (dec r1) (dec r2)) in Heq as [Heq _];
      [| apply dec_bar_free | apply dec_bar_free].
    apply dec_inj. exact Heq.
  Qed.

  (** The signature depends on the reason and on the two clocks as an
      unordered pair. *)
Lemma signature_swap (tbl : string) (record_id : Z) (p p' : value) :
    get (payload_dict p) "reason" = get (payload_dict p') "reason" ->
    state_vc (source_state (payload_dict p)) = state_vc (target_state (payload_dict p')) ->
    state_vc (target_state (payload_dict p)) = state_vc (source_state (payload_dict p')) ->
    _conflict_signature tbl record_id p = _conflict_signature tbl record_id p'.
  Proof.
    intros Hr Hs Ht. unfold SyncApi._conflict_signature. cbn zeta.
    fold (payload_dict p) (payload_dict p'). rewrite Hr, Hs, Ht.
    rewrite (sorted2_comm (_vc_key (state_vc (target_state (payload_dict p'))))).
    reflexivity.
  Qed.
End Signature.

Section Resolve.
Context (json_loads : string -> option value).
Context (int_of_str : string -> option Z).
Context (repr_container : value -> string).
Context (sync_winner_to :
             string -> string -> string -> pydict ->
             gmap string Worker.database -> option (gmap string Worker.database)).

Local Abbreviation _conflict_signature :=
    (_conflict_signature json_loads int_of_str repr_container).
Local Abbreviation signature_of :=
    (signature_of json_loads int_of_str repr_container).
Local Abbreviation state_vc := (state_vc json_loads int_of_str).
Local Abbreviation _resolve_conflict_and_replicate :=
    (_resolve_conflict_and_replicate json_loads int_of_str repr_container sync_winner_to).

  (** The conflict table after a resolution that completed. *)
Lemma resolve_records (conflict_id : Z) (strat : strategy) (resolved_by : option Z)
      (w w' : Worker.world) (res : resolution) :
    _resolve_conflict_and_replicate conflict_id strat resolved_by w = (inr res, w') ->
    exists row,
      Worker.conflict_records w !! conflict_id = Some row
      /\ Worker.cr_resolved row = false
      /\ safe_table_re_match (Worker.cr_table_name row) = true
      /\ forall id,
           Worker.conflict_records w' !! id
           = (fun r =>
                if bool_decide (id = conflict_id) then mark_resolved resolved_by strat r
                else if bool_decide (Worker.cr_table_name r = Worker.cr_table_name row
                                     /\ Worker.cr_record_id r = Worker.cr_record_id row
                                     /\ Worker.cr_resolved r = false
                                     /\ signature_of r = signature_of row)
                     then mark_resolved resolved_by strat r
                     else r) <$> Worker.conflict_records w !! id.
  Proof.
    unfold SyncApi._resolve_conflict_and_replicate.
    destruct (Worker.conflict_records w !! conflict_id) as [row |] eqn:Hrow;
      [| discriminate].
    destruct (Worker.cr_resolved row) eqn:Hres; [discriminate |].
    unfold _validate_table_name.
    destruct (String.eqb (Worker.cr_table_name row) EmptyString
              || negb (safe_table_re_match (Worker.cr_table_name row))) eqn:Hsafe;
      [discriminate |].
    apply orb_false_iff in Hsafe as [_ Hsafe]. apply negb_false_iff in Hsafe.
    destruct (existsb _ _); [discriminate |].
    destruct (negb _ || negb _); [discriminate |].
    set (tbl := Worker.cr_table_name row).
    set (rid := Worker.cr_record_id row).
    set (sig := _conflict_signature tbl rid (_parse_json_field json_loads (Worker.cr_payload row))).
    set (group := group_rows tbl rid (Worker.conflict_records w)).
    match goal with
    | |- context [match ?f with (_, _) => _ end] =>
        match type of f with
        | (_ * bool * bool)%type => destruct f as [[win fallback] missing]
        end
    end.
    match goal with
    | |- context [match ?f with (_, _) => _ end] => destruct f as [[e | synced] d']
    end; [discriminate |].
    intros [= _ <-]. exists row. split; [reflexivity |]. split; [exact Hres |].
    split; [exact Hsafe |]. intros id. cbn.
    rewrite map_lookup_imap.
    destruct (decide (id = conflict_id)) as [-> | Hne].
    - rewrite lookup_alter_eq, Hrow. cbn.
      rewrite andb_false_r.
      rewrite (bool_decide_eq_true_2 (conflict_id = conflict_id)) by reflexivity.
      reflexivity.
    - rewrite lookup_alter_ne by congruence.
      destruct (Worker.conflict_records w !! id) as [r |] eqn:Hr; [| reflexivity].
      cbn. rewrite (bool_decide_eq_false_2 (id = conflict_id)) by exact Hne.
      f_equal.
      match goal with
      | |- (if bool_decide (id ∈ ?l) && _ then _ else _) = _ =>
          assert (Hdup : id ∈ l <->
                    Worker.cr_table_name r = tbl /\ Worker.cr_record_id r = rid
                    /\ Worker.cr_resolved r = false /\ signature_of r = signature_of row)
      end.
      { rewrite list_elem_of_fmap. split.
        - intros ([i r'] & -> & Hin). cbn in *.
          apply list_elem_of_filter in Hin as [Hp Hin]. cbn in Hp.
          unfold group, group_rows in Hin.
          apply list_elem_of_filter in Hin as [[Ht Hi] Hin]. cbn in Ht, Hi.
          apply elem_of_map_to_list in Hin. rewrite Hr in Hin. injection Hin as <-.
          apply andb_true_iff in Hp as [Hp Hs]. apply andb_true_iff in Hp as [_ Hunres].
          apply negb_true_iff in Hunres. apply String.eqb_eq in Hs.
          repeat split; try assumption.
          unfold SyncApi.signature_of. rewrite Ht, Hi. exact Hs.
        - intros (Ht & Hi & Hunres & Hs). exists (id, r). split; [reflexivity |].
          apply list_elem_of_filter. split.
          + cbn. rewrite Hunres. cbn. rewrite andb_true_r.
            apply andb_true_iff. split.
            * apply negb_true_iff. apply Z.eqb_neq. exact Hne.
            * apply String.eqb_eq. unfold SyncApi.signature_of in Hs.
              rewrite Ht, Hi in Hs. exact Hs.
          + unfold group, group_rows. apply list_elem_of_filter. split; [cbn; auto |].
            apply elem_of_map_to_list. exact Hr. }
      destruct (decide (Worker.cr_table_name r = tbl /\ Worker.cr_record_id r = rid
                        /\ Worker.cr_resolved r = false
                        /\ signature_of r = signature_of row)) as [Hyes | Hno].
      + rewrite (bool_decide_eq_true_2 _ Hyes).
        rewrite bool_decide_eq_true_2 by (apply Hdup; exact Hyes).
        destruct Hyes as (_ & _ & -> & _). reflexivity.
      + rewrite (bool_decide_eq_false_2 _ Hno).
        rewrite bool_decide_eq_false_2 by (rewrite Hdup; exact Hno). reflexivity.
  Qed.

  (** C4: when a resolution completes, the resolved record is marked
      resolved; every other pending record with the same signature is marked
      resolved too (its table name being free of the separator, as every
      name [_validate_table_name] accepts is); every other record whose
      signature differs, in particular a pending one for the same table and
      record id, is left as it was; and the signature does not change when
      the clocks of the source side and of the target side are swapped. *)
Theorem resolution_closes_signature_group (conflict_id : Z) (strat : strategy)
      (resolved_by : option Z) (w w' : Worker.world) (res : resolution) :
    _resolve_conflict_and_replicate conflict_id strat resolved_by w = (inr res, w') ->
    exists row,
      Worker.conflict_records w !! conflict_id = Some row
      /\ Worker.cr_resolved row = false
      /\ Worker.conflict_records w' !! conflict_id
         = Some (mark_resolved resolved_by strat row)
      /\ (forall id r,
            id <> conflict_id -> Worker.conflict_records w !! id = Some r ->
            (Worker.cr_resolved r = false -> bar_free (Worker.cr_table_name r) = true ->
             signature_of r = signature_of row ->
             Worker.conflict_records w' !! id = Some (mark_resolved resolved_by strat r))
            /\ (signature_of r <> signature_of row ->
                Worker.conflict_records w' !! id = Some r)
            /\ (Worker.cr_resolved r = true ->
                Worker.conflict_records w' !! id = Some r))
      /\ (forall tbl record_id p p',
            get (payload_dict p) "reason" = get (payload_dict p') "reason" ->
            state_vc (source_state (payload_dict p))
            = state_vc (target_state (payload_dict p')) ->
            state_vc (target_state (payload_dict p))
            = state_vc (source_state (payload_dict p')) ->
            _conflict_signature tbl record_id p = _conflict_signature tbl record_id p').
  Proof.
    intros H. destruct (resolve_records _ _ _ _ _ _ H) as (row & Hrow & Hunres & Hsafe & Hall).
    exists row. split; [exact Hrow |]. split; [exact Hunres |]. split; [| split].
    - rewrite Hall, Hrow. cbn. rewrite bool_decide_eq_true_2 by reflexivity. reflexivity.
    - intros id r Hne Hr. rewrite Hall, Hr. cbn.
      rewrite (bool_decide_eq_false_2 (id = conflict_id)) by exact Hne.
      split; [| split].
      + intros Hp Hbar Hsig.
        destruct (signature_prefix_inj json_loads int_of_str repr_container
                    _ _ _ _ _ _ Hbar (safe_table_bar_free _ Hsafe) Hsig) as [Ht Hi].
        rewrite bool_decide_eq_true_2 by auto. reflexivity.
      + intros Hsig. rewrite bool_decide_eq_false_2 by tauto. reflexivity.
      + intros Hres. rewrite bool_decide_eq_false_2; [reflexivity |].
        intros (_ & _ & Hf & _). congruence.
    - intros tbl record_id p p'. apply signature_swap.
  Qed.
End Resolve.

(** C4 on [three_conflicts]: resolving conflict 1 by hand also closes
    conflict 2 and leaves conflict 3 pending. *)
Lemma resolution_closes_signature_group_witness :
  let w' := snd (_resolve_conflict_and_replicate no_json no_int no_repr sync_ok
                   1 Manual (Some 42) three_conflicts) in
  (Worker.cr_resolved <$> Worker.conflict_records w' !! 1) = Some true
  /\ (Worker.cr_resolved <$> Worker.conflict_records w' !! 2) = Some true
  /\ (Worker.cr_resolved <$> Worker.conflict_records w' !! 3) = Some false.
Proof.
  cbn zeta.
  destruct (resolution_closes_signature_group no_json no_int no_repr sync_ok
              1 Manual (Some 42) three_conflicts
              (snd (_resolve_conflict_and_replicate no_json no_int no_repr sync_ok
                      1 Manual (Some 42) three_conflicts))
              (MkResolution None [] false false))
    as (row & Hrow & _ & H1 & Hother & _).
  - vm_compute. reflexivity.
  - split; [rewrite H1; reflexivity |]. split.
    + destruct (Hother 2 (pending_conflict "mysql" "mariadb"
                            (conflict_payload "vector_clock_conflict" (clock_value 1 1)
                               (clock_value 2 0))))
        as (Hsame & _); [lia | reflexivity |].
      rewrite Hsame; [reflexivity | reflexivity | reflexivity |].
      vm_compute in Hrow. injection Hrow as <-. vm_compute. reflexivity.
    + destruct (Hother 3 (pending_conflict "mariadb" "mysql"
                            (conflict_payload "vector_clock_conflict" (clock_value 3 1)
                               (clock_value 2 2))))
        as (_ & Hdiff & _); [lia | reflexivity |].
      rewrite Hdiff; [reflexivity |].
      vm_compute in Hrow. injection Hrow as <-. vm_compute. intros [=].
Defined.

(** *** Table names, clocks and failed resolutions *)

Lemma all_chars_skip_word (P : ascii -> bool) (s : string) :
  (forall c, is_word_char c = true -> P c = true) ->
  all_chars P (skip_word s) = true -> all_chars P s = true.
Proof.
  intros HP. induction s as [| c s IH]; cbn; [auto |].
  destruct (is_word_char c) eqn:E; [| auto].
  intros H. rewrite (HP c E). cbn. auto.
Qed.

Lemma skip_word_words (w : string) :
  all_chars is_word_char w = true -> skip_word w = EmptyString.
Proof.
  induction w as [| c w IH]; cbn; [reflexivity |].
  intros H. apply andb_true_iff in H as [Hc Hw]. rewrite Hc. auto.
Qed.

Lemma skip_word_all_words (w rest : string) :
  all_chars is_word_char w = true -> starts_with_word rest = false ->
  skip_word (String.append w rest) = rest.
Proof.
  intros Hw Hrest. induction w as [| c w IH].
  - change (String.append EmptyString rest) with rest.
    destruct rest as [| c rest]; [reflexivity |]. cbn in *. rewrite Hrest. reflexivity.
  - change (String.append (String c w) rest) with (String c (String.append w rest)).
    cbn in *. apply andb_true_iff in Hw as [Hc Hw]. rewrite Hc. auto.
Qed.

(** [_validate_table_name] answers 400 or returns its argument.  A name
    it returns is not empty, starts with a word character and holds
    nothing but word characters, dots and newlines, so no quote, blank,
    semicolon or separator; and a name of word characters is accepted
    with a newline appended as well as without. *)
Theorem validated_table_name_chars (s : string) :
  (forall e, _validate_table_name s = inl e -> e = HTTPException 400)
  /\ (forall s', _validate_table_name s = inr s' ->
        s' = s /\ s <> EmptyString /\ starts_with_word s = true
        /\ all_chars safe_char s = true /\ bar_free s = true)
  /\ (all_chars is_word_char s = true -> s <> EmptyString ->
      _validate_table_name s = inr s
      /\ _validate_table_name (String.append s (String (ascii_of_nat 10) EmptyString))
         = inr (String.append s (String (ascii_of_nat 10) EmptyString))).
Proof.
  unfold _validate_table_name. split; [| split].
  - intros e. destruct (_ || _); [intros [= <-]; reflexivity | discriminate].
  - intros s'. destruct (String.eqb_spec s EmptyString) as [-> | Hne]; [discriminate |].
    cbn [orb]. destruct (safe_table_re_match s) eqn:Hm; [| discriminate].
    intros [= <-]. split; [reflexivity |]. split; [exact Hne |].
    split; [| split; [| apply safe_table_bar_free; exact Hm]].
    + unfold safe_table_re_match in Hm. apply andb_true_iff in Hm as [Hm _]. exact Hm.
    + assert (Hword : forall c, is_word_char c = true -> safe_char c = true)
        by (intros c Hc; unfold safe_char; rewrite Hc; reflexivity).
      assert (Hend : forall r, at_end r = true -> all_chars safe_char r = true).
      { intros r. unfold at_end. rewrite orb_true_iff. intros [H | H];
          apply String.eqb_eq in H; subst; reflexivity. }
      unfold safe_table_re_match in Hm. apply andb_true_iff in Hm as [_ Hm].
      apply (all_chars_skip_word _ _ Hword).
      apply orb_true_iff in Hm as [Hm | Hm]; [apply Hend; exact Hm |].
      destruct (skip_word s) as [| c rest]; [discriminate |].
      apply andb_true_iff in Hm as [Hm H3]. apply andb_true_iff in Hm as [H1 H2].
      cbn [all_chars]. apply andb_true_iff. split.
      * unfold safe_char. rewrite H1. rewrite orb_true_r. reflexivity.
      * apply (all_chars_skip_word _ _ Hword), Hend. exact H3.
  - intros Hw Hne.
    assert (Hstart : starts_with_word s = true).
    { destruct s as [| c s]; [contradiction |]. cbn in *.
      apply andb_true_iff in Hw as [Hc _]. exact Hc. }
    split.
    + destruct (String.eqb_spec s EmptyString); [contradiction |]. cbn [orb].
      unfold safe_table_re_match. rewrite Hstart, (skip_word_words s Hw). reflexivity.
    + set (nl := String (ascii_of_nat 10) EmptyString).
      assert (Hstart' : starts_with_word (String.append s nl) = true).
      { destruct s as [| c s]; [contradiction |]. exact Hstart. }
      assert (Hne' : String.eqb (String.append s nl) EmptyString = false).
      { destruct s as [| c s]; [contradiction |]. reflexivity. }
      rewrite Hne'. cbn [orb]. unfold safe_table_re_match. rewrite Hstart'.
      rewrite (skip_word_all_words s nl Hw eq_refl). reflexivity.
Qed.

Section Clocks.
Context (json_loads : string -> option value).
Context (int_of_str : string -> option Z).

(** The parser of the API is a restriction of the parser of the worker:
    whenever [_parse_vclock_maybe] returns a clock, [_parse_vclock] returns
    the same clock for the same value. *)
Theorem api_vclock_parser_agrees_with_worker (v : value) (c : VClock.t) :
  _parse_vclock_maybe json_loads int_of_str v = Some c ->
  Worker._parse_vclock json_loads int_of_str v = Some c.
Proof.
  unfold _parse_vclock_maybe, Worker._parse_vclock, Worker._parse_json_maybe.
  destruct v as [| b | z | s | l | d]; try discriminate.
  - destruct (String.eqb (strip s) EmptyString); [discriminate |].
    destruct (json_loads (strip s)) as [[| | | | | d] |]; try discriminate.
    auto.
  - auto.
Qed.
End Clocks.

Lemma api_vclock_parser_agrees_with_worker_witness :
  Worker._parse_vclock no_json no_int (clock_value 2 1) = Some (VClock.Mk 2 1).
Proof.
  apply (api_vclock_parser_agrees_with_worker no_json no_int). reflexivity.
Defined.

Section Failures.
Context (json_loads : string -> option value).
Context (int_of_str : string -> option Z).
Context (repr_container : value -> string).
Context (sync_winner_to :
           string -> string -> string -> pydict ->
           gmap string Worker.database -> option (gmap string Worker.database)).

Local Abbreviation _resolve_conflict_and_replicate :=
  (_resolve_conflict_and_replicate json_loads int_of_str repr_container sync_winner_to).

(** A resolution that ends with an error leaves every conflict record as
    it was, also when some targets had been written before the error; the
    worker's state, the links and the change logs are untouched.  An
    unknown id is answered with 404, a record that is resolved already
    with 400, and in both cases nothing is written at all. *)
Theorem failed_resolution_keeps_conflicts (conflict_id : Z) (strat : strategy)
    (resolved_by : option Z) (w : Worker.world) (e : http_error) :
  fst (_resolve_conflict_and_replicate conflict_id strat resolved_by w) = inl e ->
  let w' := snd (_resolve_conflict_and_replicate conflict_id strat resolved_by w) in
  Worker.conflict_records w' = Worker.conflict_records w
  /\ Worker.sync_worker_state w' = Worker.sync_worker_state w
  /\ Worker.sync_configs w' = Worker.sync_configs w
  /\ Worker.sync_log w' = Worker.sync_log w
  /\ (Worker.conflict_records w !! conflict_id = None ->
      e = HTTPException 404 /\ w' = w)
  /\ (forall row, Worker.conflict_records w !! conflict_id = Some row ->
        Worker.cr_resolved row = true -> e = HTTPException 400 /\ w' = w).
Proof.
  cbn zeta. unfold SyncApi._resolve_conflict_and_replicate.
  destruct (Worker.conflict_records w !! conflict_id) as [row |] eqn:Hrow.
  2:{ cbn. intros [= <-]. repeat split; try discriminate. }
  destruct (Worker.cr_resolved row) eqn:Hres.
  { cbn. intros [= <-]. repeat split; try discriminate. }
  destruct (_validate_table_name (Worker.cr_table_name row)) as [e0 | tbl].
  { cbn. intros [= <-]. repeat split; try discriminate; intros; congruence. }
  destruct (existsb _ _).
  { cbn. intros [= <-]. repeat split; try discriminate; intros; congruence. }
  destruct (negb _ || negb _).
  { cbn. intros [= <-]. repeat split; try discriminate; intros; congruence. }
  match goal with
  | |- context [match ?f with (_, _) => _ end] =>
      match type of f with
      | (_ * bool * bool)%type => destruct f as [[win fallback] missing]
      end
  end.
  match goal with
  | |- context [match ?f with (_, _) => _ end] => destruct f as [[e1 | synced] d']
  end.
  - cbn. intros [= <-]. repeat split; try discriminate; intros; congruence.
  - cbn. discriminate.
Qed.
End Failures.

(** An unknown conflict id in [three_conflicts]. *)
Lemma failed_resolution_keeps_conflicts_witness :
  fst (_resolve_conflict_and_replicate no_json no_int no_repr sync_ok
         9 Source None three_conflicts) = inl (HTTPException 404)
  /\ Worker.conflict_records
       (snd (_resolve_conflict_and_replicate no_json no_int no_repr sync_ok
               9 Source None three_conflicts))
     = Worker.conflict_records three_conflicts.
Proof.
  split; [vm_compute; reflexivity |].
  refine (proj1 (failed_resolution_keeps_conflicts no_json no_int no_repr sync_ok
                   9 Source None three_conflicts (HTTPException 404) _)).
  vm_compute. reflexivity.
Defined.

(** *** The endpoints that steer the worker *)

Lemma scalar_none_nil {A} (rows : list A) :
  scalar_one_or_none rows = Some None -> rows = [].
Proof. destruct rows as [| r [| r' rows]]; [reflexivity | discriminate | discriminate]. Qed.

Section Steering.
Context (json_loads : string -> option value).
Context (int_of_str : string -> option Z).
Context (fault : string -> Worker.database -> Worker.stmt -> option Worker.exc).

Local Abbreviation round := (Worker.round json_loads int_of_str fault).
Local Abbreviation origins_loop := (Worker.origins_loop json_loads int_of_str fault).

(** [trigger_manual_sync] raises the counter by exactly one and changes
    nothing else, no cursor in particular.  A worker that had observed the
    old counter (or an older one) runs its next pass forced, which makes
    every enabled scheduled link of every origin contribute whatever its
    last run, and records the new counter; a pass after that is not
    forced again. *)
Theorem manual_trigger_forces_next_round (batch_size : Z) (clk : Worker.round_clock)
    (lmc : Z) (w : Worker.world) :
  let c := default 0 (Worker.sync_worker_state w !! "manual_trigger") in
  let w1 := trigger_manual_sync w in
  lmc <= c ->
  Worker._load_manual_trigger_counter w1 = (Worker.Ok (c + 1), w1)
  /\ (forall o, Worker.cursor_value o w1 = Worker.cursor_value o w)
  /\ Worker.sync_configs w1 = Worker.sync_configs w
  /\ Worker.sync_log w1 = Worker.sync_log w
  /\ Worker.dbs w1 = Worker.dbs w
  /\ Worker.conflict_records w1 = Worker.conflict_records w
  /\ round batch_size clk lmc w1
     = Worker.bind (origins_loop batch_size true clk Worker.EDGE_ORIGINS false)
         (fun progressed => Worker.ret (c + 1, progressed)) w1
  /\ (forall o now,
        exists targets ids,
          Worker._resolve_targets_and_due_scheduled o true now w1
          = (Worker.Ok (targets, ids), w1)
          /\ forall id cfg, Worker.link_of o w id cfg ->
                            Worker.mode_of cfg = "scheduled" ->
                            id ∈ ids /\ Worker.target cfg ∈ targets)
  /\ (forall w2, Worker.sync_worker_state w2 = Worker.sync_worker_state w1 ->
        round batch_size clk (c + 1) w2
        = Worker.bind (origins_loop batch_size false clk Worker.EDGE_ORIGINS false)
            (fun progressed => Worker.ret (c + 1, progressed)) w2).
Proof.
  cbn zeta. intros Hle.
  assert (Hc : default 0 (Worker.sync_worker_state (trigger_manual_sync w)
                            !! "manual_trigger")
               = default 0 (Worker.sync_worker_state w !! "manual_trigger") + 1).
  { unfold trigger_manual_sync. cbn.
    destruct (Worker.sync_worker_state w !! "manual_trigger");
      rewrite lookup_insert_eq; reflexivity. }
  split; [| split; [| split; [| split; [| split; [| split; [| split; [| split]]]]]]];
    try reflexivity.
  - unfold Worker._load_manual_trigger_counter, Worker.read. rewrite Hc. reflexivity.
  - intros o. unfold Worker.cursor_value, trigger_manual_sync. cbn.
    destruct (Worker.sync_worker_state w !! "manual_trigger");
      rewrite lookup_insert_ne by (unfold Worker.cursor_name; cbn; discriminate);
      reflexivity.
  - unfold Worker.round, Worker._load_manual_trigger_counter, Worker.read.
    unfold Worker.bind at 1. rewrite Hc.
    replace (default 0 (Worker.sync_worker_state w !! "manual_trigger") + 1 >? lmc)
      with true by (symmetry; apply Z.gtb_lt; lia).
    reflexivity.
  - intros o now.
    destruct (WorkerFacts.resolve_targets_spec o true now (trigger_manual_sync w))
      as (targets & ids & Hres & Hids & Htg).
    exists targets, ids. split; [exact Hres |].
    intros id cfg Hl Hm.
    assert (Hin : id ∈ ids).
    { apply Hids. exists cfg. split; [exact Hl |]. split; [exact Hm | left; reflexivity]. }
    split; [exact Hin |]. apply Htg. exists id, cfg. auto.
  - intros w2 Hst. unfold Worker.round, Worker._load_manual_trigger_counter, Worker.read.
    unfold Worker.bind at 1. rewrite Hst, Hc.
    replace (default 0 (Worker.sync_worker_state w !! "manual_trigger") + 1
             >? default 0 (Worker.sync_worker_state w !! "manual_trigger") + 1)
      with false by (symmetry; rewrite Z.gtb_ltb; apply Z.ltb_irrefl).
    reflexivity.
Qed.
End Steering.

(** The scheduled link of [hub_with_links] ran 10 seconds before: it is
    not due on a normal round and contributes after a manual trigger. *)
Lemma manual_trigger_forces_next_round_witness :
  Worker._resolve_targets_and_due_scheduled "mariadb" false 1010000000 hub_with_links
  = (Worker.Ok (["mysql"], []), hub_with_links)
  /\ exists targets ids,
       Worker._resolve_targets_and_due_scheduled "mariadb" true 1010000000
         (trigger_manual_sync hub_with_links)
       = (Worker.Ok (targets, ids), trigger_manual_sync hub_with_links)
       /\ 2 ∈ ids /\ "postgres" ∈ targets.
Proof.
  split; [vm_compute; reflexivity |].
  destruct (manual_trigger_forces_next_round no_json no_int no_fault 100
              (Worker.MkRoundClock (fun _ => 1010000000) (fun _ => 1010000000))
              0 hub_with_links)
    as (_ & _ & _ & _ & _ & _ & _ & Hforced & _).
  - vm_compute. intros [=].
  - destruct (Hforced "mariadb" 1010000000) as (targets & ids & Hres & Hall).
    exists targets, ids. split; [exact Hres |].
    apply (Hall 2 (Worker.MkSyncConfig "mariadb" "postgres" "scheduled" 300 true
                     (Some 1000000000))).
    + repeat split; try reflexivity. cbn. discriminate.
    + reflexivity.
Defined.

(** The three endpoints that edit [sync_configs] keep the key (source,
    target, mode) unique: when no two rows share a key before a call, none
    do after it, whether the call succeeds or is refused. *)
Theorem config_keys_stay_unique (w : Worker.world) :
  unique_keys (Worker.sync_configs w) ->
  (forall request,
     unique_keys (Worker.sync_configs (snd (create_sync_config request w))))
  /\ (forall config_id new_mode new_interval new_enabled,
        unique_keys (Worker.sync_configs
                       (snd (update_sync_config config_id new_mode new_interval
                               new_enabled w))))
  /\ (forall config_id,
        unique_keys (Worker.sync_configs (snd (delete_sync_config config_id w)))).
Proof.
  intros Huniq. split; [| split].
  - intros request. unfold create_sync_config.
    repeat (match goal with |- context [if ?b then _ else _] => destruct b end;
            [exact Huniq |]).
    destruct (scalar_one_or_none _) as [[existing |] |] eqn:Hq; try exact Huniq.
    apply scalar_none_nil in Hq. cbn.
    assert (Hnone : forall i ci, Worker.sync_configs w !! i = Some ci ->
                      Worker.source ci = rq_source request ->
                      Worker.target ci = rq_target request ->
                      Worker.mode ci = rq_mode request -> False).
    { intros i ci Hi H1 H2 H3.
      assert (Hin : (i, ci) ∈ filter
                (fun kv : Z * Worker.SyncConfig =>
                   Worker.source kv.2 = rq_source request
                   /\ Worker.target kv.2 = rq_target request
                   /\ Worker.mode kv.2 = rq_mode request)
                (map_to_list (Worker.sync_configs w))).
      { apply list_elem_of_filter. split; [cbn; auto |].
        apply elem_of_map_to_list. exact Hi. }
      rewrite Hq in Hin. apply elem_of_nil in Hin. exact Hin. }
    intros i j ci cj Hi Hj H1 H2 H3.
    destruct (decide (i = Worker.next_id (Worker.sync_configs w))) as [-> | Hni],
             (decide (j = Worker.next_id (Worker.sync_configs w))) as [-> | Hnj];
      [reflexivity | | |].
    + rewrite lookup_insert_eq in Hi. injection Hi as <-.
      rewrite lookup_insert_ne in Hj by congruence. cbn in *.
      exfalso. apply (Hnone j cj Hj); congruence.
    + rewrite lookup_insert_eq in Hj. injection Hj as <-.
      rewrite lookup_insert_ne in Hi by congruence. cbn in *.
      exfalso. apply (Hnone i ci Hi); congruence.
    + rewrite lookup_insert_ne in Hi, Hj by congruence.
      exact (Huniq i j ci cj Hi Hj H1 H2 H3).
  - intros config_id new_mode new_interval new_enabled. unfold update_sync_config.
    destruct config_id as [id |]; [| exact Huniq].
    destruct (Worker.sync_configs w !! id) as [config |] eqn:Hcfg; [| exact Huniq].
    destruct (match new_mode with Some m => _ | None => false end); [exact Huniq |].
    destruct (String.eqb _ _); [exact Huniq |].
    match goal with
    | |- context [match ?d with Some _ => _ | None => _ end] =>
        destruct d as [[dup |] |] eqn:Hq
    end; try exact Huniq.
    cbn.
    assert (Hother : forall j cj, j <> id -> Worker.sync_configs w !! j = Some cj ->
                       Worker.source cj = Worker.source config ->
                       Worker.target cj = Worker.target config ->
                       Worker.mode cj = default (Worker.mode config) new_mode -> False).
    { intros j cj Hne Hj H1 H2 H3.
      destruct new_mode as [m |]; cbn in H3.
      - destruct (String.eqb_spec m (Worker.mode config)) as [-> | Hm]; cbn in Hq.
        + apply Hne. exact (Huniq j id cj config Hj Hcfg H1 H2 H3).
        + apply scalar_none_nil in Hq.
          assert (Hin : (j, cj) ∈ filter
                    (fun kv : Z * Worker.SyncConfig =>
                       kv.1 <> id /\ Worker.source kv.2 = Worker.source config
                       /\ Worker.target kv.2 = Worker.target config
                       /\ Worker.mode kv.2 = m)
                    (map_to_list (Worker.sync_configs w))).
          { apply list_elem_of_filter. split; [cbn; auto |].
            apply elem_of_map_to_list. exact Hj. }
          rewrite Hq in Hin. apply elem_of_nil in Hin. exact Hin.
      - apply Hne. exact (Huniq j id cj config Hj Hcfg H1 H2 H3). }
    intros i j ci cj Hi Hj H1 H2 H3.
    destruct (decide (i = id)) as [-> | Hni], (decide (j = id)) as [-> | Hnj];
      [reflexivity | | |].
    + rewrite lookup_insert_eq in Hi. injection Hi as <-.
      rewrite lookup_insert_ne in Hj by congruence. cbn in *.
      exfalso. apply (Hother j cj Hnj Hj); congruence.
    + rewrite lookup_insert_eq in Hj. injection Hj as <-.
      rewrite lookup_insert_ne in Hi by congruence. cbn in *.
      exfalso. apply (Hother i ci Hni Hi); congruence.
    + rewrite lookup_insert_ne in Hi, Hj by congruence.
      exact (Huniq i j ci cj Hi Hj H1 H2 H3).
  - intros config_id. unfold delete_sync_config.
    destruct config_id as [id |]; [| exact Huniq].
    destruct (Worker.sync_configs w !! id); [| exact Huniq]. cbn.
    intros i j ci cj Hi Hj. apply lookup_delete_Some in Hi as [_ Hi].
    apply lookup_delete_Some in Hj as [_ Hj]. exact (Huniq i j ci cj Hi Hj).
Qed.

Lemma config_keys_stay_unique_witness :
  unique_keys (Worker.sync_configs
                 (snd (create_sync_config scheduled_link_request hub_with_links))).
Proof.
  refine (proj1 (config_keys_stay_unique hub_with_links _) scheduled_link_request).
  intros i j ci cj Hi Hj.
  assert (Hdom : forall k c, Worker.sync_configs hub_with_links !! k = Some c ->
                   (k = 1 /\ Worker.mode c = "realtime")
                   \/ (k = 2 /\ Worker.mode c = "scheduled")).
  { intros k c. unfold hub_with_links. cbn.
    destruct (decide (k = 1)) as [-> | H1].
    - rewrite lookup_insert_eq. intros [= <-]. left. auto.
    - rewrite lookup_insert_ne by congruence.
      destruct (decide (k = 2)) as [-> | H2].
      + rewrite lookup_insert_eq. intros [= <-]. right. auto.
      + rewrite lookup_insert_ne by congruence. rewrite lookup_empty. discriminate. }
  destruct (Hdom i ci Hi) as [[-> Mi] | [-> Mi]], (Hdom j cj Hj) as [[-> Mj] | [-> Mj]];
    intros _ _ Hm; try reflexivity; rewrite Mi, Mj in Hm; discriminate.
Defined.



End SyncApiFacts.
